(** * Scroll-driven parallax controller of the marketing site

    A shallow embedding of the [ParallaxController] class and of [initApp]
    (main script, contact-page script, and the [js/modules] variant), over an
    explicit model of the part of the browser they talk to: the scroll offset,
    the event-listener registry, the animation-frame queue and the inline
    [style.transform] of the layer elements.

    JavaScript numbers are IEEE 754 binary64 values: they are modelled by
    Rocq's primitive floats, so [scrolled * -0.2] below is the very product
    the script computes. *)

From Stdlib Require Import Floats ZArith.
From stdpp Require Import gmap strings list.

Set Warnings "-inexact-float".

(** ** A state monad with exceptions

    Every method mutates the controller and the page, and a property access
    on [null] throws.  Effects made before a [throw] stay, so the state is
    returned on both outcomes. *)

Module Js.

Inductive Error := TypeError.

Inductive Outcome (A : Type) :=
| Ret (a : A)
| Raise (e : Error).
Arguments Ret {A} a.
Arguments Raise {A} e.

Definition M (St A : Type) : Type := St -> Outcome A * St.

Definition ret {St A} (a : A) : M St A := fun s => (Ret a, s).

Definition bind {St A B} (m : M St A) (k : A -> M St B) : M St B :=
  fun s =>
    match m s with
    | (Ret a, s') => k a s'
    | (Raise e, s') => (Raise e, s')
    end.

Definition raise {St A} (e : Error) : M St A := fun s => (Raise e, s).
Definition gets {St A} (f : St -> A) : M St A := fun s => (Ret (f s), s).
Definition modify {St} (f : St -> St) : M St unit := fun s => (Ret tt, f s).

(** [when c m]: the statement [if (c) { m }]. *)
Definition when {St} (c : bool) (m : M St unit) : M St unit :=
  if c then m else ret tt.

(** Truthiness of a nullable object reference, and [a || b] on such. *)
Definition truthy {A} (o : option A) : bool :=
  match o with Some _ => true | None => false end.
Definition or_else {A} (a b : option A) : option A :=
  match a with Some _ => a | None => b end.

End Js.
Import Js.

Declare Scope js_scope.
Delimit Scope js_scope with js.
Notation "x <- m ;; k" := (bind m (fun x => k))
  (at level 100, m at next level, right associativity) : js_scope.
Notation "m ;; k" := (bind m (fun _ => k))
  (at level 100, right associativity) : js_scope.
Notation "a ||| b" := (or_else a b) (at level 50, left associativity) : js_scope.
Open Scope js_scope.

(** ** The page *)

Module Dom.

(** Elements are known by identity. *)
Definition ElemId := nat.

(** The text assigned to [style.transform].  The interpolation
    [`translate3d(0, ${y}px, 0)`] is kept structured as [Translate3d y]: the
    first and third components are the literal [0], the second is the number
    [y] in pixels.  The number-to-text conversion and the CSSOM's parsing of
    the assigned text are not modelled. *)
Inductive CssValue :=
| CssText (s : string)
| Translate3d (y : float).

(** Which function body a function object runs.  Only the two methods of the
    parallax controller have a body in this development; the handlers of the
    other components (theme button, FAQ and form wiring) are named but not
    modelled. *)
Inductive Code :=
| HandleScroll
| UpdateParallax
| Other (name : string).

(** A function object, by identity: a declaration or prototype method is one
    object for the whole run; every [bind] call and every arrow-function
    evaluation allocates a new one, numbered by the allocation counter. *)
Inductive FnObj :=
| Declared (c : Code)
| Closure (n : nat) (c : Code).

#[global] Instance Code_eq_dec : EqDecision Code.
Proof. solve_decision. Defined.
#[global] Instance FnObj_eq_dec : EqDecision FnObj.
Proof. solve_decision. Defined.

Inductive Target :=
| TWindow
| TDocument
| TElem (e : ElemId)
| TMedia (query : string).

#[global] Instance Target_eq_dec : EqDecision Target.
Proof. solve_decision. Defined.

(** A registration.  The scripts register no capturing listener, so the
    capture flag, which would take part in the matching, is left out. *)
Record Listener := {
  l_target : Target;
  l_type : string;
  l_fn : FnObj;
  l_passive : bool
}.

(** One assignment to an element's [style.transform], with the scroll offset
    the page had when it was made. *)
Record StyleWrite := {
  sw_elem : ElemId;
  sw_value : CssValue;
  sw_at : float
}.

(** The page.  [pageYOffset] is a double, [innerWidth] a whole number of
    pixels; [matchMedia q] is [window.matchMedia(q).matches]. *)
Record World := {
  (* window *)
  pageYOffset : float;
  innerWidth : Z;
  matchMedia : string -> bool;
  (* document *)
  querySelector : string -> option ElemId;
  getElementById : string -> option ElemId;
  requiredFields : list ElemId;
  dataTheme : option string;
  transform : gmap ElemId CssValue;
  (* localStorage: [None] when access to it throws *)
  localStorage : option (gmap string string);
  (* event loop *)
  listeners : list Listener;
  frameCallbacks : list FnObj;
  fnCounter : nat;
  (* every style write made so far, oldest first *)
  styleWrites : list StyleWrite
}.

Definition set_pageYOffset (y : float) (w : World) : World :=
  {| pageYOffset := y; innerWidth := innerWidth w; matchMedia := matchMedia w;
     querySelector := querySelector w; getElementById := getElementById w;
     requiredFields := requiredFields w; dataTheme := dataTheme w;
     transform := transform w; localStorage := localStorage w;
     listeners := listeners w; frameCallbacks := frameCallbacks w;
     fnCounter := fnCounter w; styleWrites := styleWrites w |}.

Definition set_dataTheme (t : option string) (w : World) : World :=
  {| pageYOffset := pageYOffset w; innerWidth := innerWidth w;
     matchMedia := matchMedia w;
     querySelector := querySelector w; getElementById := getElementById w;
     requiredFields := requiredFields w; dataTheme := t;
     transform := transform w; localStorage := localStorage w;
     listeners := listeners w; frameCallbacks := frameCallbacks w;
     fnCounter := fnCounter w; styleWrites := styleWrites w |}.

Definition set_localStorage (st : option (gmap string string)) (w : World) : World :=
  {| pageYOffset := pageYOffset w; innerWidth := innerWidth w;
     matchMedia := matchMedia w;
     querySelector := querySelector w; getElementById := getElementById w;
     requiredFields := requiredFields w; dataTheme := dataTheme w;
     transform := transform w; localStorage := st;
     listeners := listeners w; frameCallbacks := frameCallbacks w;
     fnCounter := fnCounter w; styleWrites := styleWrites w |}.

Definition set_listeners (ls : list Listener) (w : World) : World :=
  {| pageYOffset := pageYOffset w; innerWidth := innerWidth w;
     matchMedia := matchMedia w;
     querySelector := querySelector w; getElementById := getElementById w;
     requiredFields := requiredFields w; dataTheme := dataTheme w;
     transform := transform w; localStorage := localStorage w;
     listeners := ls; frameCallbacks := frameCallbacks w;
     fnCounter := fnCounter w; styleWrites := styleWrites w |}.

Definition set_frameCallbacks (q : list FnObj) (w : World) : World :=
  {| pageYOffset := pageYOffset w; innerWidth := innerWidth w;
     matchMedia := matchMedia w;
     querySelector := querySelector w; getElementById := getElementById w;
     requiredFields := requiredFields w; dataTheme := dataTheme w;
     transform := transform w; localStorage := localStorage w;
     listeners := listeners w; frameCallbacks := q;
     fnCounter := fnCounter w; styleWrites := styleWrites w |}.

Definition set_fnCounter (n : nat) (w : World) : World :=
  {| pageYOffset := pageYOffset w; innerWidth := innerWidth w;
     matchMedia := matchMedia w;
     querySelector := querySelector w; getElementById := getElementById w;
     requiredFields := requiredFields w; dataTheme := dataTheme w;
     transform := transform w; localStorage := localStorage w;
     listeners := listeners w; frameCallbacks := frameCallbacks w;
     fnCounter := n; styleWrites := styleWrites w |}.

Definition write_transform (e : ElemId) (v : CssValue) (w : World) : World :=
  {| pageYOffset := pageYOffset w; innerWidth := innerWidth w;
     matchMedia := matchMedia w;
     querySelector := querySelector w; getElementById := getElementById w;
     requiredFields := requiredFields w; dataTheme := dataTheme w;
     transform := <[e := v]> (transform w); localStorage := localStorage w;
     listeners := listeners w; frameCallbacks := frameCallbacks w;
     fnCounter := fnCounter w;
     styleWrites := styleWrites w ++
       [{| sw_elem := e; sw_value := v; sw_at := pageYOffset w |}] |}.

(** *** Host operations the scripts call *)

(** [el.style.transform = v] where [el] may be [null]: reading [.style] of
    [null] throws a [TypeError]. *)
Definition style_transform_assign (el : option ElemId) (v : CssValue) : M World unit :=
  match el with
  | None => raise TypeError
  | Some e => modify (write_transform e v)
  end.

Definition same_listener (t : Target) (ty : string) (f : FnObj) (l : Listener) : Prop :=
  l_target l = t /\ l_type l = ty /\ l_fn l = f.

#[global] Instance same_listener_dec t ty f l : Decision (same_listener t ty f l).
Proof. unfold same_listener. apply _. Defined.

(** [target.addEventListener(type, f, { passive })]: appended unless the same
    callback is already registered for that type on that target. *)
Definition addEventListener (t : Target) (ty : string) (f : FnObj) (passive : bool)
  : M World unit :=
  modify (fun w =>
    if decide (Exists (same_listener t ty f) (listeners w)) then w
    else set_listeners
           (listeners w ++
              [{| l_target := t; l_type := ty; l_fn := f; l_passive := passive |}]) w).

(** [target.removeEventListener(type, f)]: drops the registration of that very
    function object, if there is one. *)
Definition removeEventListener (t : Target) (ty : string) (f : FnObj) : M World unit :=
  modify (fun w =>
    set_listeners (filter (fun l => ~ same_listener t ty f l) (listeners w)) w).

(** [requestAnimationFrame(f)]: queued for the next frame. *)
Definition requestAnimationFrame (f : FnObj) : M World unit :=
  modify (fun w => set_frameCallbacks (frameCallbacks w ++ [f]) w).

(** Allocation of a function object running [c] ([f.bind(this)], an arrow
    function). *)
Definition new_function (c : Code) : M World FnObj :=
  fun w => (Ret (Closure (fnCounter w) c), set_fnCounter (S (fnCounter w)) w).

(** The listeners a scroll notification on the window is delivered to. *)
Definition scroll_listeners (w : World) : list Listener :=
  filter (fun l => l_target l = TWindow /\ l_type l = "scroll") (listeners w).

End Dom.
Import Dom.

(** ** [Utils] (all three scripts) *)

Module Utils.

Definition prefersReducedMotion (w : World) : bool :=
  matchMedia w "(prefers-reduced-motion: reduce)".

Definition isMobile (w : World) : bool := (innerWidth w <=? 768)%Z.

End Utils.

(** ** [class ParallaxController] of the main script and the contact script

    The two scripts carry the same class, character for character. *)

Module Parallax.

Record Elements := {
  layerBack : option ElemId;
  layerMid : option ElemId;
  layerFront : option ElemId
}.

(** The instance.  [handleScroll_fn] and [updateParallax_fn] are what
    [this.handleScroll] and [this.updateParallax] evaluate to: the prototype
    methods until [init] overwrites them with bound copies. *)
Record Controller := {
  elements : Elements;
  ticking : bool;
  lastScrollY : float;
  handleScroll_fn : FnObj;
  updateParallax_fn : FnObj
}.

Definition set_ticking (b : bool) (c : Controller) : Controller :=
  {| elements := elements c; ticking := b; lastScrollY := lastScrollY c;
     handleScroll_fn := handleScroll_fn c; updateParallax_fn := updateParallax_fn c |}.

Definition set_lastScrollY (y : float) (c : Controller) : Controller :=
  {| elements := elements c; ticking := ticking c; lastScrollY := y;
     handleScroll_fn := handleScroll_fn c; updateParallax_fn := updateParallax_fn c |}.

Definition set_handleScroll_fn (f : FnObj) (c : Controller) : Controller :=
  {| elements := elements c; ticking := ticking c; lastScrollY := lastScrollY c;
     handleScroll_fn := f; updateParallax_fn := updateParallax_fn c |}.

Definition set_updateParallax_fn (f : FnObj) (c : Controller) : Controller :=
  {| elements := elements c; ticking := ticking c; lastScrollY := lastScrollY c;
     handleScroll_fn := handleScroll_fn c; updateParallax_fn := f |}.

(** The instance together with the page it lives in. *)
Record Sys := { this : Controller; world : World }.

Definition host {A} (m : M World A) : M Sys A :=
  fun s => let (r, w) := m (world s) in (r, {| this := this s; world := w |}).

Definition update_this (f : Controller -> Controller) : M Sys unit :=
  modify (fun s => {| this := f (this s); world := world s |}).

Definition hasParallaxElements (c : Controller) : option ElemId :=
  layerBack (elements c) ||| layerMid (elements c) ||| layerFront (elements c).

Definition updateParallax : M Sys unit :=
  scrolled <- gets (fun s => pageYOffset (world s)) ;;
  last <- gets (fun s => lastScrollY (this s)) ;;
  if (abs (scrolled - last) <? 1)%float then
    update_this (set_ticking false)
  else
    back <- gets (fun s => layerBack (elements (this s))) ;;
    when (truthy back)
      (el <- gets (fun s => layerBack (elements (this s))) ;;
       host (style_transform_assign el (Translate3d (scrolled * -0.2)))) ;;
    mid <- gets (fun s => layerMid (elements (this s))) ;;
    when (truthy mid)
      (el <- gets (fun s => layerMid (elements (this s))) ;;
       host (style_transform_assign el (Translate3d (scrolled * -0.5)))) ;;
    front <- gets (fun s => layerFront (elements (this s))) ;;
    when (truthy front)
      (el <- gets (fun s => layerFront (elements (this s))) ;;
       host (style_transform_assign el (Translate3d (scrolled * -0.8)))) ;;
    update_this (set_lastScrollY scrolled) ;;
    update_this (set_ticking false).

Definition handleScroll : M Sys unit :=
  t <- gets (fun s => ticking (this s)) ;;
  when (negb t)
    (f <- gets (fun s => updateParallax_fn (this s)) ;;
     host (requestAnimationFrame f) ;;
     update_this (set_ticking true)).

Definition init : M Sys unit :=
  has <- gets (fun s => hasParallaxElements (this s)) ;;
  if negb (truthy has) then ret tt
  else
    h <- host (new_function HandleScroll) ;;
    update_this (set_handleScroll_fn h) ;;
    u <- host (new_function UpdateParallax) ;;
    update_this (set_updateParallax_fn u) ;;
    f <- gets (fun s => handleScroll_fn (this s)) ;;
    host (addEventListener TWindow "scroll" f true) ;;
    updateParallax.

(** [new ParallaxController()]: the fields are set, then [init] runs. *)
Definition constructor (w : World) : Outcome unit * Sys :=
  init
    {| this :=
         {| elements :=
              {| layerBack := querySelector w ".layer-back";
                 layerMid := querySelector w ".layer-mid";
                 layerFront := querySelector w ".layer-front" |};
            ticking := false;
            lastScrollY := 0%float;
            handleScroll_fn := Declared HandleScroll;
            updateParallax_fn := Declared UpdateParallax |};
       world := w |}.

Definition destroy : M Sys unit :=
  f <- gets (fun s => handleScroll_fn (this s)) ;;
  host (removeEventListener TWindow "scroll" f).

(** *** The browser's side: delivering events to the instance *)

(** Calling a function object.  A bound copy runs the method on the instance.
    A prototype method called without its instance finds no fields and throws.
    The other components' handlers have no body here and calling one does
    nothing; they are registered for clicks, media changes and form events
    only, and the dispatcher below never meets one in a controller's lifetime
    (the lifetime invariant in the properties section). *)
Definition invoke (f : FnObj) : M Sys unit :=
  match f with
  | Closure _ HandleScroll => handleScroll
  | Closure _ UpdateParallax => updateParallax
  | Declared HandleScroll | Declared UpdateParallax => raise TypeError
  | Declared (Other _) | Closure _ (Other _) => ret tt
  end.

(** An exception escaping a callback is reported by the browser and the event
    loop goes on. *)
Definition deliver (s : Sys) (f : FnObj) : Sys := snd (invoke f s).

(** One scroll notification on the window. *)
Definition scroll_notify (s : Sys) : Sys :=
  foldl deliver s (l_fn <$> scroll_listeners (world s)).

(** One rendering frame: the callbacks requested since the last frame run
    once each, in request order.  The callbacks that were run are returned. *)
Definition frame (s : Sys) : list FnObj * Sys :=
  let q := frameCallbacks (world s) in
  (q, foldl deliver {| this := this s; world := set_frameCallbacks [] (world s) |} q).

Inductive Event :=
| ScrollTo (y : float)   (* the page's scroll offset changes *)
| ScrollNotify           (* a scroll notification is dispatched *)
| Frame                  (* a rendering frame starts *)
| Destroy                (* the script calls [destroy()] *)
| Listen (t : Target) (ty : string) (f : FnObj).
                         (* another component registers a listener for
                            something other than scrolling of the window *)

Definition step (s : Sys) (e : Event) : Sys :=
  match e with
  | ScrollTo y => {| this := this s; world := set_pageYOffset y (world s) |}
  | ScrollNotify => scroll_notify s
  | Frame => snd (frame s)
  | Destroy => snd (destroy s)
  | Listen t ty f =>
      if decide (t = TWindow /\ ty = "scroll") then s
      else snd (host (addEventListener t ty f false) s)
  end.

Definition run (s : Sys) (es : list Event) : Sys := foldl step s es.

(** A page on which nothing listens to scrolling yet, no frame callback is
    waiting and no layer style has been written: the situation in which
    [initApp] constructs the controller. *)
Definition quiet (w : World) : Prop :=
  scroll_listeners w = [] /\ frameCallbacks w = [] /\ styleWrites w = [].

(** The states of a controller's lifetime. *)
Definition reachable (s : Sys) : Prop :=
  exists w es, quiet w /\ s = run (snd (constructor w)) es.

End Parallax.

(** ** [class ParallaxController] of [js/modules]

    The exported module variant.  It keeps an [options] object and never
    stores bound copies of its methods: each use site calls [bind] again. *)

Module ParallaxModule.

Record Options := { throttleDelay : float }.

Record Controller := {
  options : Options;
  elements : Parallax.Elements;
  ticking : bool;
  lastScrollY : float
}.

Definition set_ticking (b : bool) (c : Controller) : Controller :=
  {| options := options c; elements := elements c; ticking := b;
     lastScrollY := lastScrollY c |}.

Definition set_lastScrollY (y : float) (c : Controller) : Controller :=
  {| options := options c; elements := elements c; ticking := ticking c;
     lastScrollY := y |}.

Record Sys := { this : Controller; world : World }.

Definition host {A} (m : M World A) : M Sys A :=
  fun s => let (r, w) := m (world s) in (r, {| this := this s; world := w |}).

Definition update_this (f : Controller -> Controller) : M Sys unit :=
  modify (fun s => {| this := f (this s); world := world s |}).

Definition hasParallaxElements (c : Controller) : option ElemId :=
  Parallax.layerBack (elements c) ||| Parallax.layerMid (elements c)
    ||| Parallax.layerFront (elements c).

Definition updateParallax : M Sys unit :=
  scrolled <- gets (fun s => pageYOffset (world s)) ;;
  last <- gets (fun s => lastScrollY (this s)) ;;
  if (abs (scrolled - last) <? 1)%float then
    update_this (set_ticking false)
  else
    back <- gets (fun s => Parallax.layerBack (elements (this s))) ;;
    when (truthy back)
      (el <- gets (fun s => Parallax.layerBack (elements (this s))) ;;
       host (style_transform_assign el (Translate3d (scrolled * -0.2)))) ;;
    mid <- gets (fun s => Parallax.layerMid (elements (this s))) ;;
    when (truthy mid)
      (el <- gets (fun s => Parallax.layerMid (elements (this s))) ;;
       host (style_transform_assign el (Translate3d (scrolled * -0.5)))) ;;
    front <- gets (fun s => Parallax.layerFront (elements (this s))) ;;
    when (truthy front)
      (el <- gets (fun s => Parallax.layerFront (elements (this s))) ;;
       host (style_transform_assign el (Translate3d (scrolled * -0.8)))) ;;
    update_this (set_lastScrollY scrolled) ;;
    update_this (set_ticking false).

Definition handleScroll : M Sys unit :=
  t <- gets (fun s => ticking (this s)) ;;
  when (negb t)
    (f <- host (new_function UpdateParallax) ;;
     host (requestAnimationFrame f) ;;
     update_this (set_ticking true)).

Definition init : M Sys unit :=
  has <- gets (fun s => hasParallaxElements (this s)) ;;
  if negb (truthy has) then ret tt
  else
    f <- host (new_function HandleScroll) ;;
    host (addEventListener TWindow "scroll" f true) ;;
    updateParallax.

(** [new ParallaxController(options)]; [user_delay] is the caller's
    [throttleDelay], if any, which the spread puts over the default 16. *)
Definition constructor (user_delay : option float) (w : World) : Outcome unit * Sys :=
  init
    {| this :=
         {| options := {| throttleDelay := default 16%float user_delay |};
            elements :=
              {| Parallax.layerBack := querySelector w ".layer-back";
                 Parallax.layerMid := querySelector w ".layer-mid";
                 Parallax.layerFront := querySelector w ".layer-front" |};
            ticking := false;
            lastScrollY := 0%float |};
       world := w |}.

Definition destroy : M Sys unit :=
  f <- host (new_function HandleScroll) ;;
  host (removeEventListener TWindow "scroll" f).

Definition invoke (f : FnObj) : M Sys unit :=
  match f with
  | Closure _ HandleScroll => handleScroll
  | Closure _ UpdateParallax => updateParallax
  | Declared HandleScroll | Declared UpdateParallax => raise TypeError
  | Declared (Other _) | Closure _ (Other _) => ret tt
  end.

Definition deliver (s : Sys) (f : FnObj) : Sys := snd (invoke f s).

Definition scroll_notify (s : Sys) : Sys :=
  foldl deliver s (l_fn <$> scroll_listeners (world s)).

Definition frame (s : Sys) : list FnObj * Sys :=
  let q := frameCallbacks (world s) in
  (q, foldl deliver {| this := this s; world := set_frameCallbacks [] (world s) |} q).

End ParallaxModule.

(** ** [class ThemeController]: construction only

    [initApp] constructs it before the parallax controller, so what its
    constructor does to the page is part of [initApp]'s behaviour. *)

Module Theme.

Record Controller := {
  button : option ElemId;
  prefersDark : bool;
  currentTheme : string
}.

Definition set_currentTheme (t : string) (c : Controller) : Controller :=
  {| button := button c; prefersDark := prefersDark c; currentTheme := t |}.

(** [localStorage.getItem('theme')], [null] when storage throws. *)
Definition getStoredTheme (w : World) : option string :=
  match localStorage w with
  | Some st => st !! "theme"
  | None => None
  end.

(** [localStorage.setItem('theme', theme)], ignored when storage throws. *)
Definition storeTheme (theme : string) : M World unit :=
  modify (fun w =>
    match localStorage w with
    | Some st => set_localStorage (Some (<["theme" := theme]> st)) w
    | None => w
    end).

Definition applyTheme (theme : string) (c : Controller) : M World Controller :=
  modify (set_dataTheme (Some theme)) ;;
  storeTheme theme ;;
  ret (set_currentTheme theme c).

Definition init (c : Controller) : M World Controller :=
  if negb (truthy (button c)) then ret c
  else
    c' <- applyTheme (currentTheme c) c ;;
    click <- new_function (Other "() => this.toggleTheme()") ;;
    match button c' with
    | Some b => addEventListener (TElem b) "click" click false
    | None => raise TypeError
    end ;;
    change <- new_function (Other "(e) => { if (!this.getStoredTheme()) ... }") ;;
    addEventListener (TMedia "(prefers-color-scheme: dark)") "change" change false ;;
    ret c'.

(** A stored theme counts when it is a non-empty string. *)
Definition constructor : M World Controller :=
  w <- gets (fun w => w) ;;
  let dark := matchMedia w "(prefers-color-scheme: dark)" in
  init
    {| button := getElementById w "theme-toggle";
       prefersDark := dark;
       currentTheme :=
         match getStoredTheme w with
         | Some (String a t) => String a t
         | Some EmptyString | None => if dark then "dark" else "light"
         end |}.

End Theme.

(** ** Application start *)

Module App.

(** The two global instances after [initApp]. *)
Record Globals := {
  themeController : option Theme.Controller;
  parallaxController : option Parallax.Controller
}.

(** [new ParallaxController()] as an expression of the page's script. *)
Definition new_ParallaxController : M World Parallax.Controller :=
  fun w =>
    match Parallax.constructor w with
    | (Ret _, s) => (Ret (Parallax.this s), Parallax.world s)
    | (Raise e, s) => (Raise e, Parallax.world s)
    end.

(** The guarded statement shared by both scripts:
    [if (!Utils.prefersReducedMotion() && !Utils.isMobile())
       parallaxController = new ParallaxController();] *)
Definition init_parallax : M World (option Parallax.Controller) :=
  w <- gets (fun w => w) ;;
  if negb (Utils.prefersReducedMotion w) && negb (Utils.isMobile w) then
    c <- new_ParallaxController ;; ret (Some c)
  else ret None.

(** [initApp] of the main script. *)
Definition initApp : M World Globals :=
  theme <- Theme.constructor ;;
  parallax <- init_parallax ;;
  addEventListener TDocument "click" (Declared (Other "handleDocumentClick")) false ;;
  ret {| themeController := Some theme; parallaxController := parallax |}.

Fixpoint forEach {St A} (l : list A) (f : A -> M St unit) : M St unit :=
  match l with
  | [] => ret tt
  | x :: l' => f x ;; forEach l' f
  end.

(** [initContactForm] of the contact script; [requiredFields] of the page are
    the form's [[required]] descendants. *)
Definition initContactForm : M World unit :=
  form <- gets (fun w => querySelector w ".contact-form") ;;
  match form with
  | None => ret tt
  | Some contactForm =>
      fields <- gets requiredFields ;;
      forEach fields (fun field =>
        addEventListener (TElem field) "blur" (Declared (Other "validateField")) false ;;
        addEventListener (TElem field) "input" (Declared (Other "clearFieldError")) false) ;;
      addEventListener (TElem contactForm) "submit"
        (Declared (Other "handleFormSubmit")) false
  end.

(** [initApp] of the contact script. *)
Definition initApp_contact : M World Globals :=
  theme <- Theme.constructor ;;
  initContactForm ;;
  parallax <- init_parallax ;;
  ret {| themeController := Some theme; parallaxController := parallax |}.

End App.

(** ** Sample pages *)

Module Samples.

Definition blank : World :=
  {| pageYOffset := 0%float; innerWidth := 1280%Z; matchMedia := fun _ => false;
     querySelector := fun _ => None; getElementById := fun _ => None;
     requiredFields := []; dataTheme := None; transform := ∅;
     localStorage := Some ∅; listeners := []; frameCallbacks := [];
     fnCounter := 0; styleWrites := [] |}.

(** A page with the given scroll offset whose [.layer-back], [.layer-mid] and
    [.layer-front] elements are those given. *)
Definition page (y : float) (back mid front : option ElemId) : World :=
  {| pageYOffset := y; innerWidth := 1280%Z; matchMedia := fun _ => false;
     querySelector := fun sel =>
       if String.eqb sel ".layer-back" then back
       else if String.eqb sel ".layer-mid" then mid
       else if String.eqb sel ".layer-front" then front
       else None;
     getElementById := fun sel =>
       if String.eqb sel "theme-toggle" then Some 9 else None;
     requiredFields := []; dataTheme := None; transform := ∅;
     localStorage := Some ∅; listeners := []; frameCallbacks := [];
     fnCounter := 0; styleWrites := [] |}.

(** The same page seen by a visitor who asked for reduced motion, and on a
    narrow window. *)
Definition reduced_motion (w : World) : World :=
  {| pageYOffset := pageYOffset w; innerWidth := innerWidth w;
     matchMedia := fun q =>
       if String.eqb q "(prefers-reduced-motion: reduce)" then true
       else matchMedia w q;
     querySelector := querySelector w; getElementById := getElementById w;
     requiredFields := requiredFields w; dataTheme := dataTheme w;
     transform := transform w; localStorage := localStorage w;
     listeners := listeners w; frameCallbacks := frameCallbacks w;
     fnCounter := fnCounter w; styleWrites := styleWrites w |}.

Definition narrow (width : Z) (w : World) : World :=
  {| pageYOffset := pageYOffset w; innerWidth := width;
     matchMedia := matchMedia w;
     querySelector := querySelector w; getElementById := getElementById w;
     requiredFields := requiredFields w; dataTheme := dataTheme w;
     transform := transform w; localStorage := localStorage w;
     listeners := listeners w; frameCallbacks := frameCallbacks w;
     fnCounter := fnCounter w; styleWrites := styleWrites w |}.

(** The main page: three layers, scrolled to the top. *)
Definition three_layers : World := page 0 (Some 1) (Some 2) (Some 3).

End Samples.

(** ** Vocabulary of the properties *)

Module Spec.
Import Parallax.

(** [abs(current - lastApplied)], as the update routine computes it. *)
Definition scroll_delta (s : Sys) : float :=
  abs (pageYOffset (world s) - lastScrollY (this s)).

(** The style writes made between two states of the page. *)
Definition new_writes (before after : World) : list StyleWrite :=
  drop (length (styleWrites before)) (styleWrites after).

(** The style writes one execution of the update routine makes from [s]. *)
Definition writes_of_update (s : Sys) : list StyleWrite :=
  new_writes (world s) (world (snd (updateParallax s))).

(** What the specification asks for a layer at scroll offset [S]: nothing when
    the layer is absent, else one translation by [S] times the multiplier. *)
Definition proportional_write (S : float) (el : option ElemId) (k : float)
  : list StyleWrite :=
  match el with
  | Some e => [{| sw_elem := e; sw_value := Translate3d (S * k); sw_at := S |}]
  | None => []
  end.

Definition proportional_writes (S : float) (els : Elements) : list StyleWrite :=
  proportional_write S (layerBack els) (-0.2)%float ++
  proportional_write S (layerMid els) (-0.5)%float ++
  proportional_write S (layerFront els) (-0.8)%float.

(** [e] is one of the layers the controller found. *)
Definition present (c : Controller) (e : ElemId) : Prop :=
  layerBack (elements c) = Some e \/ layerMid (elements c) = Some e \/
  layerFront (elements c) = Some e.

(** The controller's scroll subscription: passive, on the window. *)
Definition subscription (c : Controller) : Listener :=
  {| l_target := TWindow; l_type := "scroll"; l_fn := handleScroll_fn c;
     l_passive := true |}.

Definition subscribed (s : Sys) : Prop :=
  scroll_listeners (world s) = [subscription (this s)].

(** The scroll offset of the most recent style write, [0] before any. *)
Definition baseline (w : World) : float :=
  match last (styleWrites w) with
  | Some sw => sw_at sw
  | None => 0%float
  end.

(** [w'] differs from [w] at most in the layers' styles (and their log). *)
Definition same_outside_styles (w w' : World) : Prop :=
  w' = {| pageYOffset := pageYOffset w; innerWidth := innerWidth w;
          matchMedia := matchMedia w;
          querySelector := querySelector w; getElementById := getElementById w;
          requiredFields := requiredFields w; dataTheme := dataTheme w;
          transform := transform w'; localStorage := localStorage w;
          listeners := listeners w; frameCallbacks := frameCallbacks w;
          fnCounter := fnCounter w; styleWrites := styleWrites w' |}.

(** The style store after the given writes, oldest first. *)
Definition store_after (ws : list StyleWrite) (t : gmap ElemId CssValue)
  : gmap ElemId CssValue :=
  foldl (fun t sw => <[sw_elem sw := sw_value sw]> t) t ws.

(** Events that can happen between two frames of a live controller. *)
Definition within_frame (e : Event) : bool :=
  match e with
  | ScrollTo _ | ScrollNotify | Listen _ _ _ => true
  | Frame | Destroy => false
  end.

Definition is_notify (e : Event) : bool :=
  match e with
  | ScrollNotify => true
  | _ => false
  end.

(** The layers [document.querySelector] finds on a page. *)
Definition found_layers (w : World) : Elements :=
  {| layerBack := querySelector w ".layer-back";
     layerMid := querySelector w ".layer-mid";
     layerFront := querySelector w ".layer-front" |}.

Definition has_layer (w : World) : bool :=
  truthy (layerBack (found_layers w) ||| layerMid (found_layers w)
            ||| layerFront (found_layers w)).

(** The controller as the constructor leaves it when it finds no layer. *)
Definition inert_controller : Controller :=
  {| elements := {| layerBack := None; layerMid := None; layerFront := None |};
     ticking := false;
     lastScrollY := 0%float;
     handleScroll_fn := Declared HandleScroll;
     updateParallax_fn := Declared UpdateParallax |}.

(** The state in which [init] calls the update routine, on a page with a
    layer: the methods are bound, the subscription is made. *)
Definition subscribed_state (w : World) : Sys :=
  let c :=
    {| elements := found_layers w; ticking := false; lastScrollY := 0%float;
       handleScroll_fn := Closure (fnCounter w) HandleScroll;
       updateParallax_fn := Closure (S (fnCounter w)) UpdateParallax |} in
  {| this := c;
     world :=
       set_listeners (listeners w ++ [subscription c])
         (set_fnCounter (S (S (fnCounter w))) w) |}.

(** What holds of every state of a controller's lifetime. *)
Record Inv (s : Sys) : Prop := {
  (* the frame queue holds the update routine once when the flag is set,
     and nothing otherwise *)
  inv_queue :
    frameCallbacks (world s) =
      if ticking (this s) then [updateParallax_fn (this s)] else [];
  (* nothing but the controller's own subscription listens to scrolling *)
  inv_sub : scroll_listeners (world s) = [] \/ subscribed s;
  (* with a layer, the two methods are bound copies *)
  inv_live :
    truthy (hasParallaxElements (this s)) = true ->
    (exists n, handleScroll_fn (this s) = Closure n HandleScroll) /\
    (exists n, updateParallax_fn (this s) = Closure n UpdateParallax);
  (* without any layer, the controller never subscribed *)
  inv_inert :
    truthy (hasParallaxElements (this s)) = false ->
    scroll_listeners (world s) = [] /\ ticking (this s) = false;
  (* the last applied offset is that of the last write *)
  inv_base : lastScrollY (this s) = baseline (world s)
}.

(** [w'] is [w] as far as the parallax effect can tell: same scroll
    listeners, frame queue, layer styles, offset, width, media queries and
    selector results. *)
Definition parallax_untouched (w w' : World) : Prop :=
  scroll_listeners w' = scroll_listeners w /\
  frameCallbacks w' = frameCallbacks w /\
  styleWrites w' = styleWrites w /\
  transform w' = transform w /\
  pageYOffset w' = pageYOffset w /\
  innerWidth w' = innerWidth w /\
  matchMedia w' = matchMedia w /\
  querySelector w' = querySelector w.

(** A page operation that returns normally and is of no concern to the
    parallax effect. *)
Definition harmless {A} (m : M World A) : Prop :=
  forall w, (exists a, fst (m w) = Ret a) /\ parallax_untouched w (snd (m w)).

(** The motion and width gate, for a run [r] of an [initApp] on page [w]: it
    returns normally; a controller exists only without the reduced-motion
    preference and on a window wider than 768; with the preference or on a
    narrower window there is none and the page is left untouched. *)
Definition gated (r : Outcome App.Globals * World) (w : World) : Prop :=
  exists g,
    fst r = Ret g /\
    (App.parallaxController g <> None ->
       Utils.prefersReducedMotion w = false /\ (768 < innerWidth w)%Z) /\
    (Utils.prefersReducedMotion w = true \/ (innerWidth w <= 768)%Z ->
       App.parallaxController g = None /\ parallax_untouched w (snd r)).

End Spec.
Import Parallax Spec Samples.

(** ** The lifetime of the [js/modules] controller *)

Module ModuleLifetime.

Inductive Event :=
| ScrollTo (y : float)
| ScrollNotify
| Frame
| Destroy.

Definition step (s : ParallaxModule.Sys) (e : Event) : ParallaxModule.Sys :=
  match e with
  | ScrollTo y =>
      {| ParallaxModule.this := ParallaxModule.this s;
         ParallaxModule.world := set_pageYOffset y (ParallaxModule.world s) |}
  | ScrollNotify => ParallaxModule.scroll_notify s
  | Frame => snd (ParallaxModule.frame s)
  | Destroy => snd (ParallaxModule.destroy s)
  end.

Definition run (s : ParallaxModule.Sys) (es : list Event) : ParallaxModule.Sys :=
  foldl step s es.

(** Every function object a listener holds was allocated before now. *)
Definition allocated_listeners (w : World) : Prop :=
  Forall (fun l => forall n c, l_fn l = Closure n c -> n < fnCounter w) (listeners w).

Definition reachable (s : ParallaxModule.Sys) : Prop :=
  exists d w es,
    Parallax.quiet w /\ allocated_listeners w /\
    s = run (snd (ParallaxModule.constructor d w)) es.

(** The instance seen as one of the inline class: same layers, flag and
    offset; the methods are the unbound prototype ones. *)
Definition as_inline (s : ParallaxModule.Sys) : Parallax.Sys :=
  {| Parallax.this :=
       {| Parallax.elements := ParallaxModule.elements (ParallaxModule.this s);
          Parallax.ticking := ParallaxModule.ticking (ParallaxModule.this s);
          Parallax.lastScrollY := ParallaxModule.lastScrollY (ParallaxModule.this s);
          Parallax.handleScroll_fn := Declared HandleScroll;
          Parallax.updateParallax_fn := Declared UpdateParallax |};
     Parallax.world := ParallaxModule.world s |}.

Definition has_layer_now (s : ParallaxModule.Sys) : bool :=
  truthy (ParallaxModule.hasParallaxElements (ParallaxModule.this s)).

Definition is_scroll_subscription (l : Listener) : Prop :=
  exists n, l = {| l_target := TWindow; l_type := "scroll";
                   l_fn := Closure n HandleScroll; l_passive := true |}.

(** What holds of every state of the module controller's lifetime. *)
Record Inv (s : ParallaxModule.Sys) : Prop := {
  minv_queue :
    if ParallaxModule.ticking (ParallaxModule.this s)
    then exists n, frameCallbacks (ParallaxModule.world s) = [Closure n UpdateParallax]
    else frameCallbacks (ParallaxModule.world s) = [];
  minv_sub :
    if has_layer_now s
    then exists l, scroll_listeners (ParallaxModule.world s) = [l] /\
                   is_scroll_subscription l
    else scroll_listeners (ParallaxModule.world s) = [] /\
         ParallaxModule.ticking (ParallaxModule.this s) = false;
  minv_alloc : allocated_listeners (ParallaxModule.world s)
}.

Definition within_frame (e : Event) : bool :=
  match e with
  | ScrollTo _ | ScrollNotify => true
  | Frame | Destroy => false
  end.

Definition is_notify (e : Event) : bool :=
  match e with
  | ScrollNotify => true
  | _ => false
  end.

(** The same instance with other options. *)
Definition with_options (o : ParallaxModule.Options) (s : ParallaxModule.Sys)
  : ParallaxModule.Sys :=
  {| ParallaxModule.this :=
       {| ParallaxModule.options := o;
          ParallaxModule.elements := ParallaxModule.elements (ParallaxModule.this s);
          ParallaxModule.ticking := ParallaxModule.ticking (ParallaxModule.this s);
          ParallaxModule.lastScrollY :=
            ParallaxModule.lastScrollY (ParallaxModule.this s) |};
     ParallaxModule.world := ParallaxModule.world s |}.

(** A page with a middle layer only, where nothing has happened yet. *)
Definition mid_page : World := Samples.page 0 None (Some 2) None.

End ModuleLifetime.

(** ** Page unload: [ThemeController.destroy] and [cleanup] *)

Module Cleanup.

(** [this.toggleTheme], which [ThemeController.destroy] hands to
    [removeEventListener]: the prototype method, which no statement
    overwrites. *)
Definition toggleTheme_method : FnObj :=
  Declared (Other "ThemeController.prototype.toggleTheme").

(** [ThemeController.destroy]. *)
Definition theme_destroy (c : Theme.Controller) : M World unit :=
  match Theme.button c with
  | Some b => removeEventListener (TElem b) "click" toggleTheme_method
  | None => ret tt
  end.

(** The script's two global variables and the page. *)
Record Running := {
  globals : App.Globals;
  the_page : World
}.

Definition on_page {A} (m : M World A) : M Running A :=
  fun r => let (a, w) := m (the_page r) in (a, {| globals := globals r; the_page := w |}).

Definition set_parallaxController (c : option Parallax.Controller) (r : Running)
  : Running :=
  {| globals := {| App.themeController := App.themeController (globals r);
                   App.parallaxController := c |};
     the_page := the_page r |}.

Definition set_themeController (c : option Theme.Controller) (r : Running) : Running :=
  {| globals := {| App.themeController := c;
                   App.parallaxController := App.parallaxController (globals r) |};
     the_page := the_page r |}.

(** [parallaxController.destroy()] on the instance the global refers to. *)
Definition destroy_parallax (c : Parallax.Controller) : M Running unit :=
  fun r =>
    let (a, s) := Parallax.destroy {| Parallax.this := c; Parallax.world := the_page r |} in
    (a, {| globals := globals r; the_page := Parallax.world s |}).

(** The first two statements of [cleanup], shared by both scripts. *)
Definition cleanup_controllers : M Running unit :=
  pc <- gets (fun r => App.parallaxController (globals r)) ;;
  match pc with
  | Some c => destroy_parallax c ;; modify (set_parallaxController None)
  | None => ret tt
  end ;;
  tc <- gets (fun r => App.themeController (globals r)) ;;
  match tc with
  | Some c => on_page (theme_destroy c) ;; modify (set_themeController None)
  | None => ret tt
  end.


(** [cleanup] of the contact script. *)
Definition cleanup_contact : M Running unit := cleanup_controllers.


Definition visit_contact (w : World) : option (Outcome unit * Running) :=
  match App.initApp_contact w with
  | (Ret g, w') => Some (cleanup_contact {| globals := g; the_page := w' |})
  | (Raise _, _) => None
  end.


(** The listeners [initContactForm] registers for the form [form] with the
    required fields [fields], in registration order. *)
Definition form_listeners (form : ElemId) (fields : list ElemId) : list Listener :=
  flat_map (fun field =>
    [ {| l_target := TElem field; l_type := "blur";
         l_fn := Declared (Other "validateField"); l_passive := false |};
      {| l_target := TElem field; l_type := "input";
         l_fn := Declared (Other "clearFieldError"); l_passive := false |} ]) fields ++
  [ {| l_target := TElem form; l_type := "submit";
       l_fn := Declared (Other "handleFormSubmit"); l_passive := false |} ].

Definition registered (t : Target) (ty : string) (f : FnObj) (w : World) : Prop :=
  Exists (same_listener t ty f) (listeners w).

End Cleanup.

(** ** Vocabulary for the form wiring *)

Module FormWiring.

(** What [initContactForm] does for one required field. *)
Definition wire_field (field : ElemId) : M World unit :=
  addEventListener (TElem field) "blur" (Declared (Other "validateField")) false ;;
  addEventListener (TElem field) "input" (Declared (Other "clearFieldError")) false.

Definition field_wired (field : ElemId) (w : World) : Prop :=
  Cleanup.registered (TElem field) "blur" (Declared (Other "validateField")) w /\
  Cleanup.registered (TElem field) "input" (Declared (Other "clearFieldError")) w.

End FormWiring.

(** ** [Utils.formatFormData] (contact script and [js/modules] utilities)

    The entries are those of a form without file inputs, so every value is a
    string.  [data[key] = value] on the literal object stores an own property,
    except for the key [__proto__]: there the assignment goes to the
    prototype setter, which ignores a string. *)

Module Forms.

Definition assign (data : gmap string string) (key value : string)
  : gmap string string :=
  if decide (key = "__proto__") then data else <[key := value]> data.

Definition formatFormData (entries : list (string * string)) : gmap string string :=
  foldl (fun data e => assign data (fst e) (snd e)) ∅ entries.

(** The value of the last entry named [key], if there is one. *)
Definition last_value (key : string) (entries : list (string * string))
  : option string :=
  snd <$> last (filter (fun e => fst e = key) entries).

End Forms.

(** ** [Utils.throttle] and [Utils.debounce] ([js/modules] utilities)

    Time is in whole milliseconds, and [Date.now()] and the timers share one
    clock that never runs backwards.  A call passes on its [this] and its
    arguments; [A] is the type of such a pair.  What [func] does is its own
    business: its runs are recorded, with the time of each.  The delays are
    whole numbers. *)

Module Timing.

(** The conversion the timer interface applies to a delay: to a signed
    32-bit integer, wrapping around, and then to 0 when negative. *)
Definition to_int32 (z : Z) : Z := ((z + 2 ^ 31) mod 2 ^ 32 - 2 ^ 31)%Z.
Definition timer_delay (d : Z) : Z := Z.max 0 (to_int32 d).

Section WithArgs.

Context {A : Type}.

Record Timer := {
  t_id : nat;
  t_due : Z;
  t_args : A
}.

Record Env := {
  now : Z;
  nextId : nat;
  pending : list Timer;        (* set, and neither fired nor cleared *)
  executed : list (Z * A)      (* the runs of [func], oldest first *)
}.

(** [setTimeout(callback, d)], the callback holding [a]. *)
Definition setTimeout (a : A) (d : Z) (e : Env) : nat * Env :=
  (nextId e,
   {| now := now e; nextId := S (nextId e);
      pending := pending e ++
        [{| t_id := nextId e; t_due := (now e + timer_delay d)%Z; t_args := a |}];
      executed := executed e |}).

(** [clearTimeout(id)]; [None] is [undefined]. *)
Definition clearTimeout (id : option nat) (e : Env) : Env :=
  match id with
  | None => e
  | Some i =>
      {| now := now e; nextId := nextId e;
         pending := filter (fun t => t_id t <> i) (pending e);
         executed := executed e |}
  end.

(** [func.apply(this, args)]. *)
Definition run_func (a : A) (e : Env) : Env :=
  {| now := now e; nextId := nextId e; pending := pending e;
     executed := executed e ++ [(now e, a)] |}.

(** The timer [id] comes due: it leaves the pending list and hands over what
    its callback holds.  [None] when there is no such timer or it is not due
    yet. *)
Definition take_due (id : nat) (e : Env) : option (A * Env) :=
  match filter (fun t => t_id t = id) (pending e) with
  | t :: _ =>
      if (t_due t <=? now e)%Z then
        Some (t_args t,
              {| now := now e; nextId := nextId e;
                 pending := filter (fun t => t_id t <> id) (pending e);
                 executed := executed e |})
      else None
  | [] => None
  end.

Definition wait (dt : Z) (e : Env) : Env :=
  {| now := (now e + Z.max 0 dt)%Z; nextId := nextId e; pending := pending e;
     executed := executed e |}.

Inductive Event :=
| Call (a : A)       (* the wrapper is called *)
| Wait (dt : Z)      (* time passes *)
| Fire (id : nat).   (* the event loop runs timer [id], if it is due *)


(** *** [debounce(func, delay)] *)

Record Debounced := {
  d_timeoutId : option nat;
  d_env : Env
}.

Definition debounce (e : Env) : Debounced :=
  {| d_timeoutId := None; d_env := e |}.

(** The returned function, called with [a]. *)
Definition debounced_call (delay : Z) (a : A) (s : Debounced) : Debounced :=
  let e1 := clearTimeout (d_timeoutId s) (d_env s) in
  let (id, e2) := setTimeout a delay e1 in
  {| d_timeoutId := Some id; d_env := e2 |}.

Definition debounced_step (delay : Z) (s : Debounced) (ev : Event) : Debounced :=
  match ev with
  | Call a => debounced_call delay a s
  | Wait dt => {| d_timeoutId := d_timeoutId s; d_env := wait dt (d_env s) |}
  | Fire id =>
      match take_due id (d_env s) with
      | Some (a, e) => {| d_timeoutId := d_timeoutId s; d_env := run_func a e |}
      | None => s
      end
  end.

Definition debounced_run (delay : Z) (s : Debounced) (evs : list Event) : Debounced :=
  foldl (debounced_step delay) s evs.

(** *** [throttle(func, delay)] *)

Record Throttled := {
  th_timeoutId : option nat;
  th_lastExecTime : Z;
  th_env : Env
}.

Definition throttle (e : Env) : Throttled :=
  {| th_timeoutId := None; th_lastExecTime := 0; th_env := e |}.

(** The returned function, called with [a]. *)
Definition throttled_call (delay : Z) (a : A) (s : Throttled) : Throttled :=
  let currentTime := now (th_env s) in
  if (currentTime - th_lastExecTime s >? delay)%Z then
    {| th_timeoutId := th_timeoutId s;
       th_lastExecTime := currentTime;
       th_env := run_func a (th_env s) |}
  else
    let e1 := clearTimeout (th_timeoutId s) (th_env s) in
    let (id, e2) :=
      setTimeout a (delay - (currentTime - th_lastExecTime s))%Z e1 in
    {| th_timeoutId := Some id; th_lastExecTime := th_lastExecTime s; th_env := e2 |}.

Definition throttled_step (delay : Z) (s : Throttled) (ev : Event) : Throttled :=
  match ev with
  | Call a => throttled_call delay a s
  | Wait dt =>
      {| th_timeoutId := th_timeoutId s; th_lastExecTime := th_lastExecTime s;
         th_env := wait dt (th_env s) |}
  | Fire id =>
      match take_due id (th_env s) with
      | Some (a, e) =>
          {| th_timeoutId := th_timeoutId s;
             th_lastExecTime := now e;
             th_env := run_func a e |}
      | None => s
      end
  end.

Definition throttled_run (delay : Z) (s : Throttled) (evs : list Event) : Throttled :=
  foldl (throttled_step delay) s evs.

(** An environment in which the wrapper's timers are all still to be set. *)
Definition idle (e : Env) : Prop := pending e = [].

(** The states a debounced function goes through. *)
Definition debounced_reachable (delay : Z) (s : Debounced) : Prop :=
  exists e evs, idle e /\ s = debounced_run delay (debounce e) evs.

(** The states a throttled function goes through, on a clock that started at
    the epoch. *)
Definition throttled_reachable (delay : Z) (s : Throttled) : Prop :=
  exists e evs, idle e /\ (0 <= now e)%Z /\ s = throttled_run delay (throttle e) evs.

(** At most one timer is pending, and it is the one the wrapper remembers. *)
Definition one_timer (id : option nat) (e : Env) : Prop :=
  pending e = [] \/ exists t, pending e = [t] /\ id = Some (t_id t).


(** What holds of a throttled function: one timer at most, and a last
    execution time that is not in the future. *)
Definition throttled_inv (s : Throttled) : Prop :=
  one_timer (th_timeoutId s) (th_env s) /\ (th_lastExecTime s <= now (th_env s))%Z.

End WithArgs.

Arguments Timer A : clear implicits.
Arguments Env A : clear implicits.
Arguments Event A : clear implicits.
Arguments Debounced A : clear implicits.
Arguments Throttled A : clear implicits.

(** A clock at 1000 ms, no timer set yet, nothing run yet. *)
Definition fresh_env : Env string :=
  {| now := 1000; nextId := 1; pending := []; executed := [] |}.

End Timing.

(** ** FAQ and team-bio toggles (main script)

    What these functions touch of the document: class lists, the text of the
    FAQ icons and the [aria-expanded] attribute.  The ids they compose are
    kept structured: [FaqAnswer i] is the id ['faq-answer-' + i], and so on.
    [index] is the whole number [handleDocumentClick] gets from [parseInt]. *)

Module Widgets.

Inductive DomId :=
| FaqAnswer (i : Z)
| FaqIcon (i : Z)
| BioPreview (member : string)
| BioFull (member : string).

Record Doc := {
  (* document.getElementById *)
  byId : DomId -> option ElemId;
  (* document.querySelector of the button whose aria-controls is faq-answer-i *)
  faqButton : Z -> option ElemId;
  (* document.querySelectorAll('.faq-answer'), in document order *)
  faqAnswers : list ElemId;
  (* el.querySelector('.read-more-link') *)
  readMoreLink : ElemId -> option ElemId;
  classList : gmap ElemId (gset string);
  textContent : gmap ElemId string;
  ariaExpanded : gmap ElemId string;
  (* console.warn, oldest first: the ids reported missing *)
  warnings : list DomId
}.

Definition classes (d : Doc) (e : ElemId) : gset string :=
  default ∅ (classList d !! e).

Definition has_class (cls : string) (e : ElemId) (d : Doc) : bool :=
  bool_decide (cls ∈ classes d e).

Definition set_classList (c : gmap ElemId (gset string)) (d : Doc) : Doc :=
  {| byId := byId d; faqButton := faqButton d; faqAnswers := faqAnswers d;
     readMoreLink := readMoreLink d; classList := c;
     textContent := textContent d; ariaExpanded := ariaExpanded d;
     warnings := warnings d |}.

Definition set_textContent (t : gmap ElemId string) (d : Doc) : Doc :=
  {| byId := byId d; faqButton := faqButton d; faqAnswers := faqAnswers d;
     readMoreLink := readMoreLink d; classList := classList d;
     textContent := t; ariaExpanded := ariaExpanded d;
     warnings := warnings d |}.

Definition set_ariaExpanded (a : gmap ElemId string) (d : Doc) : Doc :=
  {| byId := byId d; faqButton := faqButton d; faqAnswers := faqAnswers d;
     readMoreLink := readMoreLink d; classList := classList d;
     textContent := textContent d; ariaExpanded := a;
     warnings := warnings d |}.

Definition warn (id : DomId) (d : Doc) : Doc :=
  {| byId := byId d; faqButton := faqButton d; faqAnswers := faqAnswers d;
     readMoreLink := readMoreLink d; classList := classList d;
     textContent := textContent d; ariaExpanded := ariaExpanded d;
     warnings := warnings d ++ [id] |}.

Definition add_class (cls : string) (e : ElemId) (d : Doc) : Doc :=
  set_classList (<[e := {[cls]} ∪ classes d e]> (classList d)) d.

Definition remove_class (cls : string) (e : ElemId) (d : Doc) : Doc :=
  set_classList (<[e := classes d e ∖ {[cls]}]> (classList d)) d.

Definition set_text (t : string) (e : ElemId) (d : Doc) : Doc :=
  set_textContent (<[e := t]> (textContent d)) d.

Definition set_aria (v : string) (e : ElemId) (d : Doc) : Doc :=
  set_ariaExpanded (<[e := v]> (ariaExpanded d)) d.

(** A member access on a reference that may be [null]. *)
Definition on_element {A} (el : option ElemId) (f : ElemId -> M Doc A) : M Doc A :=
  match el with
  | Some e => f e
  | None => raise TypeError
  end.

Definition classList_add (cls : string) (el : option ElemId) : M Doc unit :=
  on_element el (fun e => modify (add_class cls e)).

Definition classList_remove (cls : string) (el : option ElemId) : M Doc unit :=
  on_element el (fun e => modify (remove_class cls e)).

Definition classList_contains (cls : string) (el : option ElemId) : M Doc bool :=
  on_element el (fun e => gets (has_class cls e)).

Definition textContent_assign (t : string) (el : option ElemId) : M Doc unit :=
  on_element el (fun e => modify (set_text t e)).

Definition set_aria_expanded (v : string) (el : option ElemId) : M Doc unit :=
  on_element el (fun e => modify (set_aria v e)).

(** [Utils.safeGetElementById]. *)
Definition safeGetElementById (id : DomId) : M Doc (option ElemId) :=
  element <- gets (fun d => byId d id) ;;
  when (negb (truthy element)) (modify (warn id)) ;;
  ret element.

(** [list.forEach((item, i) => ...)], counting from [i]. *)
Fixpoint forEach_from {St A} (i : nat) (l : list A) (f : A -> nat -> M St unit)
  : M St unit :=
  match l with
  | [] => ret tt
  | x :: l' => f x i ;; forEach_from (S i) l' f
  end.

(** The body of the loop that closes the other FAQs. *)
Definition close_other (index : Z) (item : ElemId) (i : nat) : M Doc unit :=
  when (negb (Z.of_nat i =? index)%Z)
    (classList_remove "open" (Some item) ;;
     otherIcon <- safeGetElementById (FaqIcon (Z.of_nat i)) ;;
     otherButton <- gets (fun d => faqButton d (Z.of_nat i)) ;;
     when (truthy otherIcon)
       (classList_remove "open" otherIcon ;;
        textContent_assign "+" otherIcon) ;;
     when (truthy otherButton)
       (set_aria_expanded "false" otherButton)).

Definition toggleFAQ (index : Z) : M Doc unit :=
  answer <- safeGetElementById (FaqAnswer index) ;;
  icon <- safeGetElementById (FaqIcon index) ;;
  button <- gets (fun d => faqButton d index) ;;
  if negb (truthy answer) || negb (truthy icon) || negb (truthy button) then ret tt
  else
    isOpen <- classList_contains "open" answer ;;
    if isOpen then
      classList_remove "open" answer ;;
      classList_remove "open" icon ;;
      textContent_assign "+" icon ;;
      set_aria_expanded "false" button
    else
      items <- gets faqAnswers ;;
      forEach_from 0 items (close_other index) ;;
      classList_add "open" answer ;;
      classList_add "open" icon ;;
      textContent_assign "−" icon ;;
      set_aria_expanded "true" button.

(** [el?.querySelector('.read-more-link')]. *)
Definition read_more_of (el : option ElemId) : M Doc (option ElemId) :=
  match el with
  | Some e => gets (fun d => readMoreLink d e)
  | None => ret None
  end.

Definition toggleBio (memberName : string) : M Doc unit :=
  preview <- safeGetElementById (BioPreview memberName) ;;
  full <- safeGetElementById (BioFull memberName) ;;
  previewButton <- read_more_of preview ;;
  fullButton <- read_more_of full ;;
  if negb (truthy preview) || negb (truthy full) then ret tt
  else
    hidden <- classList_contains "hide" preview ;;
    if hidden then
      classList_remove "hide" preview ;;
      classList_remove "show" full ;;
      when (truthy previewButton) (set_aria_expanded "false" previewButton) ;;
      when (truthy fullButton) (set_aria_expanded "true" fullButton)
    else
      classList_add "hide" preview ;;
      classList_add "show" full ;;
      when (truthy previewButton) (set_aria_expanded "true" previewButton) ;;
      when (truthy fullButton) (set_aria_expanded "false" fullButton).

(** A step that only takes classes away, and leaves the lookups alone. *)
Definition only_closes (d d' : Doc) : Prop :=
  (forall e cls, cls ∈ classes d' e -> cls ∈ classes d e) /\
  byId d' = byId d /\ faqButton d' = faqButton d /\ faqAnswers d' = faqAnswers d.

(** What [safeGetElementById] writes to the console for [id]. *)
Definition warned (id : DomId) (d : Doc) : list DomId :=
  match byId d id with Some _ => [] | None => [id] end.

(** The two [setAttribute('aria-expanded', ...)] of [toggleBio], each under
    its [if]: the preview's link first. *)
Definition bio_aria (pb fb : option ElemId) (vp vf : string) (d : Doc) : Doc :=
  let d1 := match pb with Some x => set_aria vp x d | None => d end in
  match fb with Some x => set_aria vf x d1 | None => d1 end.

(** A page with three FAQ entries, ids and positions in step, the second one
    open, and one team member. *)
Definition sample : Doc :=
  {| byId := fun id =>
       match id with
       | FaqAnswer 0%Z => Some 10 | FaqAnswer 1%Z => Some 11
       | FaqAnswer 2%Z => Some 12
       | FaqIcon 0%Z => Some 20 | FaqIcon 1%Z => Some 21 | FaqIcon 2%Z => Some 22
       | BioPreview "ada" => Some 40
       | BioFull "ada" => Some 41
       | _ => None
       end;
     faqButton := fun i =>
       match i with
       | 0%Z => Some 30 | 1%Z => Some 31 | 2%Z => Some 32 | _ => None
       end;
     faqAnswers := [10; 11; 12];
     readMoreLink := fun e => if decide (e = 40) then Some 42
                              else if decide (e = 41) then Some 43 else None;
     classList := {[ 11 := {[ "faq-answer"; "open" ]}; 21 := {[ "open" ]} ]};
     textContent := {[ 21 := "−" ]};
     ariaExpanded := {[ 31 := "true" ]};
     warnings := [] |}.

End Widgets.

(** ** The theme controller's handlers

    [toggleTheme] runs on a click of the button, through the arrow function
    [init] registered; the media-query handler runs when the system colour
    scheme changes.  Beyond the page of [World] they touch the button's class
    list and set timers. *)

Module ThemeLifetime.

Record Page := {
  world : World;
  classList : gmap ElemId (gset string);
  (* setTimeout(() => { this.button.classList.remove('toggling') }, 600):
     the button each pending callback will act on, oldest first.  All have
     the same delay, so they fire in this order. *)
  timeouts : list (option ElemId)
}.

Definition classes (p : Page) (e : ElemId) : gset string :=
  default ∅ (classList p !! e).

Definition on_world {A} (m : M World A) : M Page A :=
  fun p => let (a, w) := m (world p) in
           (a, {| world := w; classList := classList p; timeouts := timeouts p |}).

Definition set_classes (e : ElemId) (s : gset string) (p : Page) : Page :=
  {| world := world p; classList := <[e := s]> (classList p);
     timeouts := timeouts p |}.

Definition set_timeouts (t : list (option ElemId)) (p : Page) : Page :=
  {| world := world p; classList := classList p; timeouts := t |}.

(** [this.button.classList.add(cls)] and [.remove(cls)]. *)
Definition button_add (cls : string) (b : option ElemId) : M Page unit :=
  match b with
  | Some e => modify (fun p => set_classes e ({[cls]} ∪ classes p e) p)
  | None => raise TypeError
  end.

Definition button_remove (cls : string) (b : option ElemId) : M Page unit :=
  match b with
  | Some e => modify (fun p => set_classes e (classes p e ∖ {[cls]}) p)
  | None => raise TypeError
  end.

(** [theme === 'dark' ? 'light' : 'dark']. *)
Definition flip (theme : string) : string :=
  if String.eqb theme "dark" then "light" else "dark".

(** [ThemeController.toggleTheme]. *)
Definition toggleTheme (c : Theme.Controller) : M Page Theme.Controller :=
  button_add "toggling" (Theme.button c) ;;
  let newTheme := flip (Theme.currentTheme c) in
  c' <- on_world (Theme.applyTheme newTheme c) ;;
  modify (fun p => set_timeouts (timeouts p ++ [Theme.button c']) p) ;;
  ret c'.

(** The handler [init] registers on the media query; [matches] is
    [e.matches].  A stored theme counts when it is a non-empty string. *)
Definition on_scheme_change (matches : bool) (c : Theme.Controller)
  : M World Theme.Controller :=
  stored <- gets Theme.getStoredTheme ;;
  match stored with
  | Some (String _ _) => ret c
  | Some EmptyString | None =>
      let c1 := Theme.set_currentTheme (if matches then "dark" else "light") c in
      Theme.applyTheme (Theme.currentTheme c1) c1
  end.

Record Sys := {
  this : Theme.Controller;
  page : Page
}.

Inductive Event :=
| Click
| SchemeChange (matches : bool)
| Timeout.

#[global] Instance ThemeEvent_eq_dec : EqDecision Event.
Proof. solve_decision. Defined.

(** The state a handler leaves, whether it returned or threw. *)
Definition after (c : Theme.Controller) (r : Outcome Theme.Controller * Page) : Sys :=
  match r with
  | (Ret c', p) => {| this := c'; page := p |}
  | (Raise _, p) => {| this := c; page := p |}
  end.

Definition step (ev : Event) (s : Sys) : Sys :=
  match ev with
  | Click => after (this s) (toggleTheme (this s) (page s))
  | SchemeChange m =>
      after (this s) (on_world (on_scheme_change m (this s)) (page s))
  | Timeout =>
      match timeouts (page s) with
      | [] => s
      | b :: rest =>
          {| this := this s;
             page := snd (button_remove "toggling" b (set_timeouts rest (page s))) |}
      end
  end.

Definition run (s : Sys) (es : list Event) : Sys := foldl (fun s ev => step ev s) s es.

(** [new ThemeController()] on a page whose elements have the given classes
    and where no timer is pending. *)
Definition constructed (w : World) (cl : gmap ElemId (gset string)) : option Sys :=
  match Theme.constructor w with
  | (Ret c, w') =>
      Some {| this := c; page := {| world := w'; classList := cl; timeouts := [] |} |}
  | (Raise _, _) => None
  end.

(** A state of a controller that found its button. *)
Definition reachable (s : Sys) : Prop :=
  exists w cl b s0 es,
    getElementById w "theme-toggle" = Some b /\
    constructed w cl = Some s0 /\ s = run s0 es.

Definition clicks (es : list Event) : nat :=
  length (filter (fun ev => ev = Click) es).

(** What holds of a controller with a button all along. *)
Record Inv (s : Sys) : Prop := {
  inv_button : Theme.button (this s) <> None;
  inv_pending : Forall (fun b => b = Theme.button (this s)) (timeouts (page s));
  inv_attribute : dataTheme (world (page s)) = Some (Theme.currentTheme (this s));
  inv_named : Theme.currentTheme (this s) <> "";
  inv_stored : localStorage (world (page s)) <> None ->
               Theme.getStoredTheme (world (page s)) =
                 Some (Theme.currentTheme (this s))
}.

Definition with_toggle (stored : option string) (dark : bool) : World :=
  {| pageYOffset := 0%float; innerWidth := 1280%Z;
     matchMedia := fun _ => dark;
     querySelector := fun _ => None;
     getElementById := fun id => if String.eqb id "theme-toggle" then Some 9 else None;
     requiredFields := []; dataTheme := None; transform := ∅;
     localStorage := Some (match stored with
                           | Some t => {[ "theme" := t ]}
                           | None => ∅
                           end);
     listeners := []; frameCallbacks := [];
     fnCounter := 0; styleWrites := [] |}.

Definition without_storage (dark : bool) : World :=
  {| pageYOffset := 0%float; innerWidth := 1280%Z;
     matchMedia := fun _ => dark;
     querySelector := fun _ => None;
     getElementById := fun id => if String.eqb id "theme-toggle" then Some 9 else None;
     requiredFields := []; dataTheme := None; transform := ∅;
     localStorage := None;
     listeners := []; frameCallbacks := [];
     fnCounter := 0; styleWrites := [] |}.

End ThemeLifetime.

(** ** Field validation (contact script)

    [validateField] reads [field.value], a JavaScript string: a sequence of
    UTF-16 code units.  [trim] strips, and [\s] matches, the code units of
    ECMAScript's WhiteSpace and LineTerminator productions; the regular
    expression has no flag, so it works on code units and [^] and [$] are the
    two ends of the input. *)

Module Validation.

Definition CodeUnit := N.
Abbreviation JsString := (list CodeUnit).

Definition of_ascii (s : string) : JsString :=
  map Ascii.N_of_ascii (String.list_ascii_of_string s).

(** TAB, LF, VT, FF, CR, SP, NBSP, U+1680, U+2000..U+200A, LS, PS, U+202F,
    U+205F, U+3000, U+FEFF. *)
Definition is_space (c : CodeUnit) : bool :=
  ((c =? 9) || (c =? 10) || (c =? 11) || (c =? 12) || (c =? 13) || (c =? 32)
   || (c =? 160) || (c =? 5760) || ((8192 <=? c) && (c <=? 8202))
   || (c =? 8232) || (c =? 8233) || (c =? 8239) || (c =? 8287)
   || (c =? 12288) || (c =? 65279))%N.

Fixpoint trimStart (s : JsString) : JsString :=
  match s with
  | c :: s' => if is_space c then trimStart s' else s
  | [] => []
  end.

Definition trimEnd (s : JsString) : JsString := rev (trimStart (rev s)).

(** [String.prototype.trim]. *)
Definition trim (s : JsString) : JsString := trimEnd (trimStart s).

(** *** The regular expressions the script uses

    One alternative, a sequence of terms; a term is an assertion, an atom or
    an atom under the greedy [+]. *)

Inductive ClassItem :=
| Lit (c : CodeUnit)
| Space.                       (* \s *)

Inductive Atom :=
| Chr (c : CodeUnit)
| NoneOf (items : list ClassItem).   (* [^...] *)

Inductive Term :=
| Bol                          (* ^ *)
| Eol                          (* $ *)
| One (a : Atom)
| OneOrMore (a : Atom).        (* a+ *)

Definition item_matches (i : ClassItem) (c : CodeUnit) : bool :=
  match i with
  | Lit c' => (c =? c')%N
  | Space => is_space c
  end.

Definition atom_matches (a : Atom) (c : CodeUnit) : bool :=
  match a with
  | Chr c' => (c =? c')%N
  | NoneOf items => negb (existsb (fun i => item_matches i c) items)
  end.

(** Backtracking in continuation-passing style: [k] is the rest of the
    pattern.  Greedy: one more repetition is tried before [k]. *)
Fixpoint one_or_more (ok : CodeUnit -> bool) (k : nat -> JsString -> bool)
    (pos : nat) (rest : JsString) : bool :=
  match rest with
  | c :: r => ok c && (one_or_more ok k (S pos) r || k (S pos) r)
  | [] => false
  end.

(** Whether the terms match at position [pos], where [rest] is the input
    from [pos] on. *)
Fixpoint match_from (ts : list Term) (pos : nat) (rest : JsString) : bool :=
  match ts with
  | [] => true
  | Bol :: ts' => (pos =? 0)%nat && match_from ts' pos rest
  | Eol :: ts' => match rest with [] => match_from ts' pos rest | _ :: _ => false end
  | One a :: ts' =>
      match rest with
      | c :: r => atom_matches a c && match_from ts' (S pos) r
      | [] => false
      end
  | OneOrMore a :: ts' => one_or_more (atom_matches a) (match_from ts') pos rest
  end.

(** [regex.test(s)] of a regex without flags: a match starting at the first
    position that has one. *)
Fixpoint test_from (ts : list Term) (pos : nat) (rest : JsString) : bool :=
  match_from ts pos rest ||
  match rest with
  | _ :: r => test_from ts (S pos) r
  | [] => false
  end.

Definition test (ts : list Term) (s : JsString) : bool := test_from ts 0 s.

Definition at_sign : CodeUnit := 64%N.
Definition full_stop : CodeUnit := 46%N.

(** [/^[^\s@]+@[^\s@]+\.[^\s@]+$/] *)
Definition emailRegex : list Term :=
  [Bol; OneOrMore (NoneOf [Space; Lit at_sign]); One (Chr at_sign);
   OneOrMore (NoneOf [Space; Lit at_sign]); One (Chr full_stop);
   OneOrMore (NoneOf [Space; Lit at_sign]); Eol].

(** *** The fields of one parent

    [showFieldError] and [clearFieldError] look for the first [.error-message]
    below [field.parentNode].  The state is that of the fields that share one
    parent: their class lists, and the texts of the parent's [.error-message]
    descendants in document order.  A field taken from the form has a parent,
    so [field.parentNode] is not [null]. *)

Record Field := {
  elem : ElemId;
  value : JsString;
  required : bool;               (* field.hasAttribute('required') *)
  type : string                  (* field.type *)
}.

Record Group := {
  classList : gmap ElemId (gset string);
  messages : list string
}.

Definition classes (g : Group) (e : ElemId) : gset string :=
  default ∅ (classList g !! e).

Definition add_class (cls : string) (e : ElemId) (g : Group) : Group :=
  {| classList := <[e := {[cls]} ∪ classes g e]> (classList g);
     messages := messages g |}.

Definition remove_class (cls : string) (e : ElemId) (g : Group) : Group :=
  {| classList := <[e := classes g e ∖ {[cls]}]> (classList g);
     messages := messages g |}.

(** [existing = parent.querySelector('.error-message'); if (existing)
    existing.remove()]. *)
Definition remove_first_message (g : Group) : Group :=
  {| classList := classList g; messages := tail (messages g) |}.

(** [parent.appendChild(errorDiv)]: the new last child comes last in document
    order. *)
Definition append_message (m : string) (g : Group) : Group :=
  {| classList := classList g; messages := messages g ++ [m] |}.

Definition showFieldError (f : Field) (message : string) : M Group unit :=
  modify (add_class "error" (elem f)) ;;
  modify remove_first_message ;;
  modify (append_message message).

Definition clearFieldError (f : Field) : M Group unit :=
  modify (remove_class "error" (elem f)) ;;
  modify remove_first_message.

Definition is_empty (s : JsString) : bool :=
  match s with [] => true | _ :: _ => false end.

Definition validateField (f : Field) : M Group bool :=
  let value := trim (value f) in
  modify (remove_class "error" (elem f)) ;;
  if required f && is_empty value then
    showFieldError f "This field is required" ;; ret false
  else if String.eqb (type f) "email" && negb (is_empty value) then
    if negb (test emailRegex value) then
      showFieldError f "Please enter a valid email address" ;; ret false
    else ret true
  else ret true.

(** What the user does to the fields of the group. *)
Inductive Event :=
| Blur (f : Field)               (* runs validateField *)
| Input (f : Field).             (* runs clearFieldError *)

Definition step (ev : Event) (g : Group) : Group :=
  match ev with
  | Blur f => snd (validateField f g)
  | Input f => snd (clearFieldError f g)
  end.

Definition run (g : Group) (es : list Event) : Group :=
  foldl (fun g ev => step ev g) g es.

(** A code unit [[^\s@]] matches. *)
Definition plain (c : CodeUnit) : Prop := is_space c = false /\ c <> at_sign.

(** The strings of the shape [A@B.C], with [A], [B], [C] non-empty and free
    of white space and of [@]. *)
Definition email_shape (v : JsString) : Prop :=
  exists A B C,
    v = A ++ at_sign :: B ++ full_stop :: C /\
    A <> [] /\ B <> [] /\ C <> [] /\
    Forall plain A /\ Forall plain B /\ Forall plain C.

(** What [validateField] accepts. *)
Definition acceptable (f : Field) : Prop :=
  (required f = true -> trim (value f) <> []) /\
  (type f = "email" -> trim (value f) <> [] -> email_shape (trim (value f))).

(** The verdict of [validateField] and the message it shows on a refusal. *)
Definition accepts (f : Field) : bool :=
  let v := trim (value f) in
  negb (required f && is_empty v) &&
  negb (String.eqb (type f) "email" && negb (is_empty v) &&
        negb (test emailRegex v)).

Definition message_of (f : Field) : string :=
  if required f && is_empty (trim (value f)) then "This field is required"
  else "Please enter a valid email address".

(** Two fields below one parent: a required name and a required e-mail
    address. *)
Definition name_field (v : string) : Field :=
  {| elem := 1; value := of_ascii v; required := true; type := "text" |}.

Definition email_field (v : string) : Field :=
  {| elem := 2; value := of_ascii v; required := true; type := "email" |}.

Definition pristine : Group := {| classList := ∅; messages := [] |}.

End Validation.

(** * Properties *)

(** ** Comparison of binary64 values *)

Section FloatOrder.

Lemma SFcompare_Lt_Gt (x y : spec_float) :
  SFcompare x y = Some Lt -> SFcompare y x = Some Gt.
Proof.
  destruct x as [sx| sx | |sx mx ex], y as [sy|sy| |sy my ey]; simpl;
    try discriminate; try (destruct sx; discriminate);
    try (destruct sy; discriminate); try (destruct sx, sy; (discriminate || reflexivity)).
  destruct sx, sy; try discriminate; try reflexivity.
  - rewrite (Z.compare_antisym ex ey).
    destruct (ex ?= ey)%Z eqn:E; simpl; try discriminate; try reflexivity.
    pose proof (Pos.compare_cont_antisym mx my Eq) as A; simpl in A.
    rewrite <- A.
    destruct (Pos.compare_cont Eq mx my); simpl; (discriminate || reflexivity).
  - rewrite (Z.compare_antisym ex ey).
    destruct (ex ?= ey)%Z eqn:E; simpl; try discriminate; try reflexivity.
    pose proof (Pos.compare_cont_antisym mx my Eq) as A; simpl in A.
    rewrite <- A.
    destruct (Pos.compare_cont Eq mx my); simpl; (discriminate || reflexivity).
Qed.

(** [a <= x] excludes [x < a]; both are false when [x] is not a number. *)
Lemma leb_ltb_false (a x : float) :
  (a <=? x)%float = true -> (x <? a)%float = false.
Proof.
  rewrite leb_spec, ltb_spec. unfold SFleb, SFltb.
  destruct (SFcompare (Prim2SF x) (Prim2SF a)) as [[ | | ]|] eqn:E; try reflexivity.
  rewrite (SFcompare_Lt_Gt _ _ E). discriminate.
Qed.

End FloatOrder.

(** ** The update routine, in closed form *)

Section UpdateRoutine.

Lemma updateParallax_skip (s : Sys) :
  (scroll_delta s <? 1)%float = true ->
  updateParallax s = (Ret tt, {| this := set_ticking false (this s); world := world s |}).
Proof.
  intros H. unfold scroll_delta in H.
  unfold updateParallax, bind, gets. simpl. rewrite H. reflexivity.
Qed.

Lemma updateParallax_write (s : Sys) :
  (scroll_delta s <? 1)%float = false ->
  let S := pageYOffset (world s) in
  let s' := snd (updateParallax s) in
  fst (updateParallax s) = Ret tt /\
  this s' = set_ticking false (set_lastScrollY S (this s)) /\
  same_outside_styles (world s) (world s') /\
  styleWrites (world s') =
    styleWrites (world s) ++ proportional_writes S (elements (this s)) /\
  transform (world s') =
    store_after (proportional_writes S (elements (this s))) (transform (world s)).
Proof.
  intros H. unfold scroll_delta in H.
  destruct s as [[[b m f] t l hf uf] w]. destruct w. simpl in *.
  unfold updateParallax, bind, gets. simpl. rewrite H.
  unfold proportional_writes, same_outside_styles.
  destruct b, m, f; repeat split; simpl;
    rewrite <- ?app_assoc, ?app_nil_r; reflexivity.
Qed.

End UpdateRoutine.

Section UpdateFacts.

Lemma writes_of_update_eq (s : Sys) :
  writes_of_update s =
    if (scroll_delta s <? 1)%float then []
    else proportional_writes (pageYOffset (world s)) (elements (this s)).
Proof.
  unfold writes_of_update, new_writes.
  destruct (scroll_delta s <? 1)%float eqn:E.
  - rewrite (updateParallax_skip s E). simpl. apply drop_all.
  - destruct (updateParallax_write s E) as (_ & _ & _ & W & _).
    rewrite W. apply drop_app_length.
Qed.

Lemma styleWrites_update (s : Sys) :
  styleWrites (world (snd (updateParallax s))) =
    styleWrites (world s) ++ writes_of_update s.
Proof.
  rewrite writes_of_update_eq.
  destruct (scroll_delta s <? 1)%float eqn:E.
  - rewrite (updateParallax_skip s E). simpl. now rewrite app_nil_r.
  - now destruct (updateParallax_write s E) as (_ & _ & _ & W & _).
Qed.

Lemma updateParallax_returns (s : Sys) : fst (updateParallax s) = Ret tt.
Proof.
  destruct (scroll_delta s <? 1)%float eqn:E.
  - now rewrite (updateParallax_skip s E).
  - now destruct (updateParallax_write s E) as (R & _).
Qed.

Lemma proportional_writes_nonempty (S : float) (c : Controller) :
  truthy (hasParallaxElements c) = true ->
  proportional_writes S (elements c) <> [].
Proof.
  unfold hasParallaxElements, proportional_writes.
  destruct (elements c) as [[b|] [m|] [f|]]; simpl; discriminate.
Qed.

Lemma proportional_writes_present (S : float) (c : Controller) (sw : StyleWrite) :
  sw ∈ proportional_writes S (elements c) ->
  sw_at sw = S /\
  ((layerBack (elements c) = Some (sw_elem sw) /\ sw_value sw = Translate3d (S * -0.2)) \/
   (layerMid (elements c) = Some (sw_elem sw) /\ sw_value sw = Translate3d (S * -0.5)) \/
   (layerFront (elements c) = Some (sw_elem sw) /\ sw_value sw = Translate3d (S * -0.8))).
Proof.
  unfold proportional_writes.
  rewrite !elem_of_app.
  destruct (elements c) as [b m f]; simpl.
  intros [H | [H | H]].
  - destruct b; simpl in H; [apply list_elem_of_singleton in H; subst; simpl; auto | inversion H].
  - destruct m; simpl in H; [apply list_elem_of_singleton in H; subst; simpl; auto | inversion H].
  - destruct f; simpl in H; [apply list_elem_of_singleton in H; subst; simpl; auto 6 | inversion H].
Qed.

Lemma store_after_absent (ws : list StyleWrite) (t : gmap ElemId CssValue) (e : ElemId) :
  (forall sw, sw ∈ ws -> sw_elem sw <> e) ->
  store_after ws t !! e = t !! e.
Proof.
  revert t. induction ws as [|sw ws IH]; intros t H; simpl; [reflexivity|].
  unfold store_after in *. simpl. rewrite IH.
  - apply lookup_insert_ne. apply H. left.
  - intros sw' Hin. apply H. now right.
Qed.

Lemma update_writes_shape (s : Sys) (sw : StyleWrite) :
  sw ∈ writes_of_update s ->
  sw_at sw = pageYOffset (world s) /\
  ((layerBack (elements (this s)) = Some (sw_elem sw) /\
    sw_value sw = Translate3d (pageYOffset (world s) * -0.2)) \/
   (layerMid (elements (this s)) = Some (sw_elem sw) /\
    sw_value sw = Translate3d (pageYOffset (world s) * -0.5)) \/
   (layerFront (elements (this s)) = Some (sw_elem sw) /\
    sw_value sw = Translate3d (pageYOffset (world s) * -0.8))).
Proof.
  rewrite writes_of_update_eq.
  destruct (scroll_delta s <? 1)%float.
  - intros H. inversion H.
  - apply proportional_writes_present.
Qed.

Lemma update_store (s : Sys) :
  transform (world (snd (updateParallax s))) =
    store_after (writes_of_update s) (transform (world s)).
Proof.
  rewrite writes_of_update_eq.
  destruct (scroll_delta s <? 1)%float eqn:E.
  - now rewrite (updateParallax_skip s E).
  - now destruct (updateParallax_write s E) as (_ & _ & _ & _ & T).
Qed.

End UpdateFacts.

(** ** The threshold *)

(** C2. Whatever the current offset and the last applied one: when
    [abs(current - lastApplied) < 1] the update routine clears the pending
    flag and returns having written no layer (the page is left as it was);
    when [abs(current - lastApplied) >= 1] and some layer is present it
    writes layer transforms.  With [lastApplied = 100], offset 100.5 gives no
    write and offset 101 gives one. *)
Theorem update_threshold (s : Sys) :
  ((scroll_delta s <? 1)%float = true ->
     updateParallax s =
       (Ret tt, {| this := set_ticking false (this s); world := world s |}) /\
     writes_of_update s = [])
  /\ ((1 <=? scroll_delta s)%float = true ->
      truthy (hasParallaxElements (this s)) = true ->
      writes_of_update s <> [])
  /\ (lastScrollY (this s) = 100%float ->
      (pageYOffset (world s) = 100.5%float -> writes_of_update s = []) /\
      (pageYOffset (world s) = 101%float ->
       truthy (hasParallaxElements (this s)) = true ->
       writes_of_update s <> [])).
Proof.
  split; [|split].
  - intros E. split; [now apply updateParallax_skip|].
    rewrite writes_of_update_eq. now rewrite E.
  - intros E Hhas. rewrite writes_of_update_eq.
    rewrite (leb_ltb_false _ _ E). now apply proportional_writes_nonempty.
  - intros L. split.
    + intros P. rewrite writes_of_update_eq. unfold scroll_delta. rewrite L, P.
      reflexivity.
    + intros P Hhas. rewrite writes_of_update_eq. unfold scroll_delta.
      rewrite L, P.
      change (abs (101 - 100) <? 1)%float with false.
      now apply proportional_writes_nonempty.
Qed.

(** The two offsets of the threshold example, run on a page with three
    layers whose controller last applied offset 100. *)
Example threshold_example :
  let s0 := snd (constructor (page 100 (Some 1) (Some 2) (Some 3))) in
  lastScrollY (this s0) = 100%float /\
  writes_of_update (step s0 (ScrollTo 100.5)) = [] /\
  writes_of_update (step s0 (ScrollTo 101)) =
    [ {| sw_elem := 1; sw_value := Translate3d (-20.200000000000003); sw_at := 101 |};
      {| sw_elem := 2; sw_value := Translate3d (-50.5); sw_at := 101 |};
      {| sw_elem := 3; sw_value := Translate3d (-80.800000000000011); sw_at := 101 |} ].
Proof. vm_compute. repeat split. Qed.

(** ** Proportional offsets *)

(** C3. At every scroll offset [S] at which the update routine writes, the
    writes are exactly one translation per present layer, by [S] times the
    layer's multiplier: [-0.2] for the back layer, [-0.5] for the middle one,
    [-0.8] for the front one.  The multipliers are literals of the routine: the
    statement holds from every state, so nothing a run does changes them.
    The style store after the routine is the store before it, overwritten by
    these writes. *)
Theorem writes_are_proportional (s : Sys) :
  let S := pageYOffset (world s) in
  (writes_of_update s <> [] ->
     writes_of_update s = proportional_writes S (elements (this s)))
  /\ (forall sw, sw ∈ writes_of_update s ->
        sw_at sw = S /\
        ((layerBack (elements (this s)) = Some (sw_elem sw) /\
          sw_value sw = Translate3d (S * -0.2)) \/
         (layerMid (elements (this s)) = Some (sw_elem sw) /\
          sw_value sw = Translate3d (S * -0.5)) \/
         (layerFront (elements (this s)) = Some (sw_elem sw) /\
          sw_value sw = Translate3d (S * -0.8))))
  /\ transform (world (snd (updateParallax s))) =
       store_after (writes_of_update s) (transform (world s)).
Proof.
  intros S. rewrite writes_of_update_eq.
  destruct (scroll_delta s <? 1)%float eqn:E.
  - split; [congruence|]. split.
    + intros sw H. inversion H.
    + now rewrite (updateParallax_skip s E).
  - split; [reflexivity|]. split.
    + intros sw. apply proportional_writes_present.
    + now destruct (updateParallax_write s E) as (_ & _ & _ & _ & T).
Qed.

(** The offsets of the proportionality test, each reached by one scroll and
    one frame on a page with the three layers. *)
Example proportional_50 :
  styleWrites (world (run (snd (constructor (page 0 (Some 1) (Some 2) (Some 3))))
                          [ScrollTo 50; ScrollNotify; Frame])) =
    [ {| sw_elem := 1; sw_value := Translate3d (-10); sw_at := 50 |};
      {| sw_elem := 2; sw_value := Translate3d (-25); sw_at := 50 |};
      {| sw_elem := 3; sw_value := Translate3d (-40); sw_at := 50 |} ].
Proof. vm_compute. reflexivity. Qed.

Example proportional_1000 :
  styleWrites (world (run (snd (constructor (page 0 (Some 1) (Some 2) (Some 3))))
                          [ScrollTo 1000; ScrollNotify; Frame])) =
    [ {| sw_elem := 1; sw_value := Translate3d (-200); sw_at := 1000 |};
      {| sw_elem := 2; sw_value := Translate3d (-500); sw_at := 1000 |};
      {| sw_elem := 3; sw_value := Translate3d (-800); sw_at := 1000 |} ].
Proof. vm_compute. reflexivity. Qed.

Example proportional_minus_10 :
  styleWrites (world (run (snd (constructor (page 0 (Some 1) (Some 2) (Some 3))))
                          [ScrollTo (-10); ScrollNotify; Frame])) =
    [ {| sw_elem := 1; sw_value := Translate3d 2; sw_at := (-10)%float |};
      {| sw_elem := 2; sw_value := Translate3d 5; sw_at := (-10)%float |};
      {| sw_elem := 3; sw_value := Translate3d 8; sw_at := (-10)%float |} ].
Proof. vm_compute. reflexivity. Qed.

(** Offset 0 is written (as negative zero) when the last applied offset is at
    least one unit away from it. *)
Example proportional_0 :
  styleWrites (world (run (snd (constructor (page 50 (Some 1) (Some 2) (Some 3))))
                          [ScrollTo 0; ScrollNotify; Frame])) =
    [ {| sw_elem := 1; sw_value := Translate3d (-10); sw_at := 50 |};
      {| sw_elem := 2; sw_value := Translate3d (-25); sw_at := 50 |};
      {| sw_elem := 3; sw_value := Translate3d (-40); sw_at := 50 |};
      {| sw_elem := 1; sw_value := Translate3d (-0); sw_at := 0 |};
      {| sw_elem := 2; sw_value := Translate3d (-0); sw_at := 0 |};
      {| sw_elem := 3; sw_value := Translate3d (-0); sw_at := 0 |} ].
Proof. vm_compute. reflexivity. Qed.

(** ** Absent layers *)

(** Assigning through a [null] layer reference is what would throw. *)
Example unguarded_access_throws (v : CssValue) (w : World) :
  style_transform_assign None v w = (Raise TypeError, w).
Proof. reflexivity. Qed.

(** C7. Whichever layers are present, the update routine returns normally:
    no write goes through an absent reference.  Every write it makes is to a
    present layer, the style of any other element is left as it was, and with
    only the middle layer present a write pass is the single write of the
    middle layer's transform. *)
Theorem update_never_raises (s : Sys) :
  fst (updateParallax s) = Ret tt
  /\ (forall sw, sw ∈ writes_of_update s -> present (this s) (sw_elem sw))
  /\ (forall e, ~ present (this s) e ->
        transform (world (snd (updateParallax s))) !! e = transform (world s) !! e)
  /\ (forall e,
        layerBack (elements (this s)) = None ->
        layerMid (elements (this s)) = Some e ->
        layerFront (elements (this s)) = None ->
        (scroll_delta s <? 1)%float = false ->
        writes_of_update s =
          [{| sw_elem := e;
              sw_value := Translate3d (pageYOffset (world s) * -0.5);
              sw_at := pageYOffset (world s) |}]).
Proof.
  assert (P : forall sw, sw ∈ writes_of_update s -> present (this s) (sw_elem sw)).
  { intros sw H.
    destruct (update_writes_shape s sw H) as (_ & [[B _] | [[B _] | [B _]]]);
      unfold present; auto. }
  split; [apply updateParallax_returns|]. split; [exact P|]. split.
  - intros e He.
    rewrite update_store. apply store_after_absent.
    intros sw Hin Heq. apply He. rewrite <- Heq. now apply P.
  - intros e B Mi F E. rewrite writes_of_update_eq, E.
    unfold proportional_writes. now rewrite B, Mi, F.
Qed.

(** A page with only the middle layer: one scroll past the threshold and one
    frame write the middle layer and nothing else. *)
Example only_mid_layer :
  let s := run (snd (constructor (page 0 None (Some 2) None)))
               [ScrollTo 40; ScrollNotify; Frame] in
  styleWrites (world s) =
    [{| sw_elem := 2; sw_value := Translate3d (-20); sw_at := 40 |}] /\
  transform (world s) !! 2 = Some (Translate3d (-20)) /\
  transform (world s) !! 1 = None /\ transform (world s) !! 3 = None.
Proof. vm_compute. repeat split. Qed.

(** ** Construction *)

Section Construction.

Lemma hasParallaxElements_none (c : Controller) :
  truthy (hasParallaxElements c) = false ->
  elements c = {| layerBack := None; layerMid := None; layerFront := None |}.
Proof.
  unfold hasParallaxElements.
  destruct (elements c) as [[b|] [m|] [f|]]; simpl; (discriminate || reflexivity).
Qed.

Lemma no_scroll_listener_fresh (w : World) (f : FnObj) :
  scroll_listeners w = [] ->
  ~ Exists (same_listener TWindow "scroll" f) (listeners w).
Proof.
  intros Q H. apply Exists_exists in H as (l & Hin & (T & Ty & _)).
  assert (l ∈ scroll_listeners w) as C.
  { unfold scroll_listeners. apply list_elem_of_filter. auto. }
  rewrite Q in C. inversion C.
Qed.

Lemma addEventListener_scroll (w : World) (f : FnObj) (p : bool) :
  scroll_listeners w = [] ->
  addEventListener TWindow "scroll" f p w =
    (Ret tt,
     set_listeners
       (listeners w ++
          [{| l_target := TWindow; l_type := "scroll"; l_fn := f; l_passive := p |}]) w).
Proof.
  intros Q. unfold addEventListener, modify.
  destruct (decide _) as [E|_]; [|reflexivity].
  now apply no_scroll_listener_fresh in E.
Qed.

Lemma constructor_with_layer (w : World) :
  has_layer w = true -> scroll_listeners w = [] ->
  constructor w = updateParallax (subscribed_state w).
Proof.
  intros H Q. unfold constructor, init, bind at 1, gets at 1. simpl.
  unfold has_layer, found_layers in H. simpl in H.
  unfold hasParallaxElements. simpl. rewrite H. simpl.
  unfold bind, host, update_this, modify, gets, new_function.
  cbn -[addEventListener updateParallax].
  rewrite addEventListener_scroll by exact Q.
  reflexivity.
Qed.

Lemma constructor_without_layer (w : World) :
  has_layer w = false ->
  constructor w = (Ret tt, {| this := inert_controller; world := w |}).
Proof.
  intros H. unfold constructor, init, bind, gets. simpl.
  unfold has_layer, found_layers in H. simpl in H.
  unfold hasParallaxElements. simpl. rewrite H. simpl.
  unfold inert_controller, ret.
  destruct (querySelector w ".layer-back"), (querySelector w ".layer-mid"),
    (querySelector w ".layer-front"); simpl in H; try discriminate.
  reflexivity.
Qed.

End Construction.

(** C4. On a page where none of [.layer-back], [.layer-mid], [.layer-front]
    is found, constructing the controller returns normally and leaves the
    whole page as it was: no listener is added, no frame is requested, no
    style is written.  The only result is the controller with its fields at
    their initial values and its methods unbound. *)
Theorem inert_construction (w : World) :
  querySelector w ".layer-back" = None ->
  querySelector w ".layer-mid" = None ->
  querySelector w ".layer-front" = None ->
  constructor w = (Ret tt, {| this := inert_controller; world := w |}).
Proof.
  intros B Mi F. apply constructor_without_layer.
  unfold has_layer, found_layers. simpl. now rewrite B, Mi, F.
Qed.

Lemma inert_construction_witness :
  constructor blank = (Ret tt, {| this := inert_controller; world := blank |}).
Proof. apply (inert_construction blank); reflexivity. Defined.

Section UpdateFrame.

(** What one execution of the update routine leaves alone. *)
Lemma updateParallax_preserves (s : Sys) :
  let s' := snd (updateParallax s) in
  same_outside_styles (world s) (world s') /\
  elements (this s') = elements (this s) /\
  handleScroll_fn (this s') = handleScroll_fn (this s) /\
  updateParallax_fn (this s') = updateParallax_fn (this s) /\
  ticking (this s') = false /\
  lastScrollY (this s') =
    if (scroll_delta s <? 1)%float then lastScrollY (this s)
    else pageYOffset (world s).
Proof.
  simpl. destruct (scroll_delta s <? 1)%float eqn:E.
  - rewrite (updateParallax_skip s E). simpl. repeat split.
    unfold same_outside_styles. now destruct (world s).
  - destruct (updateParallax_write s E) as (_ & T & Sm & _).
    rewrite T. simpl. repeat split. exact Sm.
Qed.

Lemma same_outside_styles_listeners (w w' : World) :
  same_outside_styles w w' -> listeners w' = listeners w.
Proof. unfold same_outside_styles. intros ->. reflexivity. Qed.

Lemma same_outside_styles_frameCallbacks (w w' : World) :
  same_outside_styles w w' -> frameCallbacks w' = frameCallbacks w.
Proof. unfold same_outside_styles. intros ->. reflexivity. Qed.

Lemma same_outside_styles_scroll_listeners (w w' : World) :
  same_outside_styles w w' -> scroll_listeners w' = scroll_listeners w.
Proof.
  intros H. unfold scroll_listeners.
  now rewrite (same_outside_styles_listeners _ _ H).
Qed.

End UpdateFrame.

(** C5 (as the code has it). On a page with at least one layer, where nothing
    listens to scrolling yet, construction returns normally, adds the
    controller's passive scroll subscription and calls the update routine
    once.  That call goes through the threshold like any other, against a
    last applied offset of 0: when [abs(pageYOffset - 0) < 1] is false each
    present layer is written its translation proportional to the current
    offset and the offset is recorded; when it is true no layer is written
    and the last applied offset stays 0.  No frame is requested. *)
Theorem construction_with_layers (w : World) :
  has_layer w = true -> quiet w ->
  let s := snd (constructor w) in
  let skipped := (abs (pageYOffset w - 0) <? 1)%float in
  fst (constructor w) = Ret tt /\
  subscribed s /\
  listeners (world s) = listeners w ++ [subscription (this s)] /\
  ticking (this s) = false /\
  frameCallbacks (world s) = [] /\
  styleWrites (world s) =
    (if skipped then [] else proportional_writes (pageYOffset w) (found_layers w)) /\
  lastScrollY (this s) = (if skipped then 0%float else pageYOffset w).
Proof.
  intros H (Q & Fq & Wq). simpl.
  rewrite (constructor_with_layer w H Q).
  set (s1 := subscribed_state w).
  destruct (updateParallax_preserves s1) as (Sm & _ & Hf & _ & Tk & Ls).
  simpl in Sm, Hf, Tk, Ls.
  assert (Sub : subscription (this (snd (updateParallax s1))) = subscription (this s1)).
  { unfold subscription. now rewrite Hf. }
  split; [apply updateParallax_returns|].
  split; [|split; [|split; [exact Tk|split; [|split]]]].
  - unfold subscribed.
    rewrite (same_outside_styles_scroll_listeners _ _ Sm), Sub.
    unfold scroll_listeners. simpl. rewrite filter_app.
    fold (scroll_listeners w). rewrite Q. simpl.
    rewrite filter_cons_True by (split; reflexivity). reflexivity.
  - rewrite (same_outside_styles_listeners _ _ Sm), Sub. reflexivity.
  - rewrite (same_outside_styles_frameCallbacks _ _ Sm). simpl. exact Fq.
  - rewrite styleWrites_update, writes_of_update_eq. simpl. rewrite Wq. reflexivity.
  - exact Ls.
Qed.

Lemma construction_with_layers_witness :
  let w := page 120 (Some 1) None (Some 3) in
  let s := snd (constructor w) in
  subscribed s /\
  styleWrites (world s) =
    [ {| sw_elem := 1; sw_value := Translate3d (-24); sw_at := 120 |};
      {| sw_elem := 3; sw_value := Translate3d (-96); sw_at := 120 |} ].
Proof.
  pose proof (construction_with_layers (page 120 (Some 1) None (Some 3))
                eq_refl (conj eq_refl (conj eq_refl eq_refl)))
    as (_ & Sub & _ & _ & _ & W & _).
  split; [exact Sub | exact W].
Defined.

(** C5 as stated fails at the top of the page: the three layers are there,
    the subscription is made, and the initial call writes none of them. *)
Lemma initial_update_skipped_at_top :
  let w := page 0 (Some 1) (Some 2) (Some 3) in
  let s := snd (constructor w) in
  has_layer w = true /\
  scroll_listeners (world s) = [subscription (this s)] /\
  styleWrites (world s) = [] /\
  transform (world s) !! 1 = None /\
  transform (world s) !! 2 = None /\
  transform (world s) !! 3 = None.
Proof. vm_compute. repeat split. Qed.

(** The same at a fractional offset below one unit. *)
Example initial_update_skipped_below_one :
  let w := page 0.5 (Some 1) (Some 2) (Some 3) in
  styleWrites (world (snd (constructor w))) = [] /\
  lastScrollY (this (snd (constructor w))) = 0%float.
Proof. vm_compute. repeat split. Qed.

(** ** Teardown *)

Section Teardown.

Lemma destroy_eq (s : Sys) :
  destroy s =
    (Ret tt,
     {| this := this s;
        world :=
          set_listeners
            (filter (fun l => ~ same_listener TWindow "scroll" (handleScroll_fn (this s)) l)
                    (listeners (world s)))
            (world s) |}).
Proof. reflexivity. Qed.

End Teardown.

(** C8. [destroy] returns normally and changes nothing but the listener
    registry, from which it drops the controller's scroll subscription and no
    other listener: the controller's fields are as before, the frame queue is
    as before, so a frame update already requested still runs at the next
    frame, and the update routine run after [destroy] returns normally. *)
Theorem destroy_only_unsubscribes (s : Sys) :
  let s' := snd (destroy s) in
  fst (destroy s) = Ret tt
  /\ this s' = this s
  /\ world s' = set_listeners (listeners (world s')) (world s)
  /\ (forall l, l ∈ listeners (world s') <->
                l ∈ listeners (world s) /\
                ~ same_listener TWindow "scroll" (handleScroll_fn (this s)) l)
  /\ frameCallbacks (world s') = frameCallbacks (world s)
  /\ fst (frame s') = fst (frame s)
  /\ fst (updateParallax s') = Ret tt.
Proof.
  cbv zeta. rewrite destroy_eq. cbn [fst snd this world set_listeners listeners frameCallbacks frame].
  repeat split; try tauto.
  - apply list_elem_of_filter in H. tauto.
  - apply list_elem_of_filter in H. tauto.
  - intros (? & ?). apply list_elem_of_filter. tauto.
  - apply updateParallax_returns.
Qed.

(** A frame update requested before [destroy] still runs after it. *)
Example pending_update_survives_destroy :
  let s := run (snd (constructor (page 0 (Some 1) None None)))
               [ScrollTo 30; ScrollNotify; Destroy] in
  ticking (this s) = true /\
  fst (frame s) = [Closure 1 UpdateParallax] /\
  listeners (world s) = [] /\
  styleWrites (world (snd (frame s))) =
    [{| sw_elem := 1; sw_value := Translate3d (-6); sw_at := 30 |}].
Proof. vm_compute. repeat split. Qed.

(** ** The lifetime invariant *)

Section Lifetime.

Lemma scroll_listeners_set_listeners (ls : list Listener) (w : World) :
  scroll_listeners (set_listeners ls w) =
    filter (fun l => l_target l = TWindow /\ l_type l = "scroll") ls.
Proof. reflexivity. Qed.

(** Registering a listener for anything but scrolling of the window leaves
    the scroll listeners as they are. *)
Lemma addEventListener_elsewhere (t : Target) (ty : string) (f : FnObj) (p : bool)
    (w : World) :
  ~ (t = TWindow /\ ty = "scroll") ->
  let w' := snd (addEventListener t ty f p w) in
  fst (addEventListener t ty f p w) = Ret tt /\
  scroll_listeners w' = scroll_listeners w /\
  w' = set_listeners (listeners w') w.
Proof.
  intros N. unfold addEventListener, modify. simpl.
  destruct (decide _) as [_|_]; simpl.
  - repeat split. now destruct w.
  - repeat split. rewrite scroll_listeners_set_listeners, filter_app.
    rewrite filter_cons_False by (simpl; tauto).
    rewrite filter_nil, app_nil_r. reflexivity.
Qed.

Lemma scroll_listeners_after_remove (f : FnObj) (w : World) :
  scroll_listeners
    (set_listeners
       (filter (fun l => ~ same_listener TWindow "scroll" f l) (listeners w)) w) =
  filter (fun l => ~ same_listener TWindow "scroll" f l) (scroll_listeners w).
Proof.
  rewrite scroll_listeners_set_listeners. unfold scroll_listeners.
  rewrite !list_filter_filter. apply list_filter_iff. tauto.
Qed.

Lemma handleScroll_pending (s : Sys) :
  ticking (this s) = true -> handleScroll s = (Ret tt, s).
Proof.
  intros T. unfold handleScroll, bind, gets. simpl. now rewrite T.
Qed.

Lemma handleScroll_clear (s : Sys) :
  ticking (this s) = false ->
  handleScroll s =
    (Ret tt,
     {| this := set_ticking true (this s);
        world :=
          set_frameCallbacks (frameCallbacks (world s) ++ [updateParallax_fn (this s)])
            (world s) |}).
Proof.
  intros T. unfold handleScroll, bind, gets. simpl. now rewrite T.
Qed.

Lemma scroll_notify_unsubscribed (s : Sys) :
  scroll_listeners (world s) = [] -> scroll_notify s = s.
Proof. intros Q. unfold scroll_notify. now rewrite Q. Qed.

Lemma scroll_notify_subscribed (s : Sys) (n : nat) :
  subscribed s -> handleScroll_fn (this s) = Closure n HandleScroll ->
  scroll_notify s = snd (handleScroll s).
Proof.
  intros Sub F. unfold scroll_notify. rewrite Sub. simpl. now rewrite F.
Qed.

Lemma Inv_has_layer_of_subscribed (s : Sys) :
  Inv s -> subscribed s -> truthy (hasParallaxElements (this s)) = true.
Proof.
  intros I Sub. destruct (truthy (hasParallaxElements (this s))) eqn:E; [reflexivity|].
  destruct (inv_inert s I E) as (Q & _). rewrite Sub in Q. discriminate.
Qed.

Lemma Inv_has_layer_of_ticking (s : Sys) :
  Inv s -> ticking (this s) = true -> truthy (hasParallaxElements (this s)) = true.
Proof.
  intros I T. destruct (truthy (hasParallaxElements (this s))) eqn:E; [reflexivity|].
  destruct (inv_inert s I E) as (_ & F). congruence.
Qed.

Lemma baseline_after_writes (S : float) (c : Controller) (old : list StyleWrite) :
  truthy (hasParallaxElements c) = true ->
  match last (old ++ proportional_writes S (elements c)) with
  | Some sw => sw_at sw
  | None => 0%float
  end = S.
Proof.
  unfold hasParallaxElements, proportional_writes.
  destruct (elements c) as [[b|] [m|] [f|]]; simpl; try discriminate; intros _;
    rewrite last_app; reflexivity.
Qed.

(** Running the update routine with an empty frame queue, on a controller
    that has a layer, re-establishes the invariant. *)
Lemma Inv_after_update (s : Sys) :
  frameCallbacks (world s) = [] ->
  scroll_listeners (world s) = [] \/ subscribed s ->
  truthy (hasParallaxElements (this s)) = true ->
  (exists n, handleScroll_fn (this s) = Closure n HandleScroll) ->
  (exists n, updateParallax_fn (this s) = Closure n UpdateParallax) ->
  lastScrollY (this s) = baseline (world s) ->
  Inv (snd (updateParallax s)).
Proof.
  intros Fq Sub Has Hf Uf Base.
  destruct (updateParallax_preserves s) as (Sm & El & Hf' & Uf' & Tk & Ls).
  simpl in *.
  assert (HasE : hasParallaxElements (this (snd (updateParallax s))) =
                 hasParallaxElements (this s)).
  { unfold hasParallaxElements. now rewrite El. }
  split.
  - rewrite Tk, (same_outside_styles_frameCallbacks _ _ Sm). exact Fq.
  - unfold subscribed, subscription.
    rewrite (same_outside_styles_scroll_listeners _ _ Sm), Hf'. exact Sub.
  - intros _. rewrite Hf', Uf'. auto.
  - rewrite HasE, Has. discriminate.
  - rewrite Ls. unfold baseline. rewrite styleWrites_update, writes_of_update_eq.
    destruct (scroll_delta s <? 1)%float.
    + rewrite app_nil_r. exact Base.
    + symmetry. now apply baseline_after_writes.
Qed.

Lemma Inv_constructor (w : World) : quiet w -> Inv (snd (constructor w)).
Proof.
  intros (Q & Fq & Wq).
  destruct (has_layer w) eqn:H.
  - rewrite (constructor_with_layer w H Q).
    apply Inv_after_update; simpl.
    + exact Fq.
    + right. unfold subscribed. simpl.
      rewrite scroll_listeners_set_listeners, filter_app.
      fold (scroll_listeners w). rewrite Q. simpl.
      rewrite filter_cons_True by (split; reflexivity). reflexivity.
    + exact H.
    + eauto.
    + eauto.
    + unfold baseline. simpl. now rewrite Wq.
  - rewrite (constructor_without_layer w H). split; simpl; auto.
    + discriminate.
    + unfold baseline. now rewrite Wq.
Qed.

Lemma Inv_step (s : Sys) (e : Event) : Inv s -> Inv (step s e).
Proof.
  intros I. destruct e as [y| | | |t ty f]; cbn [step].
  - (* the offset changes *)
    destruct I as [Iq Is Il Ii Ib]. split; simpl; auto.
  - (* a scroll notification *)
    destruct (inv_sub s I) as [Q|Sub].
    + now rewrite scroll_notify_unsubscribed.
    + pose proof (Inv_has_layer_of_subscribed s I Sub) as Has.
      destruct (inv_live s I Has) as ((n & Hf) & Uf).
      rewrite (scroll_notify_subscribed s n Sub Hf).
      destruct (ticking (this s)) eqn:T.
      * now rewrite handleScroll_pending.
      * rewrite handleScroll_clear by exact T. simpl.
        pose proof (inv_queue s I) as Iq. rewrite T in Iq.
        destruct I as [_ Is Il Ii Ib]. split; simpl; auto.
        -- now rewrite Iq.
        -- intros E. unfold hasParallaxElements in *. simpl in E.
           rewrite Has in E. discriminate.
  - (* a frame *)
    unfold frame. simpl. rewrite (inv_queue s I).
    destruct (ticking (this s)) eqn:T; simpl.
    + pose proof (Inv_has_layer_of_ticking s I T) as Has.
      destruct (inv_live s I Has) as (Hf & (m & Uf)).
      unfold deliver. rewrite Uf. simpl.
      apply Inv_after_update; simpl; auto.
      * apply (inv_sub s I).
      * eauto.
      * apply (inv_base s I).
    + destruct I as [Iq Is Il Ii Ib]. split; simpl; auto.
      now rewrite T.
  - (* destroy *)
    rewrite destroy_eq. simpl.
    assert (Q : scroll_listeners
                  (set_listeners
                     (filter (fun l => ~ same_listener TWindow "scroll"
                                           (handleScroll_fn (this s)) l)
                             (listeners (world s))) (world s)) = []).
    { rewrite scroll_listeners_after_remove.
      destruct (inv_sub s I) as [E|E]; rewrite E; [reflexivity|].
      rewrite filter_cons_False; [reflexivity|].
      unfold same_listener, subscription. simpl. tauto. }
    destruct I as [Iq Is Il Ii Ib]. split; simpl; auto.
    intros E. split; [exact Q|]. now apply Ii.
  - (* a listener registered elsewhere *)
    destruct (decide _) as [_|N]; [exact I|].
    unfold host. simpl.
    destruct (addEventListener_elsewhere t ty f false (world s) N) as (_ & Sc & W).
    simpl in Sc, W.
    destruct (addEventListener t ty f false (world s)) as [r w'] eqn:A. simpl in *.
    destruct I as [Iq Is Il Ii Ib]. split; simpl; auto.
    + rewrite W. exact Iq.
    + unfold subscribed in *. simpl. rewrite Sc. exact Is.
    + rewrite Sc. exact Ii.
    + rewrite W. exact Ib.
Qed.

(** The layers are those found at construction: nothing re-queries them. *)
Lemma deliver_elements (s : Sys) (f : FnObj) :
  elements (this (deliver s f)) = elements (this s).
Proof.
  unfold deliver, invoke. destruct f as [[| |name]|n [| |name]]; try reflexivity.
  - unfold handleScroll, bind, gets. simpl. now destruct (ticking (this s)).
  - now destruct (updateParallax_preserves s) as (_ & E & _).
Qed.

Lemma foldl_deliver_elements (fs : list FnObj) (s : Sys) :
  elements (this (foldl deliver s fs)) = elements (this s).
Proof.
  revert s. induction fs as [|f fs IH]; intros s; simpl; [reflexivity|].
  rewrite IH. apply deliver_elements.
Qed.

Lemma step_elements (s : Sys) (e : Event) :
  elements (this (step s e)) = elements (this s).
Proof.
  destruct e as [y| | | |t ty f]; cbn [step].
  - reflexivity.
  - apply foldl_deliver_elements.
  - unfold frame. simpl. now rewrite foldl_deliver_elements.
  - now rewrite destroy_eq.
  - now destruct (decide _).
Qed.

Lemma run_elements (es : list Event) (s : Sys) :
  elements (this (run s es)) = elements (this s).
Proof.
  revert s. induction es as [|e es IH]; intros s; simpl; [reflexivity|].
  unfold run in IH. rewrite IH. apply step_elements.
Qed.

Lemma constructor_elements (w : World) :
  scroll_listeners w = [] -> elements (this (snd (constructor w))) = found_layers w.
Proof.
  intros Q. destruct (has_layer w) eqn:H.
  - rewrite (constructor_with_layer w H Q).
    now destruct (updateParallax_preserves (subscribed_state w)) as (_ & E & _).
  - rewrite (constructor_without_layer w H). simpl.
    unfold has_layer in H. unfold found_layers in *. simpl in H.
    destruct (querySelector w ".layer-back"), (querySelector w ".layer-mid"),
      (querySelector w ".layer-front"); simpl in H; (discriminate || reflexivity).
Qed.

Lemma Inv_run (es : list Event) (s : Sys) : Inv s -> Inv (run s es).
Proof.
  revert s. induction es as [|e es IH]; intros s I; simpl; [exact I|].
  apply IH. now apply Inv_step.
Qed.

Lemma reachable_Inv (s : Sys) : reachable s -> Inv s.
Proof.
  intros (w & es & Q & ->). apply Inv_run. now apply Inv_constructor.
Qed.

Lemma reachable_step (s : Sys) (e : Event) : reachable s -> reachable (step s e).
Proof.
  intros (w & es & Q & ->). exists w, (es ++ [e]). split; [exact Q|].
  unfold run. now rewrite foldl_app.
Qed.

End Lifetime.

(** ** Coalescing *)

Section Coalescing.

Lemma within_frame_step (s : Sys) (e : Event) :
  Inv s -> subscribed s -> within_frame e = true ->
  subscribed (step s e) /\
  updateParallax_fn (this (step s e)) = updateParallax_fn (this s) /\
  (ticking (this s) = true -> ticking (this (step s e)) = true) /\
  (is_notify e = true -> ticking (this (step s e)) = true).
Proof.
  intros I Sub W. destruct e as [y| | | |t ty f]; try discriminate; cbn [step].
  - repeat split; try tauto. discriminate.
  - pose proof (Inv_has_layer_of_subscribed s I Sub) as Has.
    destruct (inv_live s I Has) as ((n & Hf) & _).
    rewrite (scroll_notify_subscribed s n Sub Hf).
    destruct (ticking (this s)) eqn:T.
    + rewrite handleScroll_pending by exact T. simpl. tauto.
    + rewrite handleScroll_clear by exact T. simpl. repeat split; auto.
  - destruct (decide _) as [_|N]; [repeat split; (tauto || discriminate)|].
    unfold host. simpl.
    destruct (addEventListener_elsewhere t ty f false (world s) N) as (_ & Sc & _).
    simpl in Sc.
    destruct (addEventListener t ty f false (world s)) as [r w'] eqn:A. simpl in *.
    repeat split; try tauto; try discriminate.
    unfold subscribed in *. simpl. now rewrite Sc.
Qed.

Lemma within_frame_run (es : list Event) (s : Sys) :
  Inv s -> subscribed s -> forallb within_frame es = true ->
  subscribed (run s es) /\
  updateParallax_fn (this (run s es)) = updateParallax_fn (this s) /\
  (ticking (this s) = true \/ existsb is_notify es = true ->
   ticking (this (run s es)) = true).
Proof.
  revert s. induction es as [|e es IH]; intros s I Sub W; simpl in *.
  - repeat split; auto. intros [T|T]; [exact T|discriminate].
  - apply andb_true_iff in W as (We & Wes).
    destruct (within_frame_step s e I Sub We) as (Sub' & U' & T' & N').
    destruct (IH (step s e) (Inv_step s e I) Sub' Wes) as (Sub'' & U'' & T'').
    repeat split; [exact Sub''|congruence|].
    intros [T|T]; apply T''.
    + left. now apply T'.
    + apply orb_true_iff in T as [T|T]; [left; now apply N'|now right].
Qed.

End Coalescing.

(** C1. In every state of a controller's lifetime at most one update request
    is waiting in the frame queue.  The scroll handler, run while the pending
    flag is set, changes nothing; run while the flag is clear, it sets the
    flag and leaves exactly one request, for the update routine, in the
    queue; a notification on a subscribed controller is one run of the
    handler.  Every execution of the update routine leaves the flag clear.
    Hence, on a subscribed controller, after any burst of offset changes and
    at least one scroll notification, the next frame runs exactly one
    callback, the update routine, and leaves the queue empty and the flag
    clear. *)
Theorem at_most_one_update_outstanding (s : Sys) :
  reachable s ->
  length (frameCallbacks (world s)) <= 1
  /\ (ticking (this s) = true ->
        handleScroll s = (Ret tt, s) /\ scroll_notify s = s)
  /\ (ticking (this s) = false ->
        handleScroll s =
          (Ret tt,
           {| this := set_ticking true (this s);
              world := set_frameCallbacks [updateParallax_fn (this s)] (world s) |}) /\
        (subscribed s -> scroll_notify s = snd (handleScroll s)))
  /\ ticking (this (snd (updateParallax s))) = false
  /\ (subscribed s ->
      forall es, forallb within_frame es = true -> existsb is_notify es = true ->
        fst (frame (run s es)) = [updateParallax_fn (this s)] /\
        invoke (updateParallax_fn (this s)) = updateParallax /\
        frameCallbacks (world (snd (frame (run s es)))) = [] /\
        ticking (this (snd (frame (run s es)))) = false).
Proof.
  intros R. pose proof (reachable_Inv s R) as I.
  split; [|split; [|split; [|split]]].
  - rewrite (inv_queue s I). destruct (ticking (this s)); simpl; lia.
  - intros T. split; [now apply handleScroll_pending|].
    destruct (inv_sub s I) as [Q|Sub].
    + now apply scroll_notify_unsubscribed.
    + pose proof (Inv_has_layer_of_subscribed s I Sub) as Has.
      destruct (inv_live s I Has) as ((n & Hf) & _).
      rewrite (scroll_notify_subscribed s n Sub Hf).
      now rewrite handleScroll_pending.
  - intros T. split.
    + rewrite handleScroll_clear by exact T.
      pose proof (inv_queue s I) as Q. rewrite T in Q. now rewrite Q.
    + intros Sub.
      pose proof (Inv_has_layer_of_subscribed s I Sub) as Has.
      destruct (inv_live s I Has) as ((n & Hf) & _).
      apply (scroll_notify_subscribed s n Sub Hf).
  - now destruct (updateParallax_preserves s) as (_ & _ & _ & _ & Tk & _).
  - intros Sub es W N.
    destruct (within_frame_run es s I Sub W) as (Sub' & U' & T').
    pose proof (Inv_run es s I) as I'.
    pose proof (Inv_has_layer_of_subscribed s I Sub) as Has.
    destruct (inv_live s I Has) as (_ & (m & Uf)).
    assert (Tk : ticking (this (run s es)) = true) by (apply T'; now right).
    pose proof (inv_queue _ I') as Q. rewrite Tk, U' in Q.
    split; [exact Q|]. split; [now rewrite Uf|].
    pose proof (Inv_step _ Frame I') as I''. cbn [step] in I''.
    assert (Tk' : ticking (this (snd (frame (run s es)))) = false).
    { unfold frame. rewrite Q. simpl. unfold deliver. rewrite Uf. simpl.
      now destruct (updateParallax_preserves
                      {| this := this (run s es);
                         world := set_frameCallbacks [] (world (run s es)) |})
        as (_ & _ & _ & _ & Tk' & _). }
    split; [|exact Tk'].
    rewrite (inv_queue _ I''). now rewrite Tk'.
Qed.

Lemma constructed_three_layers_reachable :
  reachable (snd (constructor three_layers)).
Proof.
  exists three_layers, []. split; [repeat split|reflexivity].
Qed.

Lemma at_most_one_update_outstanding_witness :
  let s := snd (constructor three_layers) in
  length (frameCallbacks (world s)) <= 1 /\
  fst (frame (run s [ScrollNotify; ScrollTo 5; ScrollNotify; ScrollNotify; ScrollTo 9;
                     ScrollNotify])) = [Closure 1 UpdateParallax].
Proof.
  pose proof (at_most_one_update_outstanding (snd (constructor three_layers))
                constructed_three_layers_reachable)
    as (A & _ & _ & _ & B).
  split; [exact A|].
  destruct (B eq_refl
              [ScrollNotify; ScrollTo 5; ScrollNotify; ScrollNotify; ScrollTo 9; ScrollNotify]
              eq_refl eq_refl) as (C & _).
  exact C.
Defined.

(** Six events of one frame, four of them notifications: one update runs, at
    the offset the page has when the frame starts. *)
Example burst_runs_one_update :
  let s := run (snd (constructor three_layers))
               [ScrollNotify; ScrollTo 5; ScrollNotify; ScrollNotify; ScrollTo 9;
                ScrollNotify] in
  frameCallbacks (world s) = [Closure 1 UpdateParallax] /\
  styleWrites (world (snd (frame s))) =
    [ {| sw_elem := 1; sw_value := Translate3d (-1.8); sw_at := 9 |};
      {| sw_elem := 2; sw_value := Translate3d (-4.5); sw_at := 9 |};
      {| sw_elem := 3; sw_value := Translate3d (-7.2); sw_at := 9 |} ].
Proof. vm_compute. repeat split. Qed.

(** ** The baseline of the threshold *)

Section Baseline.

(** On a live controller with a pending update, the next frame is one
    execution of the update routine. *)
Lemma frame_pending (s : Sys) :
  Inv s -> ticking (this s) = true ->
  snd (frame s) =
    snd (updateParallax
           {| this := this s; world := set_frameCallbacks [] (world s) |}).
Proof.
  intros I T. unfold frame. rewrite (inv_queue s I), T. simpl.
  pose proof (Inv_has_layer_of_ticking s I T) as Has.
  destruct (inv_live s I Has) as (_ & (m & Uf)).
  unfold deliver. now rewrite Uf.
Qed.

End Baseline.

(** C10. In every state of a controller's lifetime [lastScrollY] is the
    scroll offset at which a layer transform was last written, and 0 when
    none was.  An update that the threshold skips writes nothing and leaves
    [lastScrollY] as it was.  So at a frame with a pending update the current
    offset is compared with the offset of the last write: below one unit from
    it nothing is written and the baseline stays; at one unit or more every
    present layer is written and the current offset becomes the baseline. *)
Theorem lastScrollY_is_last_written_offset (s : Sys) :
  reachable s ->
  lastScrollY (this s) = baseline (world s)
  /\ ((scroll_delta s <? 1)%float = true ->
        lastScrollY (this (snd (updateParallax s))) = lastScrollY (this s) /\
        writes_of_update s = [])
  /\ (ticking (this s) = true ->
      let d := abs (pageYOffset (world s) - baseline (world s)) in
      let s' := snd (frame s) in
      ((d <? 1)%float = true ->
         styleWrites (world s') = styleWrites (world s) /\
         baseline (world s') = baseline (world s) /\
         lastScrollY (this s') = lastScrollY (this s)) /\
      ((1 <=? d)%float = true ->
         new_writes (world s) (world s') =
           proportional_writes (pageYOffset (world s)) (elements (this s)) /\
         new_writes (world s) (world s') <> [] /\
         baseline (world s') = pageYOffset (world s) /\
         lastScrollY (this s') = pageYOffset (world s))).
Proof.
  intros R. pose proof (reachable_Inv s R) as I.
  pose proof (inv_base s I) as B.
  split; [exact B|]. split.
  - intros E. rewrite (updateParallax_skip s E). simpl. split; [reflexivity|].
    rewrite writes_of_update_eq. now rewrite E.
  - intros T. cbv zeta.
    pose proof (Inv_step s Frame I) as I'. cbn [step] in I'.
    pose proof (inv_base _ I') as B'.
    pose proof (Inv_has_layer_of_ticking s I T) as Has.
    rewrite (frame_pending s I T) in *.
    set (s0 := {| this := this s; world := set_frameCallbacks [] (world s) |}) in *.
    assert (D : scroll_delta s0 = abs (pageYOffset (world s) - baseline (world s))).
    { unfold scroll_delta, s0. simpl. now rewrite B. }
    destruct (updateParallax_preserves s0) as (_ & _ & _ & _ & _ & Ls).
    pose proof (styleWrites_update s0) as W.
    rewrite writes_of_update_eq in W. simpl in Ls, W. rewrite D in Ls, W.
    split.
    + intros E. rewrite E in Ls, W. rewrite app_nil_r in W.
      split; [exact W|]. split; [|exact Ls].
      rewrite <- B'. now rewrite Ls.
    + intros E. rewrite (leb_ltb_false _ _ E) in Ls, W.
      assert (N : new_writes (world s) (world (snd (updateParallax s0))) =
                  proportional_writes (pageYOffset (world s)) (elements (this s))).
      { unfold new_writes. rewrite W. apply drop_app_length. }
      split; [exact N|]. split.
      * rewrite N. now apply proportional_writes_nonempty.
      * split; [|exact Ls]. rewrite <- B'. exact Ls.
Qed.

Lemma lastScrollY_is_last_written_offset_witness :
  let s := run (snd (constructor three_layers)) [ScrollTo 40; ScrollNotify; Frame] in
  lastScrollY (this s) = 40%float /\ baseline (world s) = 40%float.
Proof.
  pose proof (lastScrollY_is_last_written_offset
                (run (snd (constructor three_layers)) [ScrollTo 40; ScrollNotify; Frame])
                (ex_intro _ three_layers
                   (ex_intro _ [ScrollTo 40; ScrollNotify; Frame]
                      (conj (conj eq_refl (conj eq_refl eq_refl)) eq_refl))))
    as (A & _).
  split; [|rewrite <- A]; vm_compute; reflexivity.
Defined.

(** Three steps of 0.4 each: none is a unit by itself, the third is more than
    a unit away from the last written offset, and is the one written. *)
Example sub_unit_steps_accumulate :
  let s0 := snd (constructor three_layers) in
  let s1 := run s0 [ScrollTo 0.4; ScrollNotify; Frame] in
  let s2 := run s1 [ScrollTo 0.8; ScrollNotify; Frame] in
  let s3 := run s2 [ScrollTo 1.2; ScrollNotify; Frame] in
  styleWrites (world s1) = [] /\ lastScrollY (this s1) = 0%float /\
  styleWrites (world s2) = [] /\ lastScrollY (this s2) = 0%float /\
  sw_at <$> styleWrites (world s3) = [1.2; 1.2; 1.2]%float /\
  lastScrollY (this s3) = 1.2%float.
Proof. vm_compute. repeat split. Qed.

(** ** Teardown and delivery *)

Section TeardownDelivery.

Lemma destroyed_step (s : Sys) (e : Event) :
  Inv s -> scroll_listeners (world s) = [] -> within_frame e = true ->
  scroll_listeners (world (step s e)) = [] /\
  this (step s e) = this s /\
  frameCallbacks (world (step s e)) = frameCallbacks (world s) /\
  styleWrites (world (step s e)) = styleWrites (world s).
Proof.
  intros I Q W. destruct e as [y| | | |t ty f]; try discriminate; cbn [step].
  - auto.
  - rewrite scroll_notify_unsubscribed by exact Q. auto.
  - destruct (decide _) as [_|N]; [auto|].
    unfold host. simpl.
    destruct (addEventListener_elsewhere t ty f false (world s) N) as (_ & Sc & Wd).
    simpl in Sc, Wd.
    destruct (addEventListener t ty f false (world s)) as [r w'] eqn:A. simpl in *.
    rewrite Sc, Wd. auto.
Qed.

Lemma destroyed_run (es : list Event) (d : Sys) :
  Inv d -> scroll_listeners (world d) = [] -> forallb within_frame es = true ->
  this (run d es) = this d /\
  frameCallbacks (world (run d es)) = frameCallbacks (world d) /\
  styleWrites (world (run d es)) = styleWrites (world d).
Proof.
  revert d. induction es as [|e es IH]; intros d I Q W; simpl in *; [auto|].
  apply andb_true_iff in W as (We & Wes).
  destruct (destroyed_step d e I Q We) as (Q' & T' & F' & S').
  rewrite <- T', <- F', <- S'.
  apply IH; auto. now apply Inv_step.
Qed.

(** The main and contact scripts' controller: once [destroy] has run, offset
    changes and scroll notifications reach nothing; the controller's fields,
    the frame queue and the layers' styles stay as [destroy] left them. *)
Lemma destroy_stops_delivery (s : Sys) (es : list Event) :
  reachable s -> forallb within_frame es = true ->
  let d := step s Destroy in
  scroll_listeners (world d) = [] /\
  this (run d es) = this s /\
  frameCallbacks (world (run d es)) = frameCallbacks (world s) /\
  styleWrites (world (run d es)) = styleWrites (world s).
Proof.
  intros R W. cbv zeta.
  pose proof (reachable_Inv _ (reachable_step s Destroy R)) as I.
  assert (Q : scroll_listeners (world (step s Destroy)) = []).
  { cbn [step]. rewrite destroy_eq. simpl.
    rewrite scroll_listeners_after_remove.
    destruct (inv_sub s (reachable_Inv s R)) as [E|E]; rewrite E; [reflexivity|].
    rewrite filter_cons_False; [reflexivity|].
    unfold same_listener, subscription. simpl. tauto. }
  split; [exact Q|].
  destruct (destroyed_run es _ I Q W) as (D1 & D2 & D3).
  rewrite D1, D2, D3. cbn [step]. rewrite destroy_eq. simpl. auto.
Qed.

(** The [js/modules] controller: the function object [destroy] hands to
    [removeEventListener] is a new one, so on a page whose listeners were
    all allocated earlier nothing is removed. *)
Lemma module_destroy_removes_nothing (s : ParallaxModule.Sys) :
  Forall (fun l => forall n c, l_fn l = Closure n c ->
                               n < fnCounter (ParallaxModule.world s))
         (listeners (ParallaxModule.world s)) ->
  listeners (ParallaxModule.world (snd (ParallaxModule.destroy s))) =
  listeners (ParallaxModule.world s).
Proof.
  intros F. unfold ParallaxModule.destroy, ParallaxModule.host, bind, new_function.
  simpl.
  induction (listeners (ParallaxModule.world s)) as [|l ls IH]; [reflexivity|].
  inversion F as [|? ? Hl Hls]; subst.
  rewrite filter_cons_True.
  - f_equal. now apply IH.
  - intros (_ & _ & E). specialize (Hl _ _ E). lia.
Qed.

End TeardownDelivery.

(** C6, on the [js/modules] controller.  Constructed on a page with only the
    middle layer and then destroyed, it is still subscribed: the next scroll
    notification sets the pending flag and requests a frame, and after a
    scroll that frame runs the update routine, which writes the layer. *)
Theorem module_destroy_keeps_subscription :
  let s0 := snd (ParallaxModule.constructor None (page 0 None (Some 2) None)) in
  let s1 := snd (ParallaxModule.destroy s0) in
  let s2 := ParallaxModule.scroll_notify
              {| ParallaxModule.this := ParallaxModule.this s1;
                 ParallaxModule.world := set_pageYOffset 300 (ParallaxModule.world s1) |} in
  let s3 := snd (ParallaxModule.frame s2) in
  fst (ParallaxModule.destroy s0) = Ret tt /\
  scroll_listeners (ParallaxModule.world s1) =
    [{| l_target := TWindow; l_type := "scroll"; l_fn := Closure 0 HandleScroll;
        l_passive := true |}] /\
  ParallaxModule.ticking (ParallaxModule.this s1) = false /\
  ParallaxModule.ticking (ParallaxModule.this s2) = true /\
  frameCallbacks (ParallaxModule.world s2) = [Closure 2 UpdateParallax] /\
  styleWrites (ParallaxModule.world s3) =
    [{| sw_elem := 2; sw_value := Translate3d (-150); sw_at := 300 |}].
Proof. vm_compute. repeat split. Qed.

(** The same page and the same events on the main script's controller: after
    [destroy] the notification reaches nothing. *)
Example inline_destroy_stops_delivery :
  let s0 := snd (constructor (page 0 None (Some 2) None)) in
  let s1 := run s0 [Destroy; ScrollTo 300; ScrollNotify] in
  scroll_listeners (world s1) = [] /\
  ticking (this s1) = false /\
  frameCallbacks (world s1) = [] /\
  styleWrites (world (snd (frame s1))) = [].
Proof. vm_compute. repeat split. Qed.

(** ** Application start *)

Section Gate.

Lemma parallax_untouched_refl (w : World) : parallax_untouched w w.
Proof. unfold parallax_untouched. auto 10. Qed.

Lemma parallax_untouched_trans (w1 w2 w3 : World) :
  parallax_untouched w1 w2 -> parallax_untouched w2 w3 -> parallax_untouched w1 w3.
Proof.
  unfold parallax_untouched.
  intros (A1 & A2 & A3 & A4 & A5 & A6 & A7 & A8) (B1 & B2 & B3 & B4 & B5 & B6 & B7 & B8).
  repeat split; congruence.
Qed.

Lemma harmless_ret {A} (a : A) : harmless (ret a).
Proof. intros w. split; [eauto|apply parallax_untouched_refl]. Qed.

Lemma harmless_gets {A} (f : World -> A) : harmless (gets f).
Proof. intros w. split; [simpl; eauto|apply parallax_untouched_refl]. Qed.

Lemma harmless_bind {A B} (m : M World A) (k : A -> M World B) :
  harmless m -> (forall a, harmless (k a)) -> harmless (bind m k).
Proof.
  intros Hm Hk w. destruct (Hm w) as ((a & Ra) & U). unfold bind.
  destruct (m w) as [r w1]. simpl in *. subst r.
  destruct (Hk a w1) as (Rb & U'). split; [exact Rb|].
  eapply parallax_untouched_trans; eauto.
Qed.

Lemma harmless_addEventListener (t : Target) (ty : string) (f : FnObj) (p : bool) :
  ~ (t = TWindow /\ ty = "scroll") -> harmless (addEventListener t ty f p).
Proof.
  intros N w.
  destruct (addEventListener_elsewhere t ty f p w N) as (R & Sc & W).
  split; [eauto|]. simpl in *.
  unfold parallax_untouched. rewrite Sc, W. simpl. auto 10.
Qed.

Lemma harmless_new_function (c : Code) : harmless (new_function c).
Proof.
  intros w. split; [simpl; eauto|]. unfold parallax_untouched. simpl. auto 10.
Qed.

Lemma harmless_forEach {A} (l : list A) (f : A -> M World unit) :
  (forall x, harmless (f x)) -> harmless (App.forEach l f).
Proof.
  intros Hf. induction l as [|x l IH]; simpl.
  - apply harmless_ret.
  - apply harmless_bind; auto.
Qed.

Lemma harmless_storeTheme (theme : string) : harmless (Theme.storeTheme theme).
Proof.
  intros w. split; [simpl; eauto|]. unfold Theme.storeTheme, modify. simpl.
  destruct (localStorage w); [|apply parallax_untouched_refl].
  unfold parallax_untouched. simpl. auto 10.
Qed.

Lemma harmless_applyTheme (theme : string) (c : Theme.Controller) :
  harmless (Theme.applyTheme theme c).
Proof.
  unfold Theme.applyTheme. apply harmless_bind.
  - intros w. split; [simpl; eauto|]. unfold parallax_untouched. simpl. auto 10.
  - intros _. apply harmless_bind; [apply harmless_storeTheme|].
    intros _. apply harmless_ret.
Qed.

Lemma harmless_bind_val {A B} (m : M World A) (k : A -> M World B) (P : A -> Prop) :
  harmless m -> (forall w a, fst (m w) = Ret a -> P a) ->
  (forall a, P a -> harmless (k a)) -> harmless (bind m k).
Proof.
  intros Hm HP Hk w. destruct (Hm w) as ((a & Ra) & U). unfold bind.
  pose proof (HP w a Ra) as Pa.
  destruct (m w) as [r w1]. simpl in *. subst r.
  destruct (Hk a Pa w1) as (Rb & U'). split; [exact Rb|].
  eapply parallax_untouched_trans; eauto.
Qed.

Lemma applyTheme_value (theme : string) (c : Theme.Controller) (w : World)
    (c' : Theme.Controller) :
  fst (Theme.applyTheme theme c w) = Ret c' -> Theme.button c' = Theme.button c.
Proof. simpl. intros E. injection E as <-. reflexivity. Qed.

Lemma harmless_Theme_init (c : Theme.Controller) : harmless (Theme.init c).
Proof.
  unfold Theme.init. destruct (Theme.button c) as [b|] eqn:B; simpl.
  - apply (harmless_bind_val _ _ (fun c' => Theme.button c' = Some b)).
    + apply harmless_applyTheme.
    + intros w c' E. rewrite <- B. now apply applyTheme_value in E.
    + intros c' B'. apply harmless_bind; [apply harmless_new_function|].
      intros click. rewrite B'.
      apply harmless_bind; [apply harmless_addEventListener; intros (? & _); discriminate|].
      intros _. apply harmless_bind; [apply harmless_new_function|]. intros chg.
      apply harmless_bind; [apply harmless_addEventListener; intros (? & _); discriminate|].
      intros _. apply harmless_ret.
  - apply harmless_ret.
Qed.

Lemma harmless_Theme_constructor : harmless Theme.constructor.
Proof.
  unfold Theme.constructor. apply harmless_bind; [apply harmless_gets|].
  intros w. apply harmless_Theme_init.
Qed.

Lemma harmless_initContactForm : harmless App.initContactForm.
Proof.
  unfold App.initContactForm. apply harmless_bind; [apply harmless_gets|].
  intros [form|]; [|apply harmless_ret].
  apply harmless_bind; [apply harmless_gets|]. intros fields.
  apply harmless_bind.
  - apply harmless_forEach. intros field.
    apply harmless_bind; [apply harmless_addEventListener; intros (? & _); discriminate|].
    intros _. apply harmless_addEventListener. intros (? & _). discriminate.
  - intros _. apply harmless_addEventListener. intros (? & _). discriminate.
Qed.

Lemma constructor_returns (w : World) : fst (constructor w) = Ret tt.
Proof.
  destruct (has_layer w) eqn:H.
  - unfold constructor, init, bind at 1, gets at 1. simpl.
    unfold has_layer, found_layers in H. simpl in H.
    unfold hasParallaxElements. simpl. rewrite H. simpl.
    unfold bind, host, update_this, modify, gets, new_function, addEventListener.
    cbn -[updateParallax].
    match goal with
    | |- context [updateParallax ?s] =>
        pose proof (updateParallax_returns s) as R;
        destruct (updateParallax s) as [r s']
    end.
    simpl in R. subst r. reflexivity.
  - now rewrite (constructor_without_layer w H).
Qed.

(** The guarded statement, by the value of its condition. *)
Lemma init_parallax_blocked (w : World) :
  negb (Utils.prefersReducedMotion w) && negb (Utils.isMobile w) = false ->
  App.init_parallax w = (Ret None, w).
Proof.
  intros G. unfold App.init_parallax, bind, gets. simpl. now rewrite G.
Qed.

Lemma init_parallax_allowed (w : World) :
  negb (Utils.prefersReducedMotion w) && negb (Utils.isMobile w) = true ->
  App.init_parallax w =
    (Ret (Some (this (snd (constructor w)))), world (snd (constructor w))).
Proof.
  intros G. unfold App.init_parallax, bind, gets. simpl. rewrite G.
  unfold App.new_ParallaxController.
  pose proof (constructor_returns w) as R.
  destruct (constructor w) as [r s]. simpl in *. subst r. reflexivity.
Qed.

Lemma gate_sound (w : World) :
  negb (Utils.prefersReducedMotion w) && negb (Utils.isMobile w) = true ->
  Utils.prefersReducedMotion w = false /\ (768 < innerWidth w)%Z.
Proof.
  intros G. apply andb_true_iff in G as (G1 & G2).
  apply negb_true_iff in G1, G2. split; [exact G1|].
  unfold Utils.isMobile in G2. apply Z.leb_gt in G2. exact G2.
Qed.

Lemma gate_complete (w : World) :
  Utils.prefersReducedMotion w = true \/ (innerWidth w <= 768)%Z ->
  negb (Utils.prefersReducedMotion w) && negb (Utils.isMobile w) = false.
Proof.
  intros [G|G].
  - now rewrite G.
  - unfold Utils.isMobile. apply Z.leb_le in G. rewrite G. apply andb_false_r.
Qed.

Lemma gate_transfer (w w1 : World) :
  parallax_untouched w w1 ->
  negb (Utils.prefersReducedMotion w1) && negb (Utils.isMobile w1) =
  negb (Utils.prefersReducedMotion w) && negb (Utils.isMobile w).
Proof.
  intros (_ & _ & _ & _ & _ & Wd & Mm & _).
  unfold Utils.prefersReducedMotion, Utils.isMobile. now rewrite Wd, Mm.
Qed.

End Gate.

(** C9. In both scripts [initApp] returns normally and constructs the
    parallax controller only when the visitor does not prefer reduced motion
    and the window is wider than 768 pixels.  With the preference set, or on
    a window of width 768 or less, no controller exists after [initApp], and
    the scroll listeners, the frame queue and the layers' styles are what they
    were before it. *)
Theorem parallax_is_gated (w : World) :
  gated (App.initApp w) w /\ gated (App.initApp_contact w) w.
Proof.
  split; unfold gated.
  - destruct (App.initApp w) as [r w'] eqn:E.
    unfold App.initApp in E. unfold bind at 1 in E.
    destruct (harmless_Theme_constructor w) as ((theme & Rt) & U1).
    destruct (Theme.constructor w) as [rt w1]. simpl in Rt, U1. subst rt.
    pose proof (gate_transfer w w1 U1) as Gt.
    unfold bind at 1 in E.
    pose proof (harmless_addEventListener TDocument "click"
                  (Declared (Other "handleDocumentClick")) false
                  ltac:(intros (? & _); discriminate)) as Hclick.
    destruct (negb (Utils.prefersReducedMotion w) && negb (Utils.isMobile w)) eqn:G.
    + rewrite (init_parallax_allowed w1 Gt) in E.
      unfold bind, addEventListener, modify, ret in E. simpl in E.
      injection E as <- <-.
      eexists. split; [reflexivity|]. simpl. split.
      * intros _. now apply gate_sound.
      * intros B. apply gate_complete in B. congruence.
    + rewrite (init_parallax_blocked w1 Gt) in E.
      unfold bind in E.
      destruct (Hclick w1) as ((u & Ra) & U2).
      destruct (addEventListener TDocument "click" _ false w1) as [ra w2].
      simpl in Ra, U2. subst ra. unfold ret in E. injection E as <- <-.
      eexists. split; [reflexivity|]. simpl. split.
      * intros N. now contradiction N.
      * intros _. split; [reflexivity|].
        eapply parallax_untouched_trans; eauto.
  - destruct (App.initApp_contact w) as [r w'] eqn:E.
    unfold App.initApp_contact in E. unfold bind at 1 in E.
    destruct (harmless_Theme_constructor w) as ((theme & Rt) & U1).
    destruct (Theme.constructor w) as [rt w1]. simpl in Rt, U1. subst rt.
    unfold bind at 1 in E.
    destruct (harmless_initContactForm w1) as ((u & Rf) & U2).
    destruct (App.initContactForm w1) as [rf w2]. simpl in Rf, U2. subst rf.
    assert (U : parallax_untouched w w2) by (eapply parallax_untouched_trans; eauto).
    pose proof (gate_transfer w w2 U) as Gt.
    unfold bind in E.
    destruct (negb (Utils.prefersReducedMotion w) && negb (Utils.isMobile w)) eqn:G.
    + rewrite (init_parallax_allowed w2 Gt) in E. unfold ret in E.
      injection E as <- <-.
      eexists. split; [reflexivity|]. simpl. split.
      * intros _. now apply gate_sound.
      * intros B. apply gate_complete in B. congruence.
    + rewrite (init_parallax_blocked w2 Gt) in E. unfold ret in E.
      injection E as <- <-.
      eexists. split; [reflexivity|]. simpl. split.
      * intros N. now contradiction N.
      * intros _. split; [reflexivity|exact U].
Qed.

(** The same page three times: wide with motion, with the reduced-motion
    preference, and 768 pixels wide. *)
Example gate_examples :
  let w := page 120 (Some 1) (Some 2) (Some 3) in
  (exists g, fst (App.initApp w) = Ret g /\ App.parallaxController g <> None) /\
  (exists g, fst (App.initApp (reduced_motion w)) = Ret g /\
             App.parallaxController g = None) /\
  (exists g, fst (App.initApp (narrow 768 w)) = Ret g /\
             App.parallaxController g = None) /\
  (exists g, fst (App.initApp_contact (narrow 769 w)) = Ret g /\
             App.parallaxController g <> None) /\
  styleWrites (snd (App.initApp (narrow 768 w))) = [] /\
  scroll_listeners (snd (App.initApp (narrow 768 w))) = [] /\
  length (styleWrites (snd (App.initApp w))) = 3 /\
  length (scroll_listeners (snd (App.initApp w))) = 1.
Proof.
  vm_compute. repeat split; try (eexists; split; [reflexivity|]); try reflexivity;
    discriminate.
Qed.

(** ** From application start to the controller's lifetime *)

Section StartToLifetime.

Lemma quiet_untouched (w w1 : World) :
  quiet w -> parallax_untouched w w1 -> quiet w1.
Proof.
  intros (Q & F & W) (U1 & U2 & U3 & _). unfold quiet. now rewrite U1, U2, U3.
Qed.

(** On a quiet page, a controller that [initApp] of either script constructs
    is in a state of the lifetime the properties above speak of. *)
Lemma initApp_reachable (w w' : World) (g : App.Globals) (c : Controller) :
  quiet w ->
  App.initApp w = (Ret g, w') \/ App.initApp_contact w = (Ret g, w') ->
  App.parallaxController g = Some c ->
  reachable {| this := c; world := w' |}.
Proof.
  intros Q [E|E] Pc.
  - unfold App.initApp in E. unfold bind at 1 in E.
    destruct (harmless_Theme_constructor w) as ((theme & Rt) & U1).
    destruct (Theme.constructor w) as [rt w1]. simpl in Rt, U1. subst rt.
    unfold bind at 1 in E.
    destruct (negb (Utils.prefersReducedMotion w1) && negb (Utils.isMobile w1)) eqn:G.
    + rewrite (init_parallax_allowed w1 G) in E.
      unfold bind, ret, addEventListener, modify in E. simpl in E.
      injection E as <- <-. simpl in Pc. injection Pc as <-.
      exists w1, [Listen TDocument "click" (Declared (Other "handleDocumentClick"))].
      split; [now apply (quiet_untouched w)|].
      reflexivity.
    + rewrite (init_parallax_blocked w1 G) in E. unfold bind, ret in E.
      destruct (addEventListener TDocument "click" _ false w1) as [ra w2].
      destruct ra; [|discriminate]. injection E as <- <-. discriminate.
  - unfold App.initApp_contact in E. unfold bind at 1 in E.
    destruct (harmless_Theme_constructor w) as ((theme & Rt) & U1).
    destruct (Theme.constructor w) as [rt w1]. simpl in Rt, U1. subst rt.
    unfold bind at 1 in E.
    destruct (harmless_initContactForm w1) as ((u & Rf) & U2).
    destruct (App.initContactForm w1) as [rf w2]. simpl in Rf, U2. subst rf.
    unfold bind in E.
    destruct (negb (Utils.prefersReducedMotion w2) && negb (Utils.isMobile w2)) eqn:G.
    + rewrite (init_parallax_allowed w2 G) in E. unfold ret in E.
      injection E as <- <-. simpl in Pc. injection Pc as <-.
      exists w2, []. split.
      * apply (quiet_untouched w1); [|exact U2]. now apply (quiet_untouched w).
      * simpl. now destruct (snd (constructor w2)).
    + rewrite (init_parallax_blocked w2 G) in E. unfold ret in E.
      injection E as <- <-. discriminate.
Qed.

End StartToLifetime.

(** * Further properties of the scripts *)

(** ** The controller of the main and contact scripts *)

Section ControllerMore.

Lemma within_frame_step_styles (s : Sys) (e : Event) :
  Inv s -> within_frame e = true ->
  styleWrites (world (step s e)) = styleWrites (world s) /\
  transform (world (step s e)) = transform (world s) /\
  lastScrollY (this (step s e)) = lastScrollY (this s).
Proof.
  intros I W. destruct e as [y| | | |t ty f]; try discriminate; cbn [step].
  - auto.
  - destruct (inv_sub s I) as [Q|Sub].
    + rewrite scroll_notify_unsubscribed by exact Q. auto.
    + pose proof (Inv_has_layer_of_subscribed s I Sub) as Has.
      destruct (inv_live s I Has) as ((n & Hf) & _).
      rewrite (scroll_notify_subscribed s n Sub Hf).
      destruct (ticking (this s)) eqn:T.
      * rewrite handleScroll_pending by exact T. auto.
      * rewrite handleScroll_clear by exact T. auto.
  - destruct (decide _) as [_|N]; [auto|].
    unfold host. simpl.
    destruct (addEventListener_elsewhere t ty f false (world s) N) as (_ & _ & Wd).
    simpl in Wd.
    destruct (addEventListener t ty f false (world s)) as [r w'] eqn:A. simpl in *.
    rewrite Wd. auto.
Qed.

End ControllerMore.

(** X1. Layer styles are written by frames and by construction only: in a
    state of a controller's lifetime, no sequence of offset changes, scroll
    notifications and foreign listener registrations writes a style or moves
    the last applied offset. *)
Theorem scrolling_alone_never_writes (s : Sys) (es : list Event) :
  reachable s -> forallb within_frame es = true ->
  styleWrites (world (run s es)) = styleWrites (world s) /\
  transform (world (run s es)) = transform (world s) /\
  lastScrollY (this (run s es)) = lastScrollY (this s).
Proof.
  intros R W. pose proof (reachable_Inv s R) as I. clear R.
  revert s I. induction es as [|e es IH]; intros s I; simpl in *; [auto|].
  apply andb_true_iff in W as (We & Wes).
  destruct (within_frame_step_styles s e I We) as (A & B & C).
  destruct (IH Wes (step s e) (Inv_step s e I)) as (A' & B' & C').
  unfold run in *. rewrite A', B', C'. auto.
Qed.

Lemma scrolling_alone_never_writes_witness :
  styleWrites
    (world (run (snd (constructor three_layers))
                [ScrollTo 500; ScrollNotify; ScrollTo 900; ScrollNotify])) = [].
Proof.
  destruct (scrolling_alone_never_writes (snd (constructor three_layers))
              [ScrollTo 500; ScrollNotify; ScrollTo 900; ScrollNotify]
              constructed_three_layers_reachable eq_refl) as (A & _).
  exact A.
Defined.

(** X2. A frame that finds no update requested runs nothing and leaves the
    controller and the page exactly as they were. *)
Theorem idle_frame_changes_nothing (s : Sys) :
  reachable s -> ticking (this s) = false -> frame s = ([], s).
Proof.
  intros R T. pose proof (inv_queue s (reachable_Inv s R)) as Q.
  rewrite T in Q. unfold frame. rewrite Q. simpl.
  destruct s as [c w]. destruct w. simpl in *. subst. reflexivity.
Qed.

Lemma idle_frame_changes_nothing_witness :
  frame (snd (constructor three_layers)) = ([], snd (constructor three_layers)).
Proof.
  apply (idle_frame_changes_nothing (snd (constructor three_layers))
           constructed_three_layers_reachable eq_refl).
Defined.

(** X3. The layers a controller works on are the ones [querySelector] found
    when it was constructed; no event of its lifetime changes them. *)
Theorem layers_fixed_at_construction (w : World) (es : list Event) :
  scroll_listeners w = [] ->
  elements (this (run (snd (constructor w)) es)) = found_layers w.
Proof.
  intros Q. rewrite run_elements. now apply constructor_elements.
Qed.

Lemma layers_fixed_at_construction_witness :
  elements (this (run (snd (constructor (page 0 (Some 1) None (Some 3))))
                      [ScrollTo 70; ScrollNotify; Frame; Destroy])) =
    {| layerBack := Some 1; layerMid := None; layerFront := Some 3 |}.
Proof.
  apply (layers_fixed_at_construction (page 0 (Some 1) None (Some 3))
           [ScrollTo 70; ScrollNotify; Frame; Destroy] eq_refl).
Defined.

(** X4. In every state of a controller's lifetime the window has at most one
    scroll listener, the controller's own bound handler, and it is passive:
    scrolling never adds listeners. *)
Theorem at_most_one_passive_scroll_listener (s : Sys) :
  reachable s ->
  length (scroll_listeners (world s)) <= 1 /\
  (forall l, l ∈ scroll_listeners (world s) ->
     l_fn l = handleScroll_fn (this s) /\ l_passive l = true /\
     exists n, l_fn l = Closure n HandleScroll).
Proof.
  intros R. pose proof (reachable_Inv s R) as I.
  destruct (inv_sub s I) as [Q|Sub].
  - rewrite Q. split; [simpl; lia|]. intros l H. inversion H.
  - pose proof (Inv_has_layer_of_subscribed s I Sub) as Has.
    destruct (inv_live s I Has) as ((n & Hf) & _).
    rewrite Sub. split; [simpl; lia|].
    intros l H. apply list_elem_of_singleton in H. subst l. simpl. eauto.
Qed.

Lemma at_most_one_passive_scroll_listener_witness :
  length (scroll_listeners
            (world (run (snd (constructor three_layers))
                        [ScrollNotify; ScrollNotify; Frame; ScrollNotify]))) <= 1.
Proof.
  destruct (at_most_one_passive_scroll_listener
              (run (snd (constructor three_layers))
                   [ScrollNotify; ScrollNotify; Frame; ScrollNotify])
              (ex_intro _ three_layers
                 (ex_intro _ [ScrollNotify; ScrollNotify; Frame; ScrollNotify]
                    (conj (conj eq_refl (conj eq_refl eq_refl)) eq_refl))))
    as (A & _).
  exact A.
Defined.

(** X5. Teardown undoes the subscription and nothing else: on a page where
    nothing listened to scrolling, constructing a controller and destroying
    it leaves the listener registry as it was before construction. *)
Theorem construct_then_destroy_restores_listeners (w : World) :
  scroll_listeners w = [] ->
  listeners (world (snd (destroy (snd (constructor w))))) = listeners w.
Proof.
  intros Q. rewrite destroy_eq. simpl.
  assert (K : forall f, filter (fun l => ~ same_listener TWindow "scroll" f l)
                               (listeners w) = listeners w).
  { intros f. pose proof (no_scroll_listener_fresh w f Q) as N.
    induction (listeners w) as [|l ls IH]; [reflexivity|].
    rewrite filter_cons_True.
    - f_equal. apply IH. intros E. apply N. now right.
    - intros E. apply N. now left. }
  destruct (has_layer w) eqn:H.
  - rewrite (constructor_with_layer w H Q).
    destruct (updateParallax_preserves (subscribed_state w)) as (Sm & _ & Hf & _).
    simpl in Sm, Hf.
    rewrite (same_outside_styles_listeners _ _ Sm), Hf. simpl.
    rewrite filter_app, K. rewrite filter_cons_False; [apply app_nil_r|].
    unfold same_listener, subscription. simpl. tauto.
  - rewrite (constructor_without_layer w H). simpl. apply K.
Qed.

Lemma construct_then_destroy_restores_listeners_witness :
  listeners (world (snd (destroy (snd (constructor three_layers))))) = [].
Proof.
  apply (construct_then_destroy_restores_listeners three_layers eq_refl).
Defined.

(** X6. For the class of the main and contact scripts, teardown stops
    delivery: once [destroy] has run in a state of the lifetime, offset
    changes and scroll notifications reach nothing; the controller's fields,
    the frame queue and the style log stay as they were, and no scroll
    listener is left. *)
Theorem inline_destroy_cancels_subscription (s : Sys) (es : list Event) :
  reachable s -> forallb within_frame es = true ->
  scroll_listeners (world (step s Destroy)) = [] /\
  this (run (step s Destroy) es) = this s /\
  frameCallbacks (world (run (step s Destroy) es)) = frameCallbacks (world s) /\
  styleWrites (world (run (step s Destroy) es)) = styleWrites (world s).
Proof. intros R W. exact (destroy_stops_delivery s es R W). Qed.

Lemma inline_destroy_cancels_subscription_witness :
  ticking (this (run (step (snd (constructor three_layers)) Destroy)
                     [ScrollTo 300; ScrollNotify; ScrollNotify])) = false.
Proof.
  destruct (inline_destroy_cancels_subscription (snd (constructor three_layers))
              [ScrollTo 300; ScrollNotify; ScrollNotify]
              constructed_three_layers_reachable eq_refl) as (_ & A & _).
  rewrite A. reflexivity.
Defined.

(** X7. [destroy] is idempotent: a second call changes nothing. *)
Theorem destroy_twice_is_destroy_once (s : Sys) :
  destroy (snd (destroy s)) = (Ret tt, snd (destroy s)).
Proof.
  rewrite !destroy_eq. simpl. do 2 f_equal.
  destruct (world s); unfold set_listeners; simpl. f_equal.
  rewrite list_filter_filter. apply list_filter_iff. tauto.
Qed.

(** ** The controller of [js/modules] *)

Section ModuleController.

Import ParallaxModule ModuleLifetime.

(** The two classes share their update routine. *)
Lemma module_update_as_inline (s : ParallaxModule.Sys) :
  Parallax.updateParallax (as_inline s) =
    (fst (updateParallax s), as_inline (snd (updateParallax s))) /\
  options (this (snd (updateParallax s))) = options (this s).
Proof.
  destruct s as [[o [b m f] t l] w]. unfold as_inline. simpl.
  unfold Parallax.updateParallax, updateParallax, bind, gets. simpl.
  destruct (abs (pageYOffset w - l) <? 1)%float; [split; reflexivity|].
  destruct b, m, f; split; reflexivity.
Qed.

Lemma module_update_preserves (s : ParallaxModule.Sys) :
  fst (updateParallax s) = Ret tt /\
  same_outside_styles (world s) (world (snd (updateParallax s))) /\
  elements (this (snd (updateParallax s))) = elements (this s) /\
  ticking (this (snd (updateParallax s))) = false.
Proof.
  destruct (module_update_as_inline s) as (E & _).
  pose proof (updateParallax_returns (as_inline s)) as R.
  destruct (updateParallax_preserves (as_inline s)) as (Sm & El & _ & _ & Tk & _).
  rewrite E in R, Sm, El, Tk. simpl in *. auto.
Qed.

Lemma module_handleScroll_pending (s : ParallaxModule.Sys) :
  ticking (this s) = true -> handleScroll s = (Ret tt, s).
Proof.
  intros T. unfold handleScroll, bind, gets. simpl. now rewrite T.
Qed.

Lemma module_handleScroll_clear (s : ParallaxModule.Sys) :
  ticking (this s) = false ->
  handleScroll s =
    (Ret tt,
     {| this := set_ticking true (this s);
        world :=
          set_frameCallbacks
            (frameCallbacks (world s) ++ [Closure (fnCounter (world s)) UpdateParallax])
            (set_fnCounter (S (fnCounter (world s))) (world s)) |}).
Proof.
  intros T. unfold handleScroll, bind, gets. simpl. now rewrite T.
Qed.

Lemma allocated_listeners_mono (w w' : World) :
  listeners w' = listeners w -> fnCounter w <= fnCounter w' ->
  allocated_listeners w -> allocated_listeners w'.
Proof.
  unfold allocated_listeners. intros L C A. rewrite L.
  eapply Forall_impl; [exact A|]. intros l H n c E. specialize (H n c E). lia.
Qed.

Lemma module_destroy_eq (s : ParallaxModule.Sys) :
  allocated_listeners (world s) ->
  destroy s =
    (Ret tt, {| this := this s;
                world := set_fnCounter (S (fnCounter (world s))) (world s) |}).
Proof.
  intros A. unfold destroy, host, bind, new_function, removeEventListener, modify.
  simpl. do 2 f_equal.
  assert (K : filter (fun l => ~ same_listener TWindow "scroll"
                                  (Closure (fnCounter (world s)) HandleScroll) l)
                     (listeners (world s)) = listeners (world s)).
  { unfold allocated_listeners in A.
    induction (listeners (world s)) as [|l ls IH]; [reflexivity|].
    inversion A as [|? ? Hl Hls]; subst.
    rewrite filter_cons_True.
    - f_equal. now apply IH.
    - intros (_ & _ & E). specialize (Hl _ _ E). lia. }
  destruct (world s). unfold set_listeners, set_fnCounter in *. simpl in *.
  now rewrite K.
Qed.

(** The state in which the module's [init] calls the update routine. *)
Lemma module_constructor_with_layer (d : option float) (w : World) :
  has_layer w = true -> scroll_listeners w = [] ->
  constructor d w =
    updateParallax
      {| this := {| options := {| throttleDelay := default 16%float d |};
                    elements := found_layers w; ticking := false;
                    lastScrollY := 0%float |};
         world :=
           set_listeners
             (listeners w ++
                [{| l_target := TWindow; l_type := "scroll";
                    l_fn := Closure (fnCounter w) HandleScroll; l_passive := true |}])
             (set_fnCounter (S (fnCounter w)) w) |}.
Proof.
  intros H Q. unfold constructor, init, bind at 1, gets at 1. simpl.
  unfold has_layer, found_layers in H. simpl in H.
  unfold hasParallaxElements. simpl. rewrite H. simpl.
  unfold bind, host, update_this, modify, gets, new_function.
  cbn -[addEventListener updateParallax].
  rewrite addEventListener_scroll by exact Q.
  reflexivity.
Qed.

Lemma module_constructor_without_layer (d : option float) (w : World) :
  has_layer w = false ->
  constructor d w =
    (Ret tt,
     {| this := {| options := {| throttleDelay := default 16%float d |};
                   elements := {| Parallax.layerBack := None; Parallax.layerMid := None;
                                  Parallax.layerFront := None |};
                   ticking := false; lastScrollY := 0%float |};
        world := w |}).
Proof.
  intros H. unfold constructor, init, bind, gets. simpl.
  unfold has_layer, found_layers in H. simpl in H.
  unfold hasParallaxElements. simpl. rewrite H. simpl. unfold ret.
  destruct (querySelector w ".layer-back"), (querySelector w ".layer-mid"),
    (querySelector w ".layer-front"); simpl in H; try discriminate.
  reflexivity.
Qed.

Lemma module_Inv_after_update (s : ParallaxModule.Sys) :
  frameCallbacks (world s) = [] ->
  has_layer_now s = true ->
  (exists l, scroll_listeners (world s) = [l] /\ is_scroll_subscription l) ->
  allocated_listeners (world s) ->
  Inv (snd (updateParallax s)).
Proof.
  intros Fq Has Sub Al.
  destruct (module_update_preserves s) as (_ & Sm & El & Tk).
  split.
  - rewrite Tk, (same_outside_styles_frameCallbacks _ _ Sm). exact Fq.
  - unfold has_layer_now, hasParallaxElements in *. rewrite El, Has.
    now rewrite (same_outside_styles_scroll_listeners _ _ Sm).
  - eapply allocated_listeners_mono; [| |exact Al].
    + now apply same_outside_styles_listeners.
    + unfold same_outside_styles in Sm. rewrite Sm. simpl. lia.
Qed.

Lemma module_Inv_constructor (d : option float) (w : World) :
  quiet w -> allocated_listeners w -> Inv (snd (constructor d w)).
Proof.
  intros (Q & Fq & _) Al. destruct (has_layer w) eqn:H.
  - rewrite (module_constructor_with_layer d w H Q).
    apply module_Inv_after_update; simpl.
    + exact Fq.
    + exact H.
    + eexists. split.
      * rewrite scroll_listeners_set_listeners, filter_app.
        fold (scroll_listeners w). rewrite Q. simpl.
        rewrite filter_cons_True by (split; reflexivity). reflexivity.
      * eexists. reflexivity.
    + unfold allocated_listeners in *. simpl. apply Forall_app. split.
      * eapply Forall_impl; [exact Al|]. intros l Hl n c E.
        specialize (Hl n c E). lia.
      * constructor; [|constructor]. simpl. intros n c E. injection E as <- _. lia.
  - rewrite (module_constructor_without_layer d w H). split; simpl; auto.
Qed.

Lemma module_Inv_step (s : ParallaxModule.Sys) (e : Event) :
  Inv s -> Inv (step s e).
Proof.
  intros I. destruct e as [y| | |]; cbn [step].
  - destruct I as [Iq Is Ia]. split; auto.
  - (* a scroll notification *)
    unfold scroll_notify.
    pose proof (minv_sub s I) as Sub.
    destruct (has_layer_now s) eqn:Has.
    + destruct Sub as (l & Sl & (n & ->)). rewrite Sl. simpl. unfold deliver. simpl.
      destruct (ticking (this s)) eqn:T.
      * now rewrite module_handleScroll_pending.
      * rewrite module_handleScroll_clear by exact T. simpl.
        pose proof (minv_queue s I) as Iq. rewrite T in Iq.
        split; simpl.
        -- rewrite Iq. eauto.
        -- replace (has_layer_now _) with (has_layer_now s) by reflexivity.
           rewrite Has. eexists. split; [exact Sl|]. eexists. reflexivity.
        -- eapply allocated_listeners_mono; [| |exact (minv_alloc s I)];
             simpl; [reflexivity|lia].
    + destruct Sub as (Sl & _). now rewrite Sl.
  - (* a frame *)
    unfold frame. simpl.
    pose proof (minv_queue s I) as Iq.
    destruct (ticking (this s)) eqn:T.
    + destruct Iq as (n & ->). simpl. unfold deliver. simpl.
      pose proof (minv_sub s I) as Sub.
      destruct (has_layer_now s) eqn:Has; [|destruct Sub; congruence].
      apply module_Inv_after_update; simpl; auto.
      apply (minv_alloc s I).
    + rewrite Iq. simpl. destruct I as [_ Is Ia]. split; simpl; auto.
      now rewrite T.
  - (* destroy *)
    rewrite (module_destroy_eq s (minv_alloc s I)). simpl.
    destruct I as [Iq Is Ia]. split; simpl; auto.
    eapply allocated_listeners_mono; [| |exact Ia]; simpl; [reflexivity|lia].
Qed.

Lemma module_Inv_run (es : list Event) (s : ParallaxModule.Sys) :
  Inv s -> Inv (run s es).
Proof.
  revert s. induction es as [|e es IH]; intros s I; simpl; [exact I|].
  apply IH. now apply module_Inv_step.
Qed.

Lemma module_reachable_Inv (s : ParallaxModule.Sys) : reachable s -> Inv s.
Proof.
  intros (d & w & es & Q & A & ->). apply module_Inv_run.
  now apply module_Inv_constructor.
Qed.

Lemma module_step_layers (s : ParallaxModule.Sys) (e : Event) :
  Inv s -> has_layer_now (step s e) = has_layer_now s.
Proof.
  intros I. unfold has_layer_now, hasParallaxElements.
  destruct e as [y| | |]; cbn [step].
  - reflexivity.
  - unfold scroll_notify. pose proof (minv_sub s I) as Sub.
    destruct (has_layer_now s) eqn:Has.
    + destruct Sub as (l & Sl & (n & ->)). rewrite Sl. simpl. unfold deliver. simpl.
      unfold handleScroll, bind, gets. simpl. now destruct (ticking (this s)).
    + destruct Sub as (Sl & _). now rewrite Sl.
  - unfold frame. simpl. pose proof (minv_queue s I) as Iq.
    destruct (ticking (this s)).
    + destruct Iq as (n & ->). simpl. unfold deliver. simpl.
      now destruct (module_update_preserves
                      {| this := this s; world := set_frameCallbacks [] (world s) |})
        as (_ & _ & -> & _).
    + now rewrite Iq.
  - now rewrite (module_destroy_eq s (minv_alloc s I)).
Qed.

Lemma module_step_listeners (s : ParallaxModule.Sys) (e : Event) :
  Inv s -> listeners (world (step s e)) = listeners (world s).
Proof.
  intros I. destruct e as [y| | |]; cbn [step].
  - reflexivity.
  - unfold scroll_notify. pose proof (minv_sub s I) as Sub.
    destruct (has_layer_now s) eqn:Has.
    + destruct Sub as (l & Sl & (n & ->)). rewrite Sl. simpl. unfold deliver. simpl.
      unfold handleScroll, bind, gets. simpl. now destruct (ticking (this s)).
    + destruct Sub as (Sl & _). now rewrite Sl.
  - unfold frame. simpl. pose proof (minv_queue s I) as Iq.
    destruct (ticking (this s)).
    + destruct Iq as (n & ->). simpl. unfold deliver. simpl.
      destruct (module_update_preserves
                  {| this := this s; world := set_frameCallbacks [] (world s) |})
        as (_ & Sm & _).
      now rewrite (same_outside_styles_listeners _ _ Sm).
    + now rewrite Iq.
  - now rewrite (module_destroy_eq s (minv_alloc s I)).
Qed.

Lemma module_run_listeners (es : list Event) (s : ParallaxModule.Sys) :
  Inv s ->
  listeners (world (run s es)) = listeners (world s) /\
  has_layer_now (run s es) = has_layer_now s.
Proof.
  revert s. induction es as [|e es IH]; intros s I; simpl; [auto|].
  destruct (IH (step s e) (module_Inv_step s e I)) as (L & H).
  unfold run in *. rewrite L, H.
  split; [now apply module_step_listeners|now apply module_step_layers].
Qed.

Lemma module_within_frame_run (es : list Event) (s : ParallaxModule.Sys) :
  Inv s -> has_layer_now s = true -> forallb within_frame es = true ->
  ticking (this s) = true \/ existsb is_notify es = true ->
  ticking (this (run s es)) = true.
Proof.
  revert s. induction es as [|e es IH]; intros s I Has W T; simpl in *.
  - destruct T as [T|T]; [exact T|discriminate].
  - apply andb_true_iff in W as (We & Wes).
    apply IH; auto.
    + now apply module_Inv_step.
    + now rewrite module_step_layers.
    + destruct e as [y| | |]; try discriminate; cbn [step]; simpl in T.
      * destruct T as [T|T]; auto.
      * left. unfold scroll_notify. pose proof (minv_sub s I) as Sub.
        rewrite Has in Sub. destruct Sub as (l & Sl & (n & ->)).
        rewrite Sl. simpl. unfold deliver. simpl.
        destruct (ticking (this s)) eqn:Tk.
        -- now rewrite module_handleScroll_pending.
        -- now rewrite module_handleScroll_clear.
Qed.

Lemma with_options_updateParallax (o : Options) (s : ParallaxModule.Sys) :
  updateParallax (with_options o s) =
    (fst (updateParallax s), with_options o (snd (updateParallax s))).
Proof.
  destruct s as [[o' [b m f] t l] w]. unfold with_options. simpl.
  unfold updateParallax, bind, gets. simpl.
  destruct (abs (pageYOffset w - l) <? 1)%float; [reflexivity|].
  destruct b, m, f; reflexivity.
Qed.

Lemma with_options_deliver (o : Options) (s : ParallaxModule.Sys) (f : FnObj) :
  deliver (with_options o s) f = with_options o (deliver s f).
Proof.
  unfold deliver, invoke. destruct f as [[| |name]|n [| |name]]; try reflexivity.
  - unfold handleScroll, bind, gets. simpl. now destruct (ticking (this s)).
  - now rewrite with_options_updateParallax.
Qed.

Lemma with_options_foldl (o : Options) (fs : list FnObj) (s : ParallaxModule.Sys) :
  foldl deliver (with_options o s) fs = with_options o (foldl deliver s fs).
Proof.
  revert s. induction fs as [|f fs IH]; intros s; simpl; [reflexivity|].
  now rewrite with_options_deliver, IH.
Qed.

Lemma with_options_step (o : Options) (s : ParallaxModule.Sys) (e : Event) :
  step (with_options o s) e = with_options o (step s e).
Proof.
  destruct e as [y| | |]; cbn [step].
  - reflexivity.
  - unfold scroll_notify. simpl. apply with_options_foldl.
  - unfold frame. simpl.
    apply (with_options_foldl o (frameCallbacks (world s))
             {| this := this s; world := set_frameCallbacks [] (world s) |}).
  - reflexivity.
Qed.

Lemma with_options_run (o : Options) (es : list Event) (s : ParallaxModule.Sys) :
  run (with_options o s) es = with_options o (run s es).
Proof.
  revert s. induction es as [|e es IH]; intros s; simpl; [reflexivity|].
  unfold run in IH. now rewrite with_options_step, IH.
Qed.

Lemma with_options_constructor (d1 d2 : option float) (w : World) :
  constructor d2 w =
    (fst (constructor d1 w),
     with_options {| throttleDelay := default 16%float d2 |} (snd (constructor d1 w))).
Proof.
  unfold constructor, init, bind, gets, host, new_function, hasParallaxElements.
  cbn -[updateParallax addEventListener].
  destruct (truthy _); cbn -[updateParallax addEventListener]; [|reflexivity].
  unfold addEventListener, modify. cbn -[updateParallax].
  match goal with
  | |- updateParallax ?a = (fst (updateParallax ?b), _) =>
      change a with (with_options {| throttleDelay := default 16%float d2 |} b)
  end.
  apply with_options_updateParallax.
Qed.

End ModuleController.

(** X8. The update routine of the [js/modules] class is the update routine of
    the inline class: on the same layers, flag, last applied offset and page
    it returns the same outcome and leaves the same page and fields; it
    leaves the options alone. *)
Theorem module_update_routine_agrees (s : ParallaxModule.Sys) :
  updateParallax (ModuleLifetime.as_inline s) =
    (fst (ParallaxModule.updateParallax s),
     ModuleLifetime.as_inline (snd (ParallaxModule.updateParallax s))) /\
  ParallaxModule.options (ParallaxModule.this (snd (ParallaxModule.updateParallax s))) =
  ParallaxModule.options (ParallaxModule.this s).
Proof. exact (module_update_as_inline s). Qed.

(** X9. The [js/modules] class coalesces like the inline one.  In every state
    of its lifetime at most one update request is waiting; on a controller
    with a layer, after any burst of offset changes with at least one scroll
    notification, the next frame runs exactly one callback, a bound copy of
    the update routine, and leaves the queue empty and the flag clear. *)
Theorem module_at_most_one_update_outstanding (s : ParallaxModule.Sys) :
  ModuleLifetime.reachable s ->
  length (frameCallbacks (ParallaxModule.world s)) <= 1 /\
  (ModuleLifetime.has_layer_now s = true ->
   forall es,
     forallb ModuleLifetime.within_frame es = true ->
     existsb ModuleLifetime.is_notify es = true ->
     let s' := ModuleLifetime.run s es in
     (exists n, fst (ParallaxModule.frame s') = [Closure n UpdateParallax]) /\
     frameCallbacks (ParallaxModule.world (snd (ParallaxModule.frame s'))) = [] /\
     ParallaxModule.ticking (ParallaxModule.this (snd (ParallaxModule.frame s'))) = false).
Proof.
  intros R. pose proof (module_reachable_Inv s R) as I. split.
  - pose proof (ModuleLifetime.minv_queue s I) as Q.
    destruct (ParallaxModule.ticking (ParallaxModule.this s)).
    + destruct Q as (n & ->). simpl. lia.
    + rewrite Q. simpl. lia.
  - intros Has es W N. cbv zeta.
    pose proof (module_Inv_run es s I) as I'.
    pose proof (module_within_frame_run es s I Has W (or_intror N)) as T.
    pose proof (ModuleLifetime.minv_queue _ I') as Q. rewrite T in Q.
    destruct Q as (n & Q).
    split; [exists n; exact Q|].
    pose proof (module_Inv_step _ ModuleLifetime.Frame I') as I''.
    cbn [ModuleLifetime.step] in I''.
    assert (Tk : ParallaxModule.ticking
                   (ParallaxModule.this
                      (snd (ParallaxModule.frame (ModuleLifetime.run s es)))) = false).
    { unfold ParallaxModule.frame. rewrite Q. simpl.
      unfold ParallaxModule.deliver. simpl.
      now destruct (module_update_preserves
                      {| ParallaxModule.this :=
                           ParallaxModule.this (ModuleLifetime.run s es);
                         ParallaxModule.world :=
                           set_frameCallbacks []
                             (ParallaxModule.world (ModuleLifetime.run s es)) |})
        as (_ & _ & _ & Tk). }
    split; [|exact Tk].
    pose proof (ModuleLifetime.minv_queue _ I'') as Q'. now rewrite Tk in Q'.
Qed.

Lemma module_mid_page_reachable :
  ModuleLifetime.reachable
    (snd (ParallaxModule.constructor None ModuleLifetime.mid_page)).
Proof.
  exists None, ModuleLifetime.mid_page, []. split; [repeat split|].
  split; [constructor|reflexivity].
Qed.

Lemma module_at_most_one_update_outstanding_witness :
  exists n,
    fst (ParallaxModule.frame
           (ModuleLifetime.run
              (snd (ParallaxModule.constructor None ModuleLifetime.mid_page))
              [ModuleLifetime.ScrollNotify; ModuleLifetime.ScrollTo 80;
               ModuleLifetime.ScrollNotify; ModuleLifetime.ScrollNotify])) =
    [Closure n UpdateParallax].
Proof.
  destruct (module_at_most_one_update_outstanding
              (snd (ParallaxModule.constructor None ModuleLifetime.mid_page))
              module_mid_page_reachable) as (_ & B).
  destruct (B eq_refl
              [ModuleLifetime.ScrollNotify; ModuleLifetime.ScrollTo 80;
               ModuleLifetime.ScrollNotify; ModuleLifetime.ScrollNotify]
              eq_refl eq_refl) as (C & _).
  exact C.
Defined.

(** X10. Once the [js/modules] controller is constructed, nothing it does
    changes the listener registry: [destroy] included, every event leaves
    the listeners as they are, so a controller with a layer keeps exactly one
    scroll subscription for good. *)
Theorem module_subscription_is_never_removed (s : ParallaxModule.Sys)
    (es : list ModuleLifetime.Event) :
  ModuleLifetime.reachable s ->
  listeners (ParallaxModule.world (ModuleLifetime.run s es)) =
    listeners (ParallaxModule.world s) /\
  (ModuleLifetime.has_layer_now s = true ->
   exists l, scroll_listeners (ParallaxModule.world (ModuleLifetime.run s es)) = [l] /\
             ModuleLifetime.is_scroll_subscription l).
Proof.
  intros R. pose proof (module_reachable_Inv s R) as I.
  destruct (module_run_listeners es s I) as (L & H). split; [exact L|].
  intros Has. pose proof (ModuleLifetime.minv_sub _ (module_Inv_run es s I)) as Sub.
  now rewrite H, Has in Sub.
Qed.

Lemma module_subscription_is_never_removed_witness :
  length (listeners
            (ParallaxModule.world
               (ModuleLifetime.run
                  (snd (ParallaxModule.constructor None ModuleLifetime.mid_page))
                  [ModuleLifetime.Destroy; ModuleLifetime.Destroy;
                   ModuleLifetime.ScrollNotify; ModuleLifetime.Frame]))) = 1.
Proof.
  destruct (module_subscription_is_never_removed
              (snd (ParallaxModule.constructor None ModuleLifetime.mid_page))
              [ModuleLifetime.Destroy; ModuleLifetime.Destroy;
               ModuleLifetime.ScrollNotify; ModuleLifetime.Frame]
              module_mid_page_reachable) as (A & _).
  rewrite A. reflexivity.
Defined.

(** X11. The [throttleDelay] option is stored, 16 unless the caller gives
    one, and read by nothing: two controllers constructed on the same page
    with different options return the same outcome and, after the same
    events, differ in the stored option only. *)
Theorem throttleDelay_has_no_effect (d1 d2 : option float) (w : World)
    (es : list ModuleLifetime.Event) :
  fst (ParallaxModule.constructor d2 w) = fst (ParallaxModule.constructor d1 w) /\
  ModuleLifetime.run (snd (ParallaxModule.constructor d2 w)) es =
    ModuleLifetime.with_options
      {| ParallaxModule.throttleDelay := default 16%float d2 |}
      (ModuleLifetime.run (snd (ParallaxModule.constructor d1 w)) es).
Proof.
  rewrite (with_options_constructor d1 d2 w). simpl. split; [reflexivity|].
  apply with_options_run.
Qed.

(** ** Theme controller, page unload, form wiring *)


Section ThemeAndUnload.

Import Cleanup.




End ThemeAndUnload.



(** X13. A theme applied on one visit is the theme of the next: after
    [applyTheme t] with working storage and a non-empty [t], a theme
    controller constructed on any page that sees the same storage and has
    the toggle button starts with [t] as its current theme and puts it in the
    [data-theme] attribute, whatever the system colour scheme is. *)
Theorem applied_theme_survives_the_visit (w w2 : World) (c : Theme.Controller)
    (t : string) (b : ElemId) :
  localStorage w <> None ->
  t <> "" ->
  localStorage w2 = localStorage (snd (Theme.applyTheme t c w)) ->
  getElementById w2 "theme-toggle" = Some b ->
  exists c2,
    fst (Theme.constructor w2) = Ret c2 /\
    Theme.currentTheme c2 = t /\
    dataTheme (snd (Theme.constructor w2)) = Some t /\
    Theme.getStoredTheme (snd (Theme.constructor w2)) = Some t.
Proof.
  intros St Ne L2 B.
  destruct (localStorage w) as [st|] eqn:Sw; [|congruence].
  unfold Theme.applyTheme, Theme.storeTheme, bind, modify, ret in L2.
  simpl in L2. rewrite Sw in L2. simpl in L2.
  assert (G : Theme.getStoredTheme w2 = Some t).
  { unfold Theme.getStoredTheme. rewrite L2. apply lookup_insert_eq. }
  unfold Theme.constructor, Theme.init, Theme.applyTheme, Theme.storeTheme,
    bind, gets, modify, ret, new_function, addEventListener.
  simpl. rewrite B, G. simpl.
  destruct t as [|a t']; [congruence|]. simpl. rewrite L2. simpl.
  repeat (destruct (decide _)); simpl;
    (eexists; split; [reflexivity|]; simpl; split; [reflexivity|];
     split; [reflexivity|]; unfold Theme.getStoredTheme; simpl;
     apply lookup_insert_eq).
Qed.

Lemma applied_theme_survives_the_visit_witness :
  exists c2,
    fst (Theme.constructor
           (snd (Theme.applyTheme "dark"
                   {| Theme.button := Some 9; Theme.prefersDark := false;
                      Theme.currentTheme := "light" |}
                   (page 0 None None None)))) = Ret c2 /\
    Theme.currentTheme c2 = "dark".
Proof.
  destruct (applied_theme_survives_the_visit
              (page 0 None None None)
              (snd (Theme.applyTheme "dark"
                      {| Theme.button := Some 9; Theme.prefersDark := false;
                         Theme.currentTheme := "light" |}
                      (page 0 None None None)))
              {| Theme.button := Some 9; Theme.prefersDark := false;
                 Theme.currentTheme := "light" |}
              "dark" 9
              ltac:(discriminate) ltac:(discriminate) eq_refl eq_refl)
    as (c2 & R & T & _).
  exists c2. split; [exact R|exact T].
Defined.

(** X14. On a page without the toggle button the theme controller's
    constructor returns normally and touches nothing: no attribute, no
    storage write, no listener, no function object.  A stored theme is read
    into the controller's field but not applied to the document. *)
Theorem no_toggle_button_no_theme (w : World) :
  getElementById w "theme-toggle" = None ->
  exists c,
    Theme.constructor w = (Ret c, w) /\
    Theme.button c = None /\
    (forall a t, Theme.getStoredTheme w = Some (String a t) ->
                 Theme.currentTheme c = String a t).
Proof.
  intros B. unfold Theme.constructor, Theme.init, bind, gets, ret. simpl.
  rewrite B. simpl. eexists. split; [reflexivity|]. simpl.
  split; [reflexivity|]. intros a t G. now rewrite G.
Qed.

Lemma no_toggle_button_no_theme_witness :
  exists c, Theme.constructor blank = (Ret c, blank).
Proof.
  destruct (no_toggle_button_no_theme blank eq_refl) as (c & E & _).
  exists c. exact E.
Defined.

(** X15. When [localStorage] throws, [applyTheme] still returns normally and
    sets the [data-theme] attribute and the current theme; nothing is
    persisted, so the next controller falls back to the system colour
    scheme. *)
Theorem storage_failure_is_swallowed (w : World) (c : Theme.Controller) (t : string) :
  localStorage w = None ->
  let w' := snd (Theme.applyTheme t c w) in
  fst (Theme.applyTheme t c w) = Ret (Theme.set_currentTheme t c) /\
  dataTheme w' = Some t /\
  localStorage w' = None /\
  (forall w2, localStorage w2 = localStorage w' ->
     exists c2, fst (Theme.constructor w2) = Ret c2 /\
                Theme.currentTheme c2 =
                  if matchMedia w2 "(prefers-color-scheme: dark)"
                  then "dark" else "light").
Proof.
  intros S. unfold Theme.applyTheme, Theme.storeTheme, bind, modify, ret. simpl.
  rewrite S. simpl. repeat split; auto.
  intros w2 L2.
  destruct (harmless_Theme_constructor w2) as ((c2 & R) & _).
  exists c2. split; [exact R|].
  revert R.
  unfold Theme.constructor, Theme.init, Theme.applyTheme, Theme.storeTheme,
    bind, gets, modify, ret, new_function, addEventListener, Theme.getStoredTheme.
  simpl. rewrite L2, S. simpl.
  destruct (getElementById w2 "theme-toggle"); simpl;
    rewrite ?L2, ?S; simpl;
    repeat (destruct (decide _)); simpl; intros [= <-]; reflexivity.
Qed.

Lemma storage_failure_is_swallowed_witness :
  dataTheme
    (snd (Theme.applyTheme "dark"
            {| Theme.button := Some 9; Theme.prefersDark := false;
               Theme.currentTheme := "light" |}
            (set_localStorage None blank))) = Some "dark".
Proof.
  destruct (storage_failure_is_swallowed (set_localStorage None blank)
              {| Theme.button := Some 9; Theme.prefersDark := false;
                 Theme.currentTheme := "light" |} "dark" eq_refl)
    as (_ & D & _).
  exact D.
Defined.

(** ** Form wiring *)

Section FormWiring.



Lemma add_registered (t : Target) (ty : string) (f : FnObj) (p : bool) (w : World) :
  Cleanup.registered t ty f w -> addEventListener t ty f p w = (Ret tt, w).
Proof.
  intros R. unfold addEventListener, modify.
  destruct (decide _) as [_|N]; [reflexivity|]. now contradiction N.
Qed.

Lemma add_registers (t : Target) (ty : string) (f : FnObj) (p : bool) (w : World) :
  Cleanup.registered t ty f (snd (addEventListener t ty f p w)).
Proof.
  unfold addEventListener, modify, Cleanup.registered. simpl.
  destruct (decide _) as [E|_]; [exact E|]. simpl.
  apply Exists_app. right. left. repeat split.
Qed.

Lemma add_keeps (t t' : Target) (ty ty' : string) (f f' : FnObj) (p : bool)
    (w : World) :
  Cleanup.registered t' ty' f' w -> Cleanup.registered t' ty' f' (snd (addEventListener t ty f p w)).
Proof.
  unfold addEventListener, modify, Cleanup.registered. simpl. intros R.
  destruct (decide _) as [_|_]; [exact R|]. simpl.
  apply Exists_app. now left.
Qed.

Lemma add_same_document (t : Target) (ty : string) (f : FnObj) (p : bool) (w : World) :
  querySelector (snd (addEventListener t ty f p w)) = querySelector w /\
  requiredFields (snd (addEventListener t ty f p w)) = requiredFields w.
Proof.
  unfold addEventListener, modify. simpl. now destruct (decide _).
Qed.

Lemma bind_returns {St A B} (m : M St A) (k : A -> M St B) (s : St) (a : A) :
  fst (m s) = Ret a -> bind m k s = k a (snd (m s)).
Proof. unfold bind. destruct (m s) as [r s']. simpl. now intros ->. Qed.

Lemma wire_field_eq (field : ElemId) (w : World) :
  FormWiring.wire_field field w =
    addEventListener (TElem field) "input" (Declared (Other "clearFieldError")) false
      (snd (addEventListener (TElem field) "blur"
              (Declared (Other "validateField")) false w)).
Proof.
  unfold FormWiring.wire_field.
  exact (bind_returns
           (addEventListener (TElem field) "blur"
              (Declared (Other "validateField")) false)
           (fun _ : unit =>
              addEventListener (TElem field) "input"
                (Declared (Other "clearFieldError")) false) w tt eq_refl).
Qed.

Lemma wire_field_does (field : ElemId) (w : World) :
  fst (FormWiring.wire_field field w) = Ret tt /\
  FormWiring.field_wired field (snd (FormWiring.wire_field field w)) /\
  (forall t ty f, Cleanup.registered t ty f w ->
                  Cleanup.registered t ty f (snd (FormWiring.wire_field field w))) /\
  querySelector (snd (FormWiring.wire_field field w)) = querySelector w /\
  requiredFields (snd (FormWiring.wire_field field w)) = requiredFields w.
Proof.
  rewrite wire_field_eq.
  set (w1 := snd (addEventListener (TElem field) "blur"
                    (Declared (Other "validateField")) false w)).
  destruct (add_same_document (TElem field) "blur"
              (Declared (Other "validateField")) false w) as (Q1 & F1).
  destruct (add_same_document (TElem field) "input"
              (Declared (Other "clearFieldError")) false w1) as (Q2 & F2).
  fold w1 in Q1, F1.
  split; [reflexivity|]. split; [split|split; [|split; congruence]].
  - apply add_keeps. apply add_registers.
  - apply add_registers.
  - intros t ty f H. apply add_keeps. now apply add_keeps.
Qed.

Lemma wire_field_noop (field : ElemId) (w : World) :
  FormWiring.field_wired field w -> FormWiring.wire_field field w = (Ret tt, w).
Proof.
  intros (B & I). unfold FormWiring.wire_field, bind.
  rewrite (add_registered _ _ _ _ _ B). now apply add_registered.
Qed.

Lemma forEach_wire_spec (fields : list ElemId) (w : World) :
  let w' := snd (App.forEach fields FormWiring.wire_field w) in
  fst (App.forEach fields FormWiring.wire_field w) = Ret tt /\
  (forall field, field ∈ fields -> FormWiring.field_wired field w') /\
  (forall t ty f, Cleanup.registered t ty f w -> Cleanup.registered t ty f w') /\
  querySelector w' = querySelector w /\ requiredFields w' = requiredFields w.
Proof.
  revert w. induction fields as [|x fields IH]; intros w; simpl.
  - split; [reflexivity|]. split; [intros field H; inversion H|]. auto.
  - unfold bind.
    destruct (wire_field_does x w) as (R & Wx & K & Q & F).
    destruct (FormWiring.wire_field x w) as [r w1]. simpl in *. subst r.
    destruct (IH w1) as (R' & W' & K' & Q' & F').
    split; [exact R'|]. split; [|split; [auto|split; congruence]].
    intros field H. apply elem_of_cons in H as [->|H]; [|now apply W'].
    destruct Wx as (B & I). split; now apply K'.
Qed.

Lemma forEach_wire_noop (fields : list ElemId) (w : World) :
  (forall field, field ∈ fields -> FormWiring.field_wired field w) ->
  App.forEach fields FormWiring.wire_field w = (Ret tt, w).
Proof.
  induction fields as [|x fields IH]; intros H; simpl; [reflexivity|].
  unfold bind. rewrite wire_field_noop by (apply H; left).
  apply IH. intros field Hf. apply H. now right.
Qed.

Lemma initContactForm_eq (w : World) :
  App.initContactForm w =
    match querySelector w ".contact-form" with
    | Some form =>
        addEventListener (TElem form) "submit"
          (Declared (Other "handleFormSubmit")) false
          (snd (App.forEach (requiredFields w) FormWiring.wire_field w))
    | None => (Ret tt, w)
    end.
Proof.
  unfold App.initContactForm, bind at 1, gets at 1. cbn beta iota.
  destruct (querySelector w ".contact-form") as [form|]; [|reflexivity].
  unfold bind at 1, gets at 1. cbn beta iota.
  destruct (forEach_wire_spec (requiredFields w) w) as (R & _).
  exact (bind_returns
           (App.forEach (requiredFields w) FormWiring.wire_field)
           (fun _ : unit =>
              addEventListener (TElem form) "submit"
                (Declared (Other "handleFormSubmit")) false) w tt R).
Qed.

End FormWiring.

(** X16. [initContactForm] is idempotent.  Its handlers are function
    declarations, so a second run hands [addEventListener] the same function
    objects and every registration is a duplicate: the page after two runs
    is the page after one. *)
Theorem initContactForm_twice_is_once (w : World) :
  fst (App.initContactForm w) = Ret tt /\
  App.initContactForm (snd (App.initContactForm w)) =
    (Ret tt, snd (App.initContactForm w)).
Proof.
  rewrite (initContactForm_eq w).
  destruct (querySelector w ".contact-form") as [form|] eqn:Qf.
  - destruct (forEach_wire_spec (requiredFields w) w) as (_ & Wd & _ & Q & F).
    cbv zeta in Wd, Q, F.
    set (w1 := snd (App.forEach (requiredFields w) FormWiring.wire_field w)) in *.
    destruct (add_same_document (TElem form) "submit"
                (Declared (Other "handleFormSubmit")) false w1) as (Q2 & F2).
    set (w2 := snd (addEventListener (TElem form) "submit"
                      (Declared (Other "handleFormSubmit")) false w1)) in *.
    split; [reflexivity|].
    rewrite (initContactForm_eq w2). rewrite Q2, Q, Qf, F2, F.
    rewrite forEach_wire_noop.
    + apply add_registered. apply add_registers.
    + intros field H. destruct (Wd field H). split; now apply add_keeps.
  - split; [reflexivity|]. simpl. rewrite initContactForm_eq. now rewrite Qf.
Qed.

(** ** [formatFormData] *)

Section FormData.

Lemma foldl_assign_lookup (entries : list (string * string))
    (data : gmap string string) (key : string) :
  key <> "__proto__" ->
  foldl (fun data e => Forms.assign data (fst e) (snd e)) data entries !! key =
    match Forms.last_value key entries with
    | Some v => Some v
    | None => data !! key
    end.
Proof.
  intros Nk. revert data.
  induction entries as [|[k v] entries IH] using rev_ind; intros data.
  - reflexivity.
  - rewrite foldl_app. simpl. unfold Forms.last_value in *.
    rewrite filter_app. unfold Forms.assign at 1.
    destruct (decide (k = key)) as [->|Ne].
    + rewrite filter_cons_True by reflexivity. rewrite filter_nil.
      rewrite last_snoc. simpl.
      destruct (decide (key = "__proto__")); [contradiction|].
      apply lookup_insert_eq.
    + rewrite filter_cons_False by (simpl; congruence).
      rewrite filter_nil, app_nil_r.
      destruct (decide (k = "__proto__")).
      * apply IH.
      * rewrite lookup_insert_ne by exact Ne. apply IH.
Qed.

Lemma foldl_assign_proto (entries : list (string * string))
    (data : gmap string string) :
  foldl (fun data e => Forms.assign data (fst e) (snd e)) data entries !! "__proto__" =
  data !! "__proto__".
Proof.
  revert data. induction entries as [|[k v] entries IH]; intros data; simpl.
  - reflexivity.
  - rewrite IH. unfold Forms.assign.
    destruct (decide (k = "__proto__")) as [E|Ne]; [reflexivity|].
    now apply lookup_insert_ne.
Qed.

End FormData.

(** X17. [formatFormData] keeps one value per field name, the last: looking a
    name up in the result gives the value of the last entry with that name,
    and nothing when no entry has it, so earlier values of a repeated name
    are lost.  The name [__proto__] is never a property of the result. *)
Theorem formatFormData_last_value_wins (entries : list (string * string))
    (key : string) :
  Forms.formatFormData entries !! key =
    if decide (key = "__proto__") then None else Forms.last_value key entries.
Proof.
  unfold Forms.formatFormData. destruct (decide (key = "__proto__")) as [->|Nk].
  - now rewrite foldl_assign_proto.
  - rewrite (foldl_assign_lookup entries ∅ key Nk).
    now destruct (Forms.last_value key entries).
Qed.

Example formatFormData_example :
  let data := Forms.formatFormData
                [("name", "Ada"); ("topic", "a"); ("__proto__", "x"); ("topic", "b")] in
  data !! "name" = Some "Ada" /\ data !! "topic" = Some "b" /\
  data !! "__proto__" = None /\ data !! "email" = None.
Proof. vm_compute. repeat split. Qed.

(** ** [debounce] and [throttle] *)

Section Timers.

Import Timing.
Context {A : Type}.

Lemma to_int32_small (z : Z) : (0 <= z < 2 ^ 31)%Z -> to_int32 z = z.
Proof.
  intros H. unfold to_int32. rewrite Z.mod_small by lia. lia.
Qed.

Lemma timer_delay_small (z : Z) : (0 <= z < 2 ^ 31)%Z -> timer_delay z = z.
Proof. intros H. unfold timer_delay. rewrite to_int32_small by exact H. lia. Qed.


Lemma clearTimeout_one_timer (id : option nat) (e : Env A) :
  one_timer id e -> pending (clearTimeout id e) = [].
Proof.
  intros [P|(t & P & ->)]; unfold clearTimeout.
  - destruct id; simpl; now rewrite P.
  - simpl. rewrite P. now rewrite filter_cons_False by (simpl; tauto).
Qed.

Lemma take_due_one_timer (id : nat) (e : Env A) (t : Timer A) :
  pending e = [t] ->
  take_due id e =
    if decide (t_id t = id) then
      if (t_due t <=? now e)%Z then
        Some (t_args t, {| now := now e; nextId := nextId e; pending := [];
                           executed := executed e |})
      else None
    else None.
Proof.
  intros P. unfold take_due. rewrite P.
  destruct (decide (t_id t = id)) as [E|N].
  - rewrite filter_cons_True by exact E. simpl.
    destruct (t_due t <=? now e)%Z; [|reflexivity].
    now rewrite filter_cons_False by tauto.
  - now rewrite filter_cons_False by exact N.
Qed.

Lemma take_due_none (id : nat) (e : Env A) :
  pending e = [] -> take_due id e = None.
Proof. intros P. unfold take_due. now rewrite P. Qed.

(** *** Debounce *)

Lemma debounced_step_one_timer (delay : Z) (s : Debounced A) (ev : Event A) :
  one_timer (d_timeoutId s) (d_env s) ->
  one_timer (d_timeoutId (debounced_step delay s ev))
            (d_env (debounced_step delay s ev)).
Proof.
  intros I. destruct ev as [a|dt|id]; simpl.
  - unfold debounced_call, setTimeout. simpl.
    rewrite (clearTimeout_one_timer _ _ I). right. eexists. split; reflexivity.
  - exact I.
  - destruct I as [P|(t & P & E)].
    + rewrite (take_due_none id _ P). now left.
    + rewrite (take_due_one_timer id _ t P).
      destruct (decide (t_id t = id)); [|right; eauto].
      destruct (t_due t <=? now (d_env s))%Z; [|right; eauto].
      now left.
Qed.

Lemma debounced_reachable_one_timer (delay : Z) (s : Debounced A) :
  debounced_reachable delay s -> one_timer (d_timeoutId s) (d_env s).
Proof.
  intros (e & evs & I & ->). unfold debounced_run.
  induction evs as [|ev evs IH] using rev_ind.
  - now left.
  - rewrite foldl_app. simpl. now apply debounced_step_one_timer.
Qed.





(** *** Throttle *)

Lemma throttled_step_inv (delay : Z) (s : Throttled A) (ev : Event A) :
  throttled_inv s -> throttled_inv (throttled_step delay s ev).
Proof.
  intros (I & L). destruct ev as [a|dt|id]; simpl.
  - unfold throttled_call.
    destruct (now (th_env s) - th_lastExecTime s >? delay)%Z.
    + split; simpl; [exact I|lia].
    + unfold setTimeout. simpl. rewrite (clearTimeout_one_timer _ _ I).
      split; simpl.
      * right. eexists. split; reflexivity.
      * destruct (th_timeoutId s); simpl; exact L.
  - split; simpl; [exact I|lia].
  - destruct I as [P|(t & P & E)].
    + rewrite (take_due_none id _ P). split; [now left|exact L].
    + rewrite (take_due_one_timer id _ t P).
      destruct (decide (t_id t = id)); [|split; [right; eauto|exact L]].
      destruct (t_due t <=? now (th_env s))%Z; [|split; [right; eauto|exact L]].
      split; simpl; [now left|lia].
Qed.

Lemma throttled_reachable_inv (delay : Z) (s : Throttled A) :
  throttled_reachable delay s -> throttled_inv s.
Proof.
  intros (e & evs & I & N & ->). unfold throttled_run.
  induction evs as [|ev evs IH] using rev_ind.
  - split; simpl; [now left|exact N].
  - rewrite foldl_app. simpl. now apply throttled_step_inv.
Qed.

Lemma debounced_run_reachable (delay : Z) (e : Env A) (evs : list (Event A)) :
  idle e -> debounced_reachable delay (debounced_run delay (debounce e) evs).
Proof. intros I. exists e, evs. auto. Qed.

Lemma throttled_run_reachable (delay : Z) (e : Env A) (evs : list (Event A)) :
  idle e -> (0 <= now e)%Z ->
  throttled_reachable delay (throttled_run delay (throttle e) evs).
Proof. intros I N. exists e, evs. auto. Qed.

End Timers.

(** X18. A debounced function has at most one timer pending at any time, and
    it is the timer whose id the closure holds: every call clears the timer
    of the call before. *)
Theorem debounce_keeps_one_timer {A : Type} (delay : Z) (s : Timing.Debounced A) :
  Timing.debounced_reachable delay s ->
  length (Timing.pending (Timing.d_env s)) <= 1 /\
  (forall t, t ∈ Timing.pending (Timing.d_env s) ->
             Timing.d_timeoutId s = Some (Timing.t_id t)).
Proof.
  intros R. destruct (debounced_reachable_one_timer delay s R) as [P|(t & P & E)];
    rewrite P; simpl; split; try lia.
  - intros t H. inversion H.
  - intros t' H. apply list_elem_of_singleton in H. now subst.
Qed.

Lemma debounce_keeps_one_timer_witness :
  length (Timing.pending
            (Timing.d_env
               (Timing.debounced_run 300
                  (Timing.debounce Timing.fresh_env)
                  [Timing.Call "a"; Timing.Wait 100; Timing.Call "b";
                   Timing.Call "c"]))) <= 1.
Proof.
  destruct (debounce_keeps_one_timer 300
              (Timing.debounced_run 300
                 (Timing.debounce Timing.fresh_env)
                 [Timing.Call "a"; Timing.Wait 100; Timing.Call "b"; Timing.Call "c"])
              (debounced_run_reachable 300 Timing.fresh_env _ eq_refl)) as (L & _).
  exact L.
Defined.



(** X20. What one call of a throttled function does, for a delay between 0
    and [2^31] ms.  More than [delay] after the last run it runs [func] at
    once with its own arguments and sets no timer.  Within [delay] of the
    last run it does not run [func]; it replaces whatever timer was pending
    by one that holds its arguments and is due exactly [delay] after the last
    run.  Either way at most one timer is pending afterwards. *)
Theorem throttle_call_leading_or_trailing {A : Type} (delay : Z)
    (s : Timing.Throttled A) (a : A) :
  Timing.throttled_reachable delay s ->
  (0 <= delay < 2 ^ 31)%Z ->
  let e := Timing.th_env s in
  let s' := Timing.throttled_call delay a s in
  ((Timing.now e - Timing.th_lastExecTime s > delay)%Z ->
     Timing.executed (Timing.th_env s') = Timing.executed e ++ [(Timing.now e, a)] /\
     Timing.pending (Timing.th_env s') = Timing.pending e /\
     Timing.th_lastExecTime s' = Timing.now e) /\
  ((Timing.now e - Timing.th_lastExecTime s <= delay)%Z ->
     Timing.executed (Timing.th_env s') = Timing.executed e /\
     Timing.pending (Timing.th_env s') =
       [{| Timing.t_id := Timing.nextId e;
           Timing.t_due := (Timing.th_lastExecTime s + delay)%Z;
           Timing.t_args := a |}] /\
     Timing.th_lastExecTime s' = Timing.th_lastExecTime s) /\
  length (Timing.pending (Timing.th_env s')) <= 1.
Proof.
  intros R D. cbv zeta.
  destruct (throttled_reachable_inv delay s R) as (I & L).
  pose proof (throttled_step_inv delay s (Timing.Call a) (conj I L)) as (I' & _).
  simpl in I'.
  split; [|split].
  - intros G. unfold Timing.throttled_call.
    apply Z.gt_lt, Z.gtb_lt in G. rewrite G. simpl. auto.
  - intros G. unfold Timing.throttled_call.
    destruct (_ >? _)%Z eqn:C; [apply Z.gtb_lt in C; lia|].
    pose proof (clearTimeout_one_timer _ _ I) as Cl.
    unfold Timing.setTimeout. simpl. rewrite Cl. simpl.
    rewrite timer_delay_small by lia.
    assert (Hn : Timing.now (Timing.clearTimeout (Timing.th_timeoutId s)
                                (Timing.th_env s)) = Timing.now (Timing.th_env s))
      by (destruct (Timing.th_timeoutId s); reflexivity).
    assert (Hi : Timing.nextId (Timing.clearTimeout (Timing.th_timeoutId s)
                                  (Timing.th_env s)) = Timing.nextId (Timing.th_env s))
      by (destruct (Timing.th_timeoutId s); reflexivity).
    assert (He : Timing.executed (Timing.clearTimeout (Timing.th_timeoutId s)
                                    (Timing.th_env s)) =
                 Timing.executed (Timing.th_env s))
      by (destruct (Timing.th_timeoutId s); reflexivity).
    rewrite Hn, Hi, He. repeat split. do 2 f_equal. lia.
  - destruct I' as [P|(t & P & _)]; rewrite P; simpl; lia.
Qed.

Lemma throttle_call_leading_or_trailing_witness :
  Timing.pending
    (Timing.th_env
       (Timing.throttled_call 100 "b"
          (Timing.throttled_run 100 (Timing.throttle Timing.fresh_env)
             [Timing.Call "a"; Timing.Wait 10]))) =
    [{| Timing.t_id := 1; Timing.t_due := 1100; Timing.t_args := "b" |}].
Proof.
  destruct (throttle_call_leading_or_trailing 100
              (Timing.throttled_run 100 (Timing.throttle Timing.fresh_env)
                 [Timing.Call "a"; Timing.Wait 10])
              "b"
              (throttled_run_reachable 100 Timing.fresh_env _ eq_refl
                 ltac:(vm_compute; discriminate))
              ltac:(vm_compute; split; [discriminate|reflexivity]))
    as (_ & T & _).
  destruct (T ltac:(vm_compute; discriminate)) as (_ & P & _).
  exact P.
Defined.

(** X21. A leading run does not cancel the trailing timer.  When a timer is
    pending and overdue and the wrapper is called more than [delay] after
    the last run, the call runs [func] at once and the timer, fired next,
    runs [func] again at the same instant, with the older arguments it
    holds: two runs back to back, the stale one last. *)
Theorem throttle_late_timer_runs_stale_call {A : Type} (delay : Z)
    (s : Timing.Throttled A) (t : Timing.Timer A) (b : A) :
  Timing.pending (Timing.th_env s) = [t] ->
  (Timing.t_due t <= Timing.now (Timing.th_env s))%Z ->
  (Timing.now (Timing.th_env s) - Timing.th_lastExecTime s > delay)%Z ->
  Timing.executed
    (Timing.th_env
       (Timing.throttled_run delay s [Timing.Call b; Timing.Fire (Timing.t_id t)])) =
  Timing.executed (Timing.th_env s) ++
    [(Timing.now (Timing.th_env s), b);
     (Timing.now (Timing.th_env s), Timing.t_args t)].
Proof.
  intros P Due G. simpl. unfold Timing.throttled_call.
  apply Z.gt_lt, Z.gtb_lt in G. rewrite G. simpl.
  erewrite take_due_one_timer by (simpl; exact P). simpl.
  destruct (decide _) as [_|N]; [|contradiction].
  apply Z.leb_le in Due. rewrite Due. simpl.
  now rewrite <- app_assoc.
Qed.

Lemma throttle_late_timer_runs_stale_call_witness :
  Timing.executed
    (Timing.th_env
       (Timing.throttled_run 100 (Timing.throttle Timing.fresh_env)
          [Timing.Call "a"; Timing.Wait 10; Timing.Call "b"; Timing.Wait 95;
           Timing.Call "c"; Timing.Fire 1])) =
    [(1000%Z, "a"); (1105%Z, "c"); (1105%Z, "b")].
Proof.
  exact (throttle_late_timer_runs_stale_call 100
           (Timing.throttled_run 100 (Timing.throttle Timing.fresh_env)
              [Timing.Call "a"; Timing.Wait 10; Timing.Call "b"; Timing.Wait 95])
           {| Timing.t_id := 1; Timing.t_due := 1100; Timing.t_args := "b" |} "c"
           eq_refl ltac:(vm_compute; discriminate) ltac:(vm_compute; reflexivity)).
Defined.

(** ** FAQ and bio toggles *)

Section WidgetProofs.

Import Widgets.

Lemma bind_eq {St A B} (m : M St A) (k : A -> M St B) (s s' : St) (a : A) :
  m s = (Ret a, s') -> bind m k s = k a s'.
Proof. unfold bind. now intros ->. Qed.

Lemma bind_gets {St A B} (f : St -> A) (k : A -> M St B) (s : St) :
  bind (gets f) k s = k (f s) s.
Proof. reflexivity. Qed.

Lemma bind_modify {St B} (f : St -> St) (k : unit -> M St B) (s : St) :
  bind (modify f) k s = k tt (f s).
Proof. reflexivity. Qed.

Lemma classes_add_class (cls : string) (e e' : ElemId) (d : Doc) :
  classes (add_class cls e d) e' =
    if decide (e = e') then {[cls]} ∪ classes d e' else classes d e'.
Proof.
  unfold classes, add_class. simpl. destruct (decide (e = e')) as [->|N].
  - rewrite lookup_insert_eq. reflexivity.
  - rewrite lookup_insert_ne by exact N. reflexivity.
Qed.

Lemma classes_remove_class (cls : string) (e e' : ElemId) (d : Doc) :
  classes (remove_class cls e d) e' =
    if decide (e = e') then classes d e' ∖ {[cls]} else classes d e'.
Proof.
  unfold classes, remove_class. simpl. destruct (decide (e = e')) as [->|N].
  - rewrite lookup_insert_eq. reflexivity.
  - rewrite lookup_insert_ne by exact N. reflexivity.
Qed.

Lemma classes_set_text (t : string) (e e' : ElemId) (d : Doc) :
  classes (set_text t e d) e' = classes d e'.
Proof. reflexivity. Qed.

Lemma classes_set_aria (v : string) (e e' : ElemId) (d : Doc) :
  classes (set_aria v e d) e' = classes d e'.
Proof. reflexivity. Qed.

Lemma classes_warn (id : DomId) (e' : ElemId) (d : Doc) :
  classes (warn id d) e' = classes d e'.
Proof. reflexivity. Qed.

Lemma in_add_class (c cls : string) (e e' : ElemId) (d : Doc) :
  c ∈ classes (add_class cls e d) e' <->
  (e = e' /\ c = cls) \/ c ∈ classes d e'.
Proof.
  rewrite classes_add_class. destruct (decide (e = e')) as [E|N].
  - rewrite elem_of_union, elem_of_singleton. tauto.
  - tauto.
Qed.

Lemma in_remove_class (c cls : string) (e e' : ElemId) (d : Doc) :
  c ∈ classes (remove_class cls e d) e' <->
  c ∈ classes d e' /\ ~ (e = e' /\ c = cls).
Proof.
  rewrite classes_remove_class. destruct (decide (e = e')) as [E|N].
  - rewrite elem_of_difference, elem_of_singleton. tauto.
  - tauto.
Qed.

Lemma safeGet_found (id : DomId) (d : Doc) (e : ElemId) :
  byId d id = Some e -> safeGetElementById id d = (Ret (Some e), d).
Proof.
  intros H. unfold safeGetElementById, bind, gets. simpl. now rewrite H.
Qed.

Lemma safeGet_missing (id : DomId) (d : Doc) :
  byId d id = None -> safeGetElementById id d = (Ret None, warn id d).
Proof.
  intros H. unfold safeGetElementById, bind, gets. simpl. now rewrite H.
Qed.

Lemma only_closes_refl (d : Doc) : only_closes d d.
Proof. unfold only_closes. auto. Qed.

Lemma only_closes_trans (d1 d2 d3 : Doc) :
  only_closes d1 d2 -> only_closes d2 d3 -> only_closes d1 d3.
Proof.
  intros (A1 & B1 & C1 & D1) (A2 & B2 & C2 & D2). unfold only_closes.
  repeat split; try congruence. auto.
Qed.

Lemma remove_only_closes (cls : string) (e : ElemId) (d : Doc) :
  only_closes d (remove_class cls e d).
Proof.
  unfold only_closes. repeat split; auto.
  intros e' c H. apply in_remove_class in H. tauto.
Qed.

Lemma warn_only_closes (id : DomId) (d : Doc) : only_closes d (warn id d).
Proof. unfold only_closes. simpl. auto. Qed.

Lemma text_only_closes (t : string) (e : ElemId) (d : Doc) :
  only_closes d (set_text t e d).
Proof. unfold only_closes. simpl. auto. Qed.

Lemma aria_only_closes (v : string) (e : ElemId) (d : Doc) :
  only_closes d (set_aria v e d).
Proof. unfold only_closes. simpl. auto. Qed.

Lemma safeGet_only_closes (id : DomId) (d : Doc) :
  exists d', safeGetElementById id d = (Ret (byId d id), d') /\ only_closes d d'.
Proof.
  destruct (byId d id) as [x|] eqn:B.
  - exists d. split; [now apply safeGet_found|apply only_closes_refl].
  - exists (warn id d). split; [now apply safeGet_missing|apply warn_only_closes].
Qed.

Lemma close_other_closes (index : Z) (item : ElemId) (i : nat) (d : Doc) :
  exists d', close_other index item i d = (Ret tt, d') /\
  only_closes d d' /\
  (Z.of_nat i <> index -> "open" ∉ classes d' item).
Proof.
  unfold close_other.
  destruct (Z.of_nat i =? index)%Z eqn:E; cbn [negb when].
  - apply Z.eqb_eq in E. exists d. split; [reflexivity|].
    split; [apply only_closes_refl|]. intros N. contradiction.
  - unfold classList_remove at 1. cbn [on_element]. rewrite bind_modify.
    pose proof (remove_only_closes "open" item d) as C1.
    assert (N1 : "open" ∉ classes (remove_class "open" item d) item).
    { intros H. apply in_remove_class in H. tauto. }
    set (d1 := remove_class "open" item d) in *.
    destruct (safeGet_only_closes (FaqIcon (Z.of_nat i)) d1) as (d2 & R2 & C2).
    rewrite (bind_eq _ _ d1 d2 _ R2). rewrite bind_gets.
    assert (exists d3,
              when (truthy (byId d1 (FaqIcon (Z.of_nat i))))
                (classList_remove "open" (byId d1 (FaqIcon (Z.of_nat i))) ;;
                 textContent_assign "+" (byId d1 (FaqIcon (Z.of_nat i)))) d2 =
                (Ret tt, d3) /\ only_closes d2 d3) as (d3 & R3 & C3).
    { destruct (byId d1 (FaqIcon (Z.of_nat i))) as [x|]; simpl.
      - eexists. split; [reflexivity|].
        eapply only_closes_trans; [apply remove_only_closes|apply text_only_closes].
      - exists d2. split; [reflexivity|apply only_closes_refl]. }
    rewrite (bind_eq _ _ d2 d3 tt R3).
    assert (exists d4,
              when (truthy (faqButton d2 (Z.of_nat i)))
                (set_aria_expanded "false" (faqButton d2 (Z.of_nat i))) d3 =
                (Ret tt, d4) /\ only_closes d3 d4) as (d4 & R4 & C4).
    { destruct (faqButton d2 (Z.of_nat i)) as [x|]; simpl.
      - eexists. split; [reflexivity|apply aria_only_closes].
      - exists d3. split; [reflexivity|apply only_closes_refl]. }
    exists d4. split; [exact R4|].
    assert (C : only_closes d1 d4).
    { eapply only_closes_trans; [exact C2|].
      eapply only_closes_trans; [exact C3|exact C4]. }
    split.
    + eapply only_closes_trans; [exact C1|exact C].
    + intros _ H. apply N1. destruct C as (Cc & _). now apply Cc.
Qed.

Lemma close_loop (index : Z) (items : list ElemId) (i : nat) (d : Doc) :
  exists d', forEach_from i items (close_other index) d = (Ret tt, d') /\
  only_closes d d' /\
  (forall j item, items !! j = Some item -> Z.of_nat (i + j) <> index ->
                  "open" ∉ classes d' item).
Proof.
  revert i d. induction items as [|x items IH]; intros i d; simpl.
  - exists d. split; [reflexivity|]. split; [apply only_closes_refl|].
    intros j item H. inversion H.
  - destruct (close_other_closes index x i d) as (d1 & E & C & N).
    rewrite (bind_eq _ _ d d1 tt E).
    destruct (IH (S i) d1) as (d' & R' & C' & N').
    exists d'. split; [exact R'|]. split; [eapply only_closes_trans; eauto|].
    intros [|j] item H Hne; simpl in H.
    + injection H as <-. rewrite Nat.add_0_r in Hne.
      intros Ho. apply (N Hne). destruct C' as (Cc & _). now apply Cc.
    + apply (N' j item H). now replace (S i + j) with (i + S j) by lia.
Qed.

Lemma toggleFAQ_close_eq (index : Z) (d : Doc) (a ic b : ElemId) :
  byId d (FaqAnswer index) = Some a ->
  byId d (FaqIcon index) = Some ic ->
  faqButton d index = Some b ->
  "open" ∈ classes d a ->
  toggleFAQ index d =
    (Ret tt, set_aria "false" b
               (set_text "+" ic (remove_class "open" ic (remove_class "open" a d)))).
Proof.
  intros Ha Hi Hb Ho. unfold toggleFAQ.
  rewrite (bind_eq _ _ _ _ _ (safeGet_found _ _ _ Ha)).
  rewrite (bind_eq _ _ _ _ _ (safeGet_found _ _ _ Hi)).
  rewrite bind_gets, Hb. cbn [truthy negb orb].
  unfold classList_contains. cbn [on_element]. rewrite bind_gets.
  unfold has_class. rewrite (bool_decide_eq_true_2 _ Ho). reflexivity.
Qed.

Lemma toggleFAQ_open_eq (index : Z) (d : Doc) (a ic b : ElemId) :
  byId d (FaqAnswer index) = Some a ->
  byId d (FaqIcon index) = Some ic ->
  faqButton d index = Some b ->
  "open" ∉ classes d a ->
  exists d1,
    forEach_from 0 (faqAnswers d) (close_other index) d = (Ret tt, d1) /\
    toggleFAQ index d =
      (Ret tt, set_aria "true" b
                 (set_text "−" ic (add_class "open" ic (add_class "open" a d1)))).
Proof.
  intros Ha Hi Hb Ho. unfold toggleFAQ.
  rewrite (bind_eq _ _ _ _ _ (safeGet_found _ _ _ Ha)).
  rewrite (bind_eq _ _ _ _ _ (safeGet_found _ _ _ Hi)).
  rewrite bind_gets, Hb. cbn [truthy negb orb].
  unfold classList_contains. cbn [on_element]. rewrite bind_gets.
  unfold has_class. rewrite (bool_decide_eq_false_2 _ Ho).
  rewrite bind_gets.
  destruct (close_loop index (faqAnswers d) 0 d) as (d1 & R & _).
  exists d1. split; [exact R|].
  rewrite (bind_eq _ _ _ _ _ R). reflexivity.
Qed.

(** X22. [toggleFAQ] on a closed entry whose answer, icon and button exist
    returns normally and opens it: answer and icon carry [open], the icon
    reads "−", the button has aria-expanded "true".  Nothing else gains
    [open], and every answer the page lists at a position other than [index]
    is closed afterwards, unless it is the opened answer or icon itself. *)
Theorem toggleFAQ_opens_one_entry (index : Z) (d : Doc) (a ic b : ElemId) :
  byId d (FaqAnswer index) = Some a ->
  byId d (FaqIcon index) = Some ic ->
  faqButton d index = Some b ->
  "open" ∉ classes d a ->
  fst (toggleFAQ index d) = Ret tt /\
  ("open" ∈ classes (snd (toggleFAQ index d)) a) /\
  ("open" ∈ classes (snd (toggleFAQ index d)) ic) /\
  textContent (snd (toggleFAQ index d)) !! ic = Some "−" /\
  ariaExpanded (snd (toggleFAQ index d)) !! b = Some "true" /\
  (forall e, "open" ∈ classes (snd (toggleFAQ index d)) e ->
             e = a \/ e = ic \/ "open" ∈ classes d e) /\
  (forall j item, faqAnswers d !! j = Some item -> Z.of_nat j <> index ->
                  item <> a -> item <> ic ->
                  "open" ∉ classes (snd (toggleFAQ index d)) item).
Proof.
  intros Ha Hi Hb Ho.
  destruct (toggleFAQ_open_eq index d a ic b Ha Hi Hb Ho) as (d1 & R & ->).
  destruct (close_loop index (faqAnswers d) 0 d) as (d1' & R' & C & N).
  rewrite R in R'. injection R' as <-. cbn [fst snd].
  split; [reflexivity|]. split.
  { rewrite classes_set_aria, classes_set_text. apply in_add_class.
    destruct (decide (ic = a)) as [->|]; [now left|].
    right. apply in_add_class. now left. }
  split.
  { rewrite classes_set_aria, classes_set_text. apply in_add_class. now left. }
  split.
  { simpl. apply lookup_insert_eq. }
  split.
  { simpl. apply lookup_insert_eq. }
  split.
  - intros e H. rewrite classes_set_aria, classes_set_text in H.
    apply in_add_class in H as [[<- _]|H]; [tauto|].
    apply in_add_class in H as [[<- _]|H]; [tauto|].
    right. right. destruct C as (Cc & _). now apply Cc.
  - intros j item Hj Hne Na Ni H.
    rewrite classes_set_aria, classes_set_text in H.
    apply in_add_class in H as [[E _]|H]; [congruence|].
    apply in_add_class in H as [[E _]|H]; [congruence|].
    now apply (N j item Hj).
Qed.

Lemma toggleFAQ_opens_one_entry_witness :
  fst (toggleFAQ 0 sample) = Ret tt /\
  ("open" ∈ classes (snd (toggleFAQ 0 sample)) 10) /\
  "open" ∉ classes (snd (toggleFAQ 0 sample)) 11.
Proof.
  assert (N : "open" ∉ classes sample 10) by (vm_compute; set_solver).
  pose proof (toggleFAQ_opens_one_entry 0 sample 10 20 30
                eq_refl eq_refl eq_refl N) as (R & A & _ & _ & _ & _ & O).
  split; [exact R|]. split; [exact A|].
  apply (O 1%nat 11); [reflexivity|lia|lia|lia].
Defined.

(** X23. [toggleFAQ] on an open entry closes it and touches nothing but that
    entry: answer and icon lose [open], the icon reads "+", the button has
    aria-expanded "false"; the classes of every other element, the text of
    every other element, the aria-expanded of every other element and the
    console are as before. *)
Theorem toggleFAQ_closes_only_this_entry (index : Z) (d : Doc) (a ic b : ElemId) :
  byId d (FaqAnswer index) = Some a ->
  byId d (FaqIcon index) = Some ic ->
  faqButton d index = Some b ->
  "open" ∈ classes d a ->
  fst (toggleFAQ index d) = Ret tt /\
  ("open" ∉ classes (snd (toggleFAQ index d)) a) /\
  ("open" ∉ classes (snd (toggleFAQ index d)) ic) /\
  textContent (snd (toggleFAQ index d)) !! ic = Some "+" /\
  ariaExpanded (snd (toggleFAQ index d)) !! b = Some "false" /\
  (forall e, e <> a -> e <> ic ->
             classes (snd (toggleFAQ index d)) e = classes d e) /\
  (forall e, e <> ic ->
             textContent (snd (toggleFAQ index d)) !! e = textContent d !! e) /\
  (forall e, e <> b ->
             ariaExpanded (snd (toggleFAQ index d)) !! e = ariaExpanded d !! e) /\
  warnings (snd (toggleFAQ index d)) = warnings d.
Proof.
  intros Ha Hi Hb Ho.
  rewrite (toggleFAQ_close_eq index d a ic b Ha Hi Hb Ho). cbn [fst snd].
  split; [reflexivity|]. split.
  { rewrite classes_set_aria, classes_set_text. intros H.
    apply in_remove_class in H as [H _]. apply in_remove_class in H. tauto. }
  split.
  { rewrite classes_set_aria, classes_set_text. intros H.
    apply in_remove_class in H. tauto. }
  split.
  { simpl. apply lookup_insert_eq. }
  split.
  { simpl. apply lookup_insert_eq. }
  split.
  { intros e Na Ni. rewrite classes_set_aria, classes_set_text.
    rewrite !classes_remove_class.
    destruct (decide (ic = e)); [congruence|].
    destruct (decide (a = e)); [congruence|reflexivity]. }
  split.
  { intros e Ni. simpl. now apply lookup_insert_ne. }
  split.
  { intros e Nb. simpl. now apply lookup_insert_ne. }
  reflexivity.
Qed.

Lemma toggleFAQ_closes_only_this_entry_witness :
  fst (toggleFAQ 1 sample) = Ret tt /\
  ("open" ∉ classes (snd (toggleFAQ 1 sample)) 11) /\
  "faq-answer" ∈ classes (snd (toggleFAQ 1 sample)) 11.
Proof.
  assert (O : "open" ∈ classes sample 11) by (vm_compute; set_solver).
  pose proof (toggleFAQ_closes_only_this_entry 1 sample 11 21 31
                eq_refl eq_refl eq_refl O) as (R & A & _).
  split; [exact R|]. split; [exact A|].
  rewrite (toggleFAQ_close_eq 1 sample 11 21 31 eq_refl eq_refl eq_refl O).
  vm_compute. set_solver.
Defined.

Lemma safeGet_eq (id : DomId) (d : Doc) :
  safeGetElementById id d =
    (Ret (byId d id), match byId d id with Some _ => d | None => warn id d end).
Proof.
  destruct (byId d id) as [x|] eqn:B.
  - now apply safeGet_found.
  - now apply safeGet_missing.
Qed.

(** X24. [toggleFAQ] for an entry whose answer, icon or button is missing
    returns normally and changes no class, text or attribute; the console
    gets one warning for each of the two ids that was not found, the answer's
    first. *)
Theorem toggleFAQ_missing_element (index : Z) (d : Doc) :
  byId d (FaqAnswer index) = None \/ byId d (FaqIcon index) = None \/
  faqButton d index = None ->
  fst (toggleFAQ index d) = Ret tt /\
  classList (snd (toggleFAQ index d)) = classList d /\
  textContent (snd (toggleFAQ index d)) = textContent d /\
  ariaExpanded (snd (toggleFAQ index d)) = ariaExpanded d /\
  warnings (snd (toggleFAQ index d)) =
    warnings d ++ warned (FaqAnswer index) d ++ warned (FaqIcon index) d.
Proof.
  intros H. unfold toggleFAQ, warned.
  rewrite (bind_eq _ _ _ _ _ (safeGet_eq _ _)).
  rewrite (bind_eq _ _ _ _ _ (safeGet_eq _ _)).
  rewrite bind_gets.
  assert (B : forall id, byId (match byId d (FaqAnswer index) with
                               | Some _ => d
                               | None => warn (FaqAnswer index) d
                               end) id = byId d id).
  { intros id. now destruct (byId d (FaqAnswer index)). }
  rewrite B.
  destruct (byId d (FaqAnswer index)) as [a|] eqn:Ea;
    destruct (byId d (FaqIcon index)) as [ic|] eqn:Ei; cbn [truthy negb orb];
    try (cbn; rewrite ?app_nil_r, <- ?app_assoc; auto; fail).
  cbn [faqButton]. destruct (faqButton d index) as [b|] eqn:Eb.
  - exfalso. destruct H as [H|[H|H]]; discriminate.
  - cbn. rewrite app_nil_r. auto.
Qed.

Lemma toggleFAQ_missing_element_witness :
  fst (toggleFAQ 7 sample) = Ret tt /\
  classList (snd (toggleFAQ 7 sample)) = classList sample /\
  warnings (snd (toggleFAQ 7 sample)) = [FaqAnswer 7; FaqIcon 7].
Proof.
  pose proof (toggleFAQ_missing_element 7 sample (or_introl eq_refl))
    as (R & C & _ & _ & W).
  split; [exact R|]. split; [exact C|exact W].
Defined.

Lemma read_more_eq (el : option ElemId) (d : Doc) :
  read_more_of el d =
    (Ret (match el with Some e => readMoreLink d e | None => None end), d).
Proof. now destruct el. Qed.

Lemma toggleBio_eq (m : string) (d : Doc) (p f : ElemId) :
  byId d (BioPreview m) = Some p ->
  byId d (BioFull m) = Some f ->
  toggleBio m d =
    (Ret tt,
     if bool_decide ("hide" ∈ classes d p)
     then bio_aria (readMoreLink d p) (readMoreLink d f) "false" "true"
            (remove_class "show" f (remove_class "hide" p d))
     else bio_aria (readMoreLink d p) (readMoreLink d f) "true" "false"
            (add_class "show" f (add_class "hide" p d))).
Proof.
  intros Hp Hf. unfold toggleBio.
  rewrite (bind_eq _ _ _ _ _ (safeGet_found _ _ _ Hp)).
  rewrite (bind_eq _ _ _ _ _ (safeGet_found _ _ _ Hf)).
  rewrite (bind_eq _ _ _ _ _ (read_more_eq _ _)).
  rewrite (bind_eq _ _ _ _ _ (read_more_eq _ _)).
  cbn [truthy negb orb].
  unfold classList_contains. cbn [on_element]. rewrite bind_gets.
  unfold has_class, bio_aria.
  destruct (bool_decide ("hide" ∈ classes d p));
    destruct (readMoreLink d p), (readMoreLink d f); reflexivity.
Qed.

Lemma classes_bio_aria (pb fb : option ElemId) (vp vf : string) (d : Doc)
      (e : ElemId) :
  classes (bio_aria pb fb vp vf d) e = classes d e.
Proof. now destruct pb, fb. Qed.

Lemma byId_bio_aria (pb fb : option ElemId) (vp vf : string) (d : Doc) :
  byId (bio_aria pb fb vp vf d) = byId d.
Proof. now destruct pb, fb. Qed.

(** X25. [toggleBio] for a member whose preview and full bio exist returns
    normally and flips the preview between hidden and shown; afterwards the
    full bio carries [show] exactly when the preview carries [hide], whatever
    the two looked like before, and no other class of any element changes.  A
    second toggle brings the preview back. *)
Theorem toggleBio_swaps_preview_and_full (m : string) (d : Doc) (p f : ElemId) :
  byId d (BioPreview m) = Some p ->
  byId d (BioFull m) = Some f ->
  fst (toggleBio m d) = Ret tt /\
  ("hide" ∈ classes (snd (toggleBio m d)) p <-> "hide" ∉ classes d p) /\
  ("show" ∈ classes (snd (toggleBio m d)) f <->
   "hide" ∈ classes (snd (toggleBio m d)) p) /\
  (forall e c, ~ (e = p /\ c = "hide") -> ~ (e = f /\ c = "show") ->
               (c ∈ classes (snd (toggleBio m d)) e <-> c ∈ classes d e)) /\
  ("hide" ∈ classes (snd (toggleBio m (snd (toggleBio m d)))) p <->
   "hide" ∈ classes d p).
Proof.
  intros Hp Hf.
  assert (Step : forall d0, byId d0 (BioPreview m) = Some p ->
                            byId d0 (BioFull m) = Some f ->
            ("hide" ∈ classes (snd (toggleBio m d0)) p <-> "hide" ∉ classes d0 p) /\
            byId (snd (toggleBio m d0)) = byId d0).
  { intros d0 Hp0 Hf0. rewrite (toggleBio_eq m d0 p f Hp0 Hf0). cbn [snd].
    destruct (bool_decide ("hide" ∈ classes d0 p)) eqn:E.
    - apply bool_decide_eq_true_1 in E. rewrite classes_bio_aria, byId_bio_aria.
      split; [|reflexivity]. rewrite !in_remove_class.
      split; [intros [[_ H] _]; exfalso; apply H; auto|tauto].
    - apply bool_decide_eq_false_1 in E. rewrite classes_bio_aria, byId_bio_aria.
      split; [|reflexivity]. rewrite !in_add_class.
      split; [tauto|intros _; right; left; auto]. }
  destruct (Step d Hp Hf) as (S1 & B1).
  assert (S2 := Step (snd (toggleBio m d))).
  rewrite B1 in S2. destruct (S2 Hp Hf) as (S2' & _). clear S2.
  split; [now rewrite (toggleBio_eq m d p f Hp Hf)|].
  split; [exact S1|]. split; [|split].
  - rewrite (toggleBio_eq m d p f Hp Hf). cbn [snd].
    destruct (bool_decide ("hide" ∈ classes d p)) eqn:E;
      rewrite !classes_bio_aria.
    + rewrite !in_remove_class.
      split; [intros [_ H]; exfalso; apply H; auto
             |intros [[_ H] _]; exfalso; apply H; auto].
    + rewrite !in_add_class.
      split; [intros _; right; left; auto|intros _; left; auto].
  - intros e c Np Nf. rewrite (toggleBio_eq m d p f Hp Hf). cbn [snd].
    destruct (bool_decide ("hide" ∈ classes d p)) eqn:E;
      rewrite !classes_bio_aria.
    + rewrite !in_remove_class.
      split; [tauto|]. intros H. split; [split; [exact H|]|].
      * intros [<- ->]. apply Np. auto.
      * intros [<- ->]. apply Nf. auto.
    + rewrite !in_add_class.
      split; [|tauto]. intros [[<- ->]|[[<- ->]|H]]; [exfalso; apply Nf; auto
                                                     |exfalso; apply Np; auto
                                                     |exact H].
  - rewrite S2', S1. destruct (decide ("hide" ∈ classes d p)); tauto.
Qed.

Lemma toggleBio_swaps_preview_and_full_witness :
  fst (toggleBio "ada" sample) = Ret tt /\
  ("show" ∈ classes (snd (toggleBio "ada" sample)) 41 <->
   "hide" ∈ classes (snd (toggleBio "ada" sample)) 40).
Proof.
  pose proof (toggleBio_swaps_preview_and_full "ada" sample 40 41
                eq_refl eq_refl) as (R & _ & S & _).
  split; [exact R|exact S].
Defined.

End WidgetProofs.

(** ** The theme over clicks and colour-scheme changes *)

Section ThemeHandlers.

Import ThemeLifetime.

Lemma theme_constructed (w : World) (cl : gmap ElemId (gset string)) (b : ElemId) :
  getElementById w "theme-toggle" = Some b ->
  exists s0, constructed w cl = Some s0 /\ Inv s0 /\
             Theme.button (this s0) = Some b /\
             classList (page s0) = cl /\ timeouts (page s0) = [] /\
             (localStorage (world (page s0)) = None <-> localStorage w = None).
Proof.
  intros B. unfold constructed, Theme.constructor, Theme.init, Theme.applyTheme,
    Theme.storeTheme, bind, gets, modify, ret, new_function, addEventListener.
  simpl. rewrite B. simpl.
  assert (N : match Theme.getStoredTheme w with
              | Some (String a t) => String a t
              | _ => if matchMedia w "(prefers-color-scheme: dark)"
                     then "dark" else "light"
              end <> "").
  { destruct (Theme.getStoredTheme w) as [[|a t]|];
      [destruct (matchMedia w _)| |destruct (matchMedia w _)]; discriminate. }
  destruct (localStorage w) as [st|] eqn:L; simpl;
    repeat (destruct (decide _)); simpl;
    (eexists; split; [reflexivity|]; split;
     [split; simpl; rewrite ?L; simpl;
      [discriminate
      |constructor
      |reflexivity
      |exact N
      |first [intros _; unfold Theme.getStoredTheme; simpl; apply lookup_insert_eq
             |congruence]]
     |simpl; rewrite ?L; simpl; repeat split; auto; discriminate]).
Qed.

Lemma applyTheme_eq (t : string) (c : Theme.Controller) (w : World) :
  Theme.applyTheme t c w =
    (Ret (Theme.set_currentTheme t c),
     match localStorage w with
     | Some st => set_localStorage (Some (<["theme" := t]> st))
                    (set_dataTheme (Some t) w)
     | None => set_dataTheme (Some t) w
     end).
Proof.
  unfold Theme.applyTheme, Theme.storeTheme, bind, modify, ret. simpl.
  reflexivity.
Qed.

Lemma flip_named (t : string) : flip t <> "".
Proof. unfold flip. destruct (String.eqb t "dark"); discriminate. Qed.

Lemma toggleTheme_eq (c : Theme.Controller) (p : Page) (b : ElemId) :
  Theme.button c = Some b ->
  toggleTheme c p =
    (Ret (Theme.set_currentTheme (flip (Theme.currentTheme c)) c),
     {| world := snd (Theme.applyTheme (flip (Theme.currentTheme c)) c (world p));
        classList := <[b := {["toggling"]} ∪ classes p b]> (classList p);
        timeouts := timeouts p ++ [Some b] |}).
Proof.
  intros B. unfold toggleTheme, button_add, on_world. rewrite B.
  unfold bind, modify, ret. cbv zeta. cbn [world set_classes].
  rewrite applyTheme_eq. cbn. rewrite B. reflexivity.
Qed.

Lemma applied_Inv (t : string) (c : Theme.Controller) (w : World)
      (cl : gmap ElemId (gset string)) (ts : list (option ElemId)) :
  Theme.button c <> None -> t <> "" ->
  Forall (fun b => b = Theme.button c) ts ->
  Inv {| this := Theme.set_currentTheme t c;
         page := {| world := snd (Theme.applyTheme t c w);
                    classList := cl; timeouts := ts |} |}.
Proof.
  intros B N F. rewrite applyTheme_eq. split; simpl; auto.
  - now destruct (localStorage w).
  - destruct (localStorage w) as [st|] eqn:L; simpl.
    + intros _. unfold Theme.getStoredTheme. simpl. apply lookup_insert_eq.
    + rewrite L. congruence.
Qed.

Lemma scheme_change_eq (m : bool) (s : Sys) :
  step (SchemeChange m) s =
    match Theme.getStoredTheme (world (page s)) with
    | Some (String _ _) =>
        {| this := this s;
           page := {| world := world (page s); classList := classList (page s);
                      timeouts := timeouts (page s) |} |}
    | _ =>
        {| this := Theme.set_currentTheme (if m then "dark" else "light") (this s);
           page := {| world := snd (Theme.applyTheme (if m then "dark" else "light")
                                      (this s) (world (page s)));
                      classList := classList (page s);
                      timeouts := timeouts (page s) |} |}
    end.
Proof.
  cbn [step]. unfold on_world, on_scheme_change, bind, gets.
  destruct (Theme.getStoredTheme (world (page s))) as [[|a t]|];
    rewrite ?applyTheme_eq; reflexivity.
Qed.

Lemma theme_step_Inv (ev : Event) (s : Sys) : Inv s -> Inv (step ev s).
Proof.
  intros I. destruct (Theme.button (this s)) as [b|] eqn:B;
    [|exfalso; now apply (inv_button s I)].
  destruct ev as [|m|].
  - cbn [step]. rewrite (toggleTheme_eq _ _ b B). cbn [after].
    rewrite <- B.
    apply applied_Inv; [rewrite B; discriminate|apply flip_named|].
    apply Forall_app. split; [apply (inv_pending s I)|].
    constructor; [reflexivity|constructor].
  - rewrite scheme_change_eq.
    assert (A : Inv {| this := Theme.set_currentTheme (if m then "dark" else "light")
                                 (this s);
                       page := {| world := snd (Theme.applyTheme
                                                  (if m then "dark" else "light")
                                                  (this s) (world (page s)));
                                  classList := classList (page s);
                                  timeouts := timeouts (page s) |} |}).
    { apply applied_Inv; [rewrite B; discriminate
                         |destruct m; discriminate
                         |apply (inv_pending s I)]. }
    destruct (Theme.getStoredTheme (world (page s))) as [[|a t]|]; try exact A.
    destruct I as [I1 I2 I3 I4 I5]. split; simpl; auto.
  - cbn [step]. destruct (timeouts (page s)) as [|x rest] eqn:T; [exact I|].
    destruct I as [I1 I2 I3 I4 I5]. rewrite T in I2.
    apply Forall_cons in I2 as [-> I2]. rewrite B. simpl.
    split; simpl; auto.
Qed.

Lemma theme_run_Inv (es : list Event) (s : Sys) : Inv s -> Inv (run s es).
Proof.
  revert s. induction es as [|ev es IH]; intros s I; simpl; [exact I|].
  apply IH. now apply theme_step_Inv.
Qed.

Lemma theme_reachable_Inv (s : Sys) : reachable s -> Inv s.
Proof.
  intros (w & cl & b & s0 & es & B & C & ->).
  destruct (theme_constructed w cl b B) as (s0' & C' & I & _).
  rewrite C in C'. injection C' as <-. now apply theme_run_Inv.
Qed.

Lemma theme_reachable_step (ev : Event) (s : Sys) :
  reachable s -> reachable (step ev s).
Proof.
  intros (w & cl & b & s0 & es & B & C & ->).
  exists w, cl, b, s0, (es ++ [ev]). split; [exact B|]. split; [exact C|].
  unfold run. now rewrite foldl_app.
Qed.

Lemma theme_constructed_reachable (w : World) (cl : gmap ElemId (gset string))
      (b : ElemId) (s0 : Sys) (es : list Event) :
  getElementById w "theme-toggle" = Some b ->
  constructed w cl = Some s0 -> reachable (run s0 es).
Proof. intros B C. exists w, cl, b, s0, es. auto. Qed.

Lemma scheme_change_ignored (m : bool) (s : Sys) :
  Inv s -> localStorage (world (page s)) <> None ->
  step (SchemeChange m) s = s.
Proof.
  intros I L. rewrite scheme_change_eq.
  rewrite (inv_stored s I L). pose proof (inv_named s I) as N.
  destruct (Theme.currentTheme (this s)) as [|a t]; [congruence|].
  destruct s as [c [w cl ts]]. reflexivity.
Qed.

Lemma theme_step_storage (ev : Event) (s : Sys) :
  Inv s -> localStorage (world (page s)) <> None ->
  localStorage (world (page (step ev s))) <> None.
Proof.
  intros I L. destruct (Theme.button (this s)) as [b|] eqn:B;
    [|exfalso; now apply (inv_button s I)].
  destruct ev as [|m|].
  - cbn [step]. rewrite (toggleTheme_eq _ _ b B). cbn [after page world].
    rewrite applyTheme_eq. cbn [snd].
    destruct (localStorage (world (page s))); [discriminate|congruence].
  - now rewrite scheme_change_ignored.
  - cbn [step]. destruct (timeouts (page s)) as [|x rest] eqn:T; [exact L|].
    destruct I as [I1 I2 I3 I4 I5]. rewrite T in I2.
    apply Forall_cons in I2 as [-> I2]. rewrite B. exact L.
Qed.

Lemma theme_step_current (ev : Event) (s : Sys) :
  Inv s -> localStorage (world (page s)) <> None ->
  Theme.currentTheme (this (step ev s)) =
    if decide (ev = Click) then flip (Theme.currentTheme (this s))
    else Theme.currentTheme (this s).
Proof.
  intros I L. destruct (Theme.button (this s)) as [b|] eqn:B;
    [|exfalso; now apply (inv_button s I)].
  destruct ev as [|m|].
  - cbn [step]. rewrite (toggleTheme_eq _ _ b B). reflexivity.
  - now rewrite scheme_change_ignored.
  - cbn [step]. now destruct (timeouts (page s)).
Qed.

Lemma theme_run_storage (es : list Event) (s : Sys) :
  Inv s -> localStorage (world (page s)) <> None ->
  localStorage (world (page (run s es))) <> None.
Proof.
  revert s. induction es as [|ev es IH]; intros s I L; [exact L|].
  change (run s (ev :: es)) with (run (step ev s) es).
  apply IH; [now apply theme_step_Inv|now apply theme_step_storage].
Qed.

Lemma iter_flip_shift (n : nat) (t : string) :
  Nat.iter n flip (flip t) = flip (Nat.iter n flip t).
Proof. induction n as [|n IH]; simpl; [reflexivity|now rewrite IH]. Qed.

Lemma theme_run_current (es : list Event) (s : Sys) :
  Inv s -> localStorage (world (page s)) <> None ->
  Theme.currentTheme (this (run s es)) =
    Nat.iter (clicks es) flip (Theme.currentTheme (this s)).
Proof.
  revert s. induction es as [|ev es IH]; intros s I L; [reflexivity|].
  change (run s (ev :: es)) with (run (step ev s) es).
  rewrite (IH _ (theme_step_Inv ev s I) (theme_step_storage ev s I L)).
  rewrite (theme_step_current ev s I L). unfold clicks.
  destruct (decide (ev = Click)) as [E|N].
  - rewrite filter_cons_True by exact E. simpl. apply iter_flip_shift.
  - rewrite filter_cons_False by exact N. reflexivity.
Qed.

(** X26. The system colour scheme is followed only while storage fails.  In
    every state of a controller that found its button: with working storage
    a colour-scheme change leaves the whole state as it is, because the
    constructor itself has stored a theme before the handler was registered;
    when [localStorage] throws, the change sets the current theme and the
    [data-theme] attribute to the system's scheme. *)
Theorem scheme_change_counts_only_without_storage (s : Sys) (m : bool) :
  reachable s ->
  match localStorage (world (page s)) with
  | Some _ => step (SchemeChange m) s = s
  | None =>
      Theme.currentTheme (this (step (SchemeChange m) s)) =
        (if m then "dark" else "light") /\
      dataTheme (world (page (step (SchemeChange m) s))) =
        Some (if m then "dark" else "light")
  end.
Proof.
  intros R. pose proof (theme_reachable_Inv s R) as I.
  rewrite scheme_change_eq.
  destruct (localStorage (world (page s))) as [st|] eqn:L.
  - rewrite <- scheme_change_eq. apply scheme_change_ignored; [exact I|].
    rewrite L. discriminate.
  - unfold Theme.getStoredTheme. rewrite L. rewrite applyTheme_eq.
    cbn. rewrite L. cbn. auto.
Qed.

Lemma theme_sample_reachable (stored : option string) (dark : bool)
      (es : list Event) :
  exists s0, constructed (with_toggle stored dark) ∅ = Some s0 /\
             reachable (run s0 es).
Proof.
  destruct (theme_constructed (with_toggle stored dark) ∅ 9 eq_refl)
    as (s0 & C & _).
  exists s0. split; [exact C|].
  now apply (theme_constructed_reachable (with_toggle stored dark) ∅ 9).
Qed.

Lemma scheme_change_counts_only_without_storage_witness :
  exists s, reachable s /\ step (SchemeChange true) s = s.
Proof.
  destruct (theme_sample_reachable None false [Click]) as (s0 & C & R).
  exists (run s0 [Click]). split; [exact R|].
  pose proof (scheme_change_counts_only_without_storage _ true R) as H.
  injection C as <-. exact H.
Defined.

(** X27. With working storage the theme depends on the clicks alone.  After
    any sequence of clicks, colour-scheme changes and timer firings, the
    current theme is the starting theme flipped once per click, whatever the
    system's colour scheme did in between; the [data-theme] attribute and the
    stored theme agree with it. *)
Theorem theme_counts_clicks (w : World) (cl : gmap ElemId (gset string))
    (b : ElemId) (s0 : Sys) (es : list Event) :
  getElementById w "theme-toggle" = Some b ->
  localStorage w <> None ->
  constructed w cl = Some s0 ->
  Theme.currentTheme (this (run s0 es)) =
    Nat.iter (clicks es) flip (Theme.currentTheme (this s0)) /\
  dataTheme (world (page (run s0 es))) =
    Some (Theme.currentTheme (this (run s0 es))) /\
  Theme.getStoredTheme (world (page (run s0 es))) =
    Some (Theme.currentTheme (this (run s0 es))).
Proof.
  intros B L C.
  destruct (theme_constructed w cl b B) as (s0' & C' & I & _ & _ & _ & St).
  rewrite C in C'. injection C' as <-.
  assert (L0 : localStorage (world (page s0)) <> None) by (rewrite St; exact L).
  pose proof (theme_run_Inv es s0 I) as Ir.
  split; [now apply theme_run_current|]. split; [apply (inv_attribute _ Ir)|].
  apply (inv_stored _ Ir). now apply theme_run_storage.
Qed.

Lemma theme_counts_clicks_witness :
  exists s0,
    constructed (with_toggle (Some "dark") false) ∅ = Some s0 /\
    Theme.currentTheme
      (this (run s0 [Click; SchemeChange true; Click; Timeout; Click])) = "light".
Proof.
  destruct (theme_constructed (with_toggle (Some "dark") false) ∅ 9 eq_refl)
    as (s0 & C & _).
  exists s0. split; [exact C|].
  assert (L : localStorage (with_toggle (Some "dark") false) <> None)
    by discriminate.
  destruct (theme_counts_clicks (with_toggle (Some "dark") false) ∅ 9 s0
              [Click; SchemeChange true; Click; Timeout; Click] eq_refl L C)
    as (H & _).
  rewrite H. injection C as <-. reflexivity.
Defined.

End ThemeHandlers.

(** ** Field validation *)

Section FieldValidation.

Import Validation.

Lemma one_or_more_spec (ok : CodeUnit -> bool) (k : nat -> JsString -> bool)
      (pos : nat) (rest : JsString) :
  one_or_more ok k pos rest = true <->
  exists A R, rest = A ++ R /\ A <> [] /\ Forall (fun c => ok c = true) A /\
              k (pos + length A)%nat R = true.
Proof.
  revert pos. induction rest as [|c r IH]; intros pos; simpl.
  - split; [discriminate|]. intros (A & R & E & N & _).
    destruct A; [congruence|discriminate].
  - rewrite andb_true_iff, orb_true_iff, IH. split.
    + intros (Hc & [(A & R & -> & N & F & K)|K]).
      * exists (c :: A), R. repeat split; [discriminate|now constructor|].
        simpl. now rewrite Nat.add_succ_r.
      * exists [c], r. repeat split; [discriminate|now repeat constructor|].
        simpl. now rewrite Nat.add_1_r.
    + intros (A & R & E & N & F & K). destruct A as [|a A]; [congruence|].
      simpl in E. injection E as -> ->. apply Forall_cons in F as [Hc F].
      split; [exact Hc|]. destruct A as [|a' A].
      * right. simpl in K. now rewrite Nat.add_1_r in K.
      * left. exists (a' :: A), R. repeat split; [discriminate|exact F|].
        simpl in K |- *. now rewrite Nat.add_succ_r in K.
Qed.

Lemma plain_spec (c : CodeUnit) :
  atom_matches (NoneOf [Space; Lit at_sign]) c = true <-> plain c.
Proof.
  unfold plain. simpl. rewrite orb_false_r, negb_true_iff, orb_false_iff.
  rewrite N.eqb_neq. reflexivity.
Qed.

Lemma plain_Forall (A : JsString) :
  Forall (fun c => atom_matches (NoneOf [Space; Lit at_sign]) c = true) A <->
  Forall plain A.
Proof. apply Forall_iff. intros c. apply plain_spec. Qed.

Lemma one_spec (x : CodeUnit) (ts : list Term) (pos : nat) (rest : JsString) :
  match_from (One (Chr x) :: ts) pos rest = true <->
  exists r, rest = x :: r /\ match_from ts (S pos) r = true.
Proof.
  simpl. destruct rest as [|c r].
  - split; [discriminate|]. intros (? & ? & _). discriminate.
  - rewrite andb_true_iff, N.eqb_eq. split.
    + intros (-> & H). now exists r.
    + intros (r' & E & H). injection E as -> ->. auto.
Qed.

Lemma eol_spec (pos : nat) (rest : JsString) :
  match_from [Eol] pos rest = true <-> rest = [].
Proof. simpl. destruct rest; split; congruence. Qed.

(** The pattern after its [^]. *)
Lemma email_tail_spec (pos : nat) (rest : JsString) :
  match_from (tail emailRegex) pos rest = true <-> email_shape rest.
Proof.
  unfold emailRegex, email_shape. cbn [tail].
  change (match_from (OneOrMore ?a :: ?ts) ?p ?r)
    with (one_or_more (atom_matches a) (match_from ts) p r).
  rewrite one_or_more_spec. split.
  - intros (A & R & -> & NA & FA & K).
    apply one_spec in K as (R1 & -> & K).
    change (match_from (OneOrMore ?a :: ?ts) ?p ?r)
      with (one_or_more (atom_matches a) (match_from ts) p r) in K.
    apply one_or_more_spec in K as (B & R2 & -> & NB & FB & K).
    apply one_spec in K as (R3 & -> & K).
    change (match_from (OneOrMore ?a :: ?ts) ?p ?r)
      with (one_or_more (atom_matches a) (match_from ts) p r) in K.
    apply one_or_more_spec in K as (C & R4 & -> & NC & FC & K).
    apply eol_spec in K as ->. rewrite app_nil_r.
    exists A, B, C. rewrite <- !plain_Forall. auto 10.
  - intros (A & B & C & -> & NA & NB & NC & FA & FB & FC).
    rewrite <- plain_Forall in FA, FB, FC.
    exists A, (at_sign :: B ++ full_stop :: C).
    repeat split; [exact NA|exact FA|].
    apply one_spec. exists (B ++ full_stop :: C). split; [reflexivity|].
    change (match_from (OneOrMore ?a :: ?ts) ?p ?r)
      with (one_or_more (atom_matches a) (match_from ts) p r).
    apply one_or_more_spec. exists B, (full_stop :: C).
    repeat split; [exact NB|exact FB|].
    apply one_spec. exists C. split; [reflexivity|].
    change (match_from (OneOrMore ?a :: ?ts) ?p ?r)
      with (one_or_more (atom_matches a) (match_from ts) p r).
    apply one_or_more_spec. exists C, []. rewrite app_nil_r.
    repeat split; [exact NC|exact FC].
Qed.

Lemma anchored_later (ts : list Term) (pos : nat) (rest : JsString) :
  test_from (Bol :: ts) (S pos) rest = false.
Proof.
  revert pos. induction rest as [|c r IH]; intros pos; simpl; [reflexivity|].
  apply IH.
Qed.

Lemma anchored_test (ts : list Term) (s : JsString) :
  test (Bol :: ts) s = match_from ts 0 s.
Proof.
  unfold test. destruct s as [|c r]; simpl.
  - now rewrite orb_false_r.
  - now rewrite anchored_later, orb_false_r.
Qed.

Lemma emailRegex_spec (v : JsString) :
  test emailRegex v = true <-> email_shape v.
Proof.
  change emailRegex with (Bol :: tail emailRegex).
  rewrite anchored_test. apply email_tail_spec.
Qed.

Lemma count_plain (A : JsString) :
  Forall plain A -> length (filter (fun c => c = at_sign) A) = 0%nat.
Proof.
  induction 1 as [|c A [_ Hc] _ IH]; [reflexivity|].
  now rewrite filter_cons_False.
Qed.

(** X28. The e-mail pattern [/^[^\s@]+@[^\s@]+\.[^\s@]+$/], run by a
    backtracking matcher, accepts exactly the strings [A@B.C] whose three
    parts are non-empty and free of white space and of [@]; every accepted
    string has exactly one [@] and no white space, and dots are not
    restricted further. *)
Theorem emailRegex_accepts_exactly (v : JsString) :
  (test emailRegex v = true <-> email_shape v) /\
  (test emailRegex v = true ->
     length (filter (fun c => c = at_sign) v) = 1%nat /\
     Forall (fun c => is_space c = false) v).
Proof.
  split; [apply emailRegex_spec|].
  intros H. apply emailRegex_spec in H
    as (A & B & C & -> & _ & _ & _ & FA & FB & FC).
  split.
  - rewrite filter_app, length_app, (count_plain A FA).
    rewrite filter_cons_True by reflexivity. simpl.
    rewrite filter_app, length_app, (count_plain B FB).
    rewrite filter_cons_False by discriminate.
    now rewrite (count_plain C FC).
  - apply Forall_app. split; [eapply Forall_impl; [exact FA|now intros c [? _]]|].
    constructor; [reflexivity|]. apply Forall_app.
    split; [eapply Forall_impl; [exact FB|now intros c [? _]]|].
    constructor; [reflexivity|].
    eapply Forall_impl; [exact FC|now intros c [? _]].
Qed.

Example emailRegex_samples :
  map (fun s => test emailRegex (of_ascii s))
      ["a@b.c"; "a@b"; "a b@c.d"; "a@.b.c"; "a@b.c."; "a@@b.c"; "@b.c"; ""] =
  [true; false; false; true; true; false; false; false].
Proof. vm_compute. reflexivity. Qed.

Lemma is_empty_spec (s : JsString) : is_empty s = true <-> s = [].
Proof. destruct s; simpl; split; congruence. Qed.

Lemma accepts_spec (f : Field) : accepts f = true <-> acceptable f.
Proof.
  unfold accepts, acceptable. cbv zeta.
  rewrite <- (emailRegex_spec (trim (value f))).
  destruct (String.eqb_spec (type f) "email") as [E|E];
    destruct (required f); destruct (trim (value f)) as [|c v];
    try destruct (test emailRegex (c :: v)); simpl;
    intuition (try congruence; try discriminate).
Qed.

Lemma validateField_eq (f : Field) (g : Group) :
  validateField f g =
    (Ret (accepts f),
     if accepts f then remove_class "error" (elem f) g
     else append_message (message_of f)
            (remove_first_message
               (add_class "error" (elem f) (remove_class "error" (elem f) g)))).
Proof.
  unfold validateField, accepts, message_of, showFieldError. cbv zeta.
  destruct (required f && is_empty (trim (value f))); [reflexivity|].
  destruct (String.eqb (type f) "email" && negb (is_empty (trim (value f))));
    [|reflexivity].
  destruct (test emailRegex (trim (value f))); reflexivity.
Qed.

Lemma group_classes_add (cls : string) (e e' : ElemId) (g : Group) (c : string) :
  c ∈ classes (add_class cls e g) e' <-> (e = e' /\ c = cls) \/ c ∈ classes g e'.
Proof.
  unfold classes, add_class. simpl. destruct (decide (e = e')) as [->|N].
  - rewrite lookup_insert_eq. simpl. rewrite elem_of_union, elem_of_singleton.
    tauto.
  - rewrite lookup_insert_ne by exact N. tauto.
Qed.

Lemma group_classes_remove (cls : string) (e e' : ElemId) (g : Group) (c : string) :
  c ∈ classes (remove_class cls e g) e' <->
  c ∈ classes g e' /\ ~ (e = e' /\ c = cls).
Proof.
  unfold classes, remove_class. simpl. destruct (decide (e = e')) as [->|N].
  - rewrite lookup_insert_eq. simpl. rewrite elem_of_difference, elem_of_singleton.
    tauto.
  - rewrite lookup_insert_ne by exact N. tauto.
Qed.

Lemma classes_append_message (m : string) (g : Group) (e : ElemId) :
  classes (append_message m g) e = classes g e.
Proof. reflexivity. Qed.

Lemma classes_remove_first_message (g : Group) (e : ElemId) :
  classes (remove_first_message g) e = classes g e.
Proof. reflexivity. Qed.

(** X29. [validateField] returns normally, and returns [true] exactly for a
    field that is not both required and blank and, if it is an e-mail field
    with a non-blank value, whose trimmed value has the shape [A@B.C].  The
    field carries [error] afterwards exactly when the verdict is [false]; no
    other class of any element changes.  A refusal replaces the first message
    below the parent by the new one, put last; an acceptance leaves the
    messages as they are, so a message shown earlier stays. *)
Theorem validateField_verdict (f : Field) (g : Group) :
  exists ok g',
    validateField f g = (Ret ok, g') /\
    (ok = true <-> acceptable f) /\
    ("error" ∈ classes g' (elem f) <-> ok = false) /\
    (forall e c, ~ (e = elem f /\ c = "error") ->
                 (c ∈ classes g' e <-> c ∈ classes g e)) /\
    messages g' = if ok then messages g
                  else tail (messages g) ++ [message_of f].
Proof.
  rewrite validateField_eq. pose proof (accepts_spec f) as Acc.
  destruct (accepts f).
  - exists true, (remove_class "error" (elem f) g).
    split; [reflexivity|]. split; [exact Acc|].
    split; [|split; [|reflexivity]].
    + rewrite group_classes_remove. split; [tauto|discriminate].
    + intros e c N. rewrite group_classes_remove.
      split; [tauto|]. intros H. split; [exact H|]. intros [<- ->]. tauto.
  - eexists false, _. split; [reflexivity|]. split; [exact Acc|].
    split; [|split; [|reflexivity]].
    + rewrite classes_append_message, classes_remove_first_message.
      rewrite group_classes_add. tauto.
    + intros e c N.
      rewrite classes_append_message, classes_remove_first_message.
      rewrite group_classes_add, group_classes_remove.
      split; [|intros H; right; split; [exact H|]; intros [<- ->]; tauto].
      intros [[<- ->]|[H _]]; [tauto|exact H].
Qed.

Lemma step_messages (ev : Event) (g : Group) :
  messages (step ev g) =
    match ev with
    | Blur f => if accepts f then messages g
                else tail (messages g) ++ [message_of f]
    | Input _ => tail (messages g)
    end.
Proof.
  destruct ev as [f|f]; cbn [step]; [|reflexivity].
  rewrite validateField_eq. cbn [snd]. now destruct (accepts f).
Qed.

Lemma short_tail (l : list string) : length l <= 1 -> tail l = [].
Proof. destruct l as [|x [|y l]]; simpl; [reflexivity|reflexivity|lia]. Qed.

Lemma step_short (ev : Event) (g : Group) :
  length (messages g) <= 1 -> length (messages (step ev g)) <= 1.
Proof.
  intros L. rewrite step_messages. destruct ev as [f|f].
  - destruct (accepts f); [exact L|]. now rewrite (short_tail _ L).
  - rewrite (short_tail _ L). simpl. lia.
Qed.

Lemma run_short (es : list Event) (g : Group) :
  length (messages g) <= 1 -> length (messages (run g es)) <= 1.
Proof.
  revert g. induction es as [|ev es IH]; intros g L; [exact L|].
  change (run g (ev :: es)) with (run (step ev g) es).
  apply IH. now apply step_short.
Qed.

(** X30. One message below the parent.  If the parent of a group of fields
    starts with at most one error message, it has at most one after any
    sequence of blur and input events on its fields.  In every such state a
    refused blur leaves exactly the refused field's message, an accepted blur
    leaves the message that was there, and an input event on any field of the
    group removes the message while the [error] class of every other field
    stays as it is. *)
Theorem one_message_below_the_parent (g : Group) (es : list Event) :
  length (messages g) <= 1 ->
  length (messages (run g es)) <= 1 /\
  (forall f, ~ acceptable f ->
             messages (step (Blur f) (run g es)) = [message_of f]) /\
  (forall f, acceptable f ->
             messages (step (Blur f) (run g es)) = messages (run g es)) /\
  (forall f, messages (step (Input f) (run g es)) = []) /\
  (forall f f', elem f <> elem f' ->
     ("error" ∈ classes (step (Input f') (run g es)) (elem f) <->
      "error" ∈ classes (run g es) (elem f))).
Proof.
  intros L. pose proof (run_short es g L) as Lr.
  split; [exact Lr|]. split; [|split; [|split]].
  - intros f N. rewrite step_messages.
    destruct (accepts f) eqn:A; [exfalso; apply N; now apply accepts_spec|].
    now rewrite (short_tail _ Lr).
  - intros f A. rewrite step_messages. apply accepts_spec in A. now rewrite A.
  - intros f. rewrite step_messages. now apply short_tail.
  - intros f f' N. cbn [step]. unfold clearFieldError, bind, modify. cbn [snd].
    rewrite classes_remove_first_message, group_classes_remove.
    split; [tauto|]. intros H. split; [exact H|]. intros [E _]. congruence.
Qed.

Lemma one_message_below_the_parent_witness :
  messages (run pristine [Blur (email_field "a@b"); Blur (name_field "Ada")]) =
    ["Please enter a valid email address"] /\
  messages (step (Input (name_field "Ada"))
              (run pristine [Blur (email_field "a@b"); Blur (name_field "Ada")])) = [].
Proof.
  assert (L : length (messages pristine) <= 1) by (simpl; lia).
  destruct (one_message_below_the_parent pristine
              [Blur (email_field "a@b"); Blur (name_field "Ada")] L)
    as (_ & _ & _ & C & _).
  split; [vm_compute; reflexivity|apply C].
Defined.

End FieldValidation.
